(** * reXact-fps: the fixed-step engine and its driver

    A shallow embedding of [simulation.py], [util.py], the constants of
    [config.py], the sampling half of [input_devices.py] and the timing
    part of the loop in [main.py], with the properties the specification
    states about them; and, beyond those, of the setters, the resize
    handler, the render gate and the pacing of [main.py], the value
    logic of the sliders of [ui.py], and the rate meter and the drawing
    parameters of [render.py], with further properties of the code.

    Number model.  A Python [float] is read as a real number ([R]): the
    arithmetic is exact, there is no rounding, no overflow and no NaN.
    A Python [int] is a [Z]; [float(i)] of a coordinate or a size is
    [IZR i].  Where the program converts a number of any length, the
    text typed into a slider's box, the conversion is the one of the
    doubles, with its rounding and its [OverflowError]
    ([Py.float_of_int]).  Operations that can raise return an [option]:
    [Vector2.normalize] on a vector of length zero, [Vector2.lerp] on a
    factor outside [0, 1], and the slider's commits on a number that
    fits no double.  Tick counts and accumulator leftovers are stated as
    the loop makes them, turn by turn, or as bounds: a closed form in
    exact arithmetic can differ from the doubles by a whole tick. *)

From Stdlib Require Import Reals Lra Lia ZArith List Bool Psatz.
Import ListNotations.

Local Open Scope R_scope.

(* ================================================================= *)
(** ** Python built-ins used by the program *)

Module Py.

(** [int(round(n / d))] for integers [n] and [d > 0]: Python rounds
    halves to the even neighbour. *)
Definition round_div (n d : Z) : Z :=
  let q := (n / d)%Z in
  let r := (n mod d)%Z in
  if (2 * r <? d)%Z then q
  else if (d <? 2 * r)%Z then (q + 1)%Z
  else if Z.even q then q else (q + 1)%Z.

(** [d.get(k)] on a dict written as its list of items. *)
Fixpoint dict_get {V : Type} (d : list (Z * V)) (k : Z) : option V :=
  match d with
  | [] => None
  | (k', v) :: rest => if (k' =? k)%Z then Some v else dict_get rest k
  end.

(** [a == b] on floats. *)
Definition float_eq (a b : R) : bool :=
  if Req_dec_T a b then true else false.

(** [a > b] on floats. *)
Definition float_gt (a b : R) : bool :=
  if Rgt_dec a b then true else false.

(** [int(round(x))] on a float: halves go to the even neighbour. *)
Definition round (x : R) : Z :=
  let f := Zfloor x in
  let r := x - IZR f in
  if Rlt_dec r (1 / 2) then f
  else if Rgt_dec r (1 / 2) then (f + 1)%Z
  else if Z.even f then f else (f + 1)%Z.

(** [int(x)] on a float: truncation toward zero. *)
Definition int (x : R) : Z :=
  if Rle_dec 0 x then Zfloor x else Zceil x.

(** [float(v)] on an integer, as the integer the double is. Below
    [2 ^ 53] in magnitude every integer is a double; a larger one keeps
    its 53 leading bits, rounded to the nearest, halves to the even
    neighbour; [None] is the [OverflowError] of an integer that rounds
    to [2 ^ 1024] or beyond. *)
Definition float_of_int (v : Z) : option Z :=
  let a := Z.abs v in
  if (a <? 2 ^ 53)%Z then Some v
  else
    let e := (Z.log2 a - 52)%Z in
    let q := (a / 2 ^ e)%Z in
    let r := (a mod 2 ^ e)%Z in
    let q' :=
      if (2 * r <? 2 ^ e)%Z then q
      else if (2 ^ e <? 2 * r)%Z then (q + 1)%Z
      else if Z.even q then q else (q + 1)%Z in
    let m := (q' * 2 ^ e)%Z in
    if (2 ^ 1024 <=? m)%Z then None else Some (Z.sgn v * m)%Z.

End Py.

(* ================================================================= *)
(** ** config.py *)

Module config.

Definition Color : Type := (Z * Z * Z)%type.

Definition CANVAS_MARGIN : Z := 12.

Definition BALL_RADIUS : Z := 14.
Definition BALL_SPEED_PX_S : R := 700.
Definition GLOW_DURATION_S : R := 0.5.

Definition TARGET_SIZE_PCT_DEFAULT : Z := 165.
Definition TARGET_SIZE_PCT_MIN : Z := 120.
Definition TARGET_SIZE_PCT_MAX : Z := 500.

Definition TARGET_SPEED_PX_S_DEFAULT : Z := 170.
Definition TARGET_SPEED_PX_S_MIN : Z := 60.
Definition TARGET_SPEED_PX_S_MAX : Z := 420.

Definition TARGET_FLASH_DURATION_S : R := 0.35.

Definition RELAXED_DEADZONE : R := 0.16.
Definition UNRELAXED_DEADZONE : R := 0.

Definition BALL_BASE_COLOR : Color := (235, 235, 235)%Z.

Definition BUTTON_COLORS : list (Z * Color) :=
  [ (0, (80, 160, 255)); (1, (255, 90, 90)); (2, (255, 110, 255));
    (3, (120, 255, 130)); (4, (180, 200, 255)); (5, (90, 255, 255));
    (6, (255, 210, 90)); (15, (200, 190, 255)); (7, (185, 135, 255));
    (8, (125, 255, 225)); (9, (255, 150, 80)); (10, (220, 255, 90));
    (16, (255, 120, 190)); (17, (120, 190, 255)); (11, (130, 175, 255));
    (12, (255, 130, 175)); (13, (175, 255, 130)); (14, (255, 175, 130)) ]%Z.

Definition BUTTON_COLOR_PALETTE : list Color :=
  [ (80, 160, 255); (255, 90, 90); (255, 110, 255); (120, 255, 130);
    (255, 210, 90); (90, 255, 255); (255, 150, 80); (220, 255, 90);
    (185, 135, 255); (125, 255, 225); (180, 200, 255); (200, 190, 255);
    (255, 130, 175); (130, 175, 255); (175, 255, 130); (255, 175, 130) ]%Z.

Definition get_button_color (button_index : Z) : Color :=
  match Py.dict_get BUTTON_COLORS button_index with
  | Some c => c
  | None =>
      match BUTTON_COLOR_PALETTE with
      | [] => (235, 235, 235)%Z
      | _ :: _ =>
          nth (Z.to_nat
                 (button_index mod Z.of_nat (length BUTTON_COLOR_PALETTE)))
              BUTTON_COLOR_PALETTE (235, 235, 235)%Z
      end
  end.

End config.

(* ================================================================= *)
(** ** util.py *)

Module util.

Definition clamp (x lo hi : R) : R :=
  if Rlt_dec x lo then lo else if Rgt_dec x hi then hi else x.

Definition lerp (a b t : R) : R := a + (b - a) * t.

Definition apply_deadzone (v deadzone : R) : R :=
  if Rle_dec (Rabs v) deadzone then 0
  else
    let s := if Rgt_dec v 0 then 1 else -1 in
    let v' :=
      if Rlt_dec deadzone 1 then (Rabs v - deadzone) / (1 - deadzone)
      else 0 in
    s * clamp v' 0 1.

Definition distance_sq (x0 y0 x1 y1 : R) : R :=
  let dx := x1 - x0 in
  let dy := y1 - y0 in
  dx * dx + dy * dy.

(** [int(clamp(float(v), float(lo), float(hi)))] on integers. *)
Definition clamp_int (v lo hi : Z) : Z :=
  if (v <? lo)%Z then lo else if (hi <? v)%Z then hi else v.

(** [int(clamp(float(v), float(lo), float(hi)))] with the three
    conversions as the doubles make them; [None] is the [OverflowError]
    of [float]. *)
Definition clamp_float (v lo hi : Z) : option Z :=
  match Py.float_of_int v, Py.float_of_int lo, Py.float_of_int hi with
  | Some fv, Some flo, Some fhi => Some (clamp_int fv flo fhi)
  | _, _, _ => None
  end.

Definition lerp_color (c0 c1 : config.Color) (t : R) : config.Color :=
  let t := clamp t 0 1 in
  let '(r0, g0, b0) := c0 in
  let '(r1, g1, b1) := c1 in
  (Py.round (lerp (IZR r0) (IZR r1) t),
   Py.round (lerp (IZR g0) (IZR g1) t),
   Py.round (lerp (IZR b0) (IZR b1) t)).

Definition ease_out_cubic (t : R) : R :=
  let t := clamp t 0 1 in
  let u := 1 - t in
  1 - (u * u * u).

(** One pass of the loop of [nearest_snap] over [(best, best_d)]. *)
Definition snap_step (value window : Z) (acc : Z * Z) (s : Z) : Z * Z :=
  let d := Z.abs (value - s) in
  if (d <=? window)%Z && (d <? snd acc)%Z then (s, d) else acc.

Definition nearest_snap (value : Z) (snaps : list Z) (window : Z) : Z :=
  fst (fold_left (snap_step value window) snaps (value, (window + 1)%Z)).

End util.

(* ================================================================= *)
(** ** pygame.Vector2, as far as the program uses it *)

Module Vector2.

Record t : Type := mk { x : R; y : R }.

Definition length_squared (v : t) : R := x v * x v + y v * y v.

Definition length (v : t) : R := sqrt (length_squared v).

(** [v * s] *)
Definition scale (v : t) (s : R) : t := mk (x v * s) (y v * s).

(** [v + u] *)
Definition add (v u : t) : t := mk (x v + x u) (y v + y u).

(** [v.normalize()]: raises [ValueError] on a vector of length zero. *)
Definition normalize (v : t) : option t :=
  if Req_dec_T (length v) 0 then None
  else Some (mk (x v / length v) (y v / length v)).

(** [v.lerp(u, a)]: raises [ValueError] unless [0 <= a <= 1]. *)
Definition lerp (v u : t) (a : R) : option t :=
  if Rlt_dec a 0 then None
  else if Rgt_dec a 1 then None
  else Some (mk (x v * (1 - a) + x u * a) (y v * (1 - a) + y u * a)).

End Vector2.

(* ================================================================= *)
(** ** simulation.py *)

Module BallVisual.

Record t : Type := mk {
  active_blink_color : config.Color;
  glow_elapsed : R
}.

Definition default : t :=
  mk config.BALL_BASE_COLOR config.GLOW_DURATION_S.

End BallVisual.

Module TargetState.

Record t : Type := mk {
  enabled : bool;
  pos : Vector2.t;
  vel : Vector2.t;
  size_pct : Z;
  speed_px_s : Z;
  radius_px : Z;
  hit_flash_elapsed : R
}.

(** [TargetState(enabled=e)]: every other field at its default. *)
Definition default (e : bool) : t :=
  mk e (Vector2.mk 0 0) (Vector2.mk 1 0)
     config.TARGET_SIZE_PCT_DEFAULT config.TARGET_SPEED_PX_S_DEFAULT 0
     config.TARGET_FLASH_DURATION_S.

Definition _compute_radius (self : t) (ball_radius : Z) : Z :=
  Py.round_div (ball_radius * size_pct self) 100.

(** Lines 41-43 and 52-54, the same three statements in both methods:
    re-seed a velocity of (near-)zero length, then normalise and scale.
    [None] is the [ValueError] of [normalize]. *)
Definition rescale_vel (v : Vector2.t) (speed : Z) : option Vector2.t :=
  let v1 :=
    if Rlt_dec (Vector2.length_squared v) 1e-9 then Vector2.mk 1 0
    else v in
  match Vector2.normalize v1 with
  | None => None
  | Some n => Some (Vector2.scale n (IZR speed))
  end.

Definition set_params (self : t) (ball_radius size_pct' speed_px_s' : Z)
  : option t :=
  let size := util.clamp_int size_pct'
                config.TARGET_SIZE_PCT_MIN config.TARGET_SIZE_PCT_MAX in
  let speed := util.clamp_int speed_px_s'
                 config.TARGET_SPEED_PX_S_MIN config.TARGET_SPEED_PX_S_MAX in
  let self1 :=
    mk (enabled self) (pos self) (vel self) size speed (radius_px self)
       (hit_flash_elapsed self) in
  let radius := _compute_radius self1 ball_radius in
  match rescale_vel (vel self) speed with
  | None => None
  | Some v =>
      Some (mk (enabled self) (pos self) v size speed radius
               (hit_flash_elapsed self))
  end.

(** [rnd] is the value [random.random()] returns. *)
Definition reset (self : t) (rnd : R) (w h margin ball_radius : Z)
  : option t :=
  let radius := _compute_radius self ball_radius in
  let p := Vector2.mk (IZR w * 0.65) (IZR h * 0.45) in
  let ang := rnd * (2 * PI) in
  match rescale_vel (Vector2.mk (cos ang) (sin ang)) (speed_px_s self) with
  | None => None
  | Some v =>
      let tr := radius in
      let px := util.clamp (Vector2.x p)
                  (IZR (margin + tr)) (IZR (w - margin - tr)) in
      let py := util.clamp (Vector2.y p)
                  (IZR (margin + tr)) (IZR (h - margin - tr)) in
      Some (mk (enabled self) (Vector2.mk px py) v (size_pct self)
               (speed_px_s self) radius config.TARGET_FLASH_DURATION_S)
  end.

End TargetState.

Module EngineState.

Record t : Type := mk {
  pos : Vector2.t;
  prev_pos : Vector2.t;
  ball_radius : Z;
  ball_speed : R;
  visual : BallVisual.t;
  target : TargetState.t
}.

End EngineState.

Definition make_initial_state (rnd : R) (w h margin : Z)
  : option EngineState.t :=
  let r := config.BALL_RADIUS in
  let p := Vector2.mk (IZR w * 0.5) (IZR h * 0.5) in
  match TargetState.set_params (TargetState.default false) r
          config.TARGET_SIZE_PCT_DEFAULT config.TARGET_SPEED_PX_S_DEFAULT with
  | None => None
  | Some t1 =>
      match TargetState.reset t1 rnd w h margin r with
      | None => None
      | Some t2 =>
          Some (EngineState.mk p p r config.BALL_SPEED_PX_S
                  BallVisual.default t2)
      end
  end.

Definition with_target (state : EngineState.t) (tg : TargetState.t)
  : EngineState.t :=
  EngineState.mk (EngineState.pos state) (EngineState.prev_pos state)
    (EngineState.ball_radius state) (EngineState.ball_speed state)
    (EngineState.visual state) tg.

(** [rnd] is the value [random.random()] returns if [reset] runs. *)
Definition set_target_enabled (state : EngineState.t) (enabled : bool)
    (rnd : R) (w h margin : Z) : option EngineState.t :=
  let tg := EngineState.target state in
  let tg1 :=
    TargetState.mk enabled (TargetState.pos tg) (TargetState.vel tg)
      (TargetState.size_pct tg) (TargetState.speed_px_s tg)
      (TargetState.radius_px tg) (TargetState.hit_flash_elapsed tg) in
  if enabled then
    match TargetState.reset tg1 rnd w h margin
            (EngineState.ball_radius state) with
    | None => None
    | Some tg2 => Some (with_target state tg2)
    end
  else Some (with_target state tg1).

Definition clamp_state_to_bounds (state : EngineState.t) (w h margin : Z)
  : EngineState.t :=
  let br := EngineState.ball_radius state in
  let clamp_ball (p : Vector2.t) :=
    Vector2.mk
      (util.clamp (Vector2.x p) (IZR (margin + br)) (IZR (w - margin - br)))
      (util.clamp (Vector2.y p) (IZR (margin + br)) (IZR (h - margin - br)))
  in
  let tg := EngineState.target state in
  let target' :=
    if TargetState.enabled tg then
      let tr := TargetState.radius_px tg in
      TargetState.mk (TargetState.enabled tg)
        (Vector2.mk
           (util.clamp (Vector2.x (TargetState.pos tg))
              (IZR (margin + tr)) (IZR (w - margin - tr)))
           (util.clamp (Vector2.y (TargetState.pos tg))
              (IZR (margin + tr)) (IZR (h - margin - tr))))
        (TargetState.vel tg) (TargetState.size_pct tg)
        (TargetState.speed_px_s tg) (TargetState.radius_px tg)
        (TargetState.hit_flash_elapsed tg)
    else tg in
  EngineState.mk (clamp_ball (EngineState.pos state))
    (clamp_ball (EngineState.prev_pos state))
    (EngineState.ball_radius state) (EngineState.ball_speed state)
    (EngineState.visual state) target'.

(** A saturating timer: lines 137-140 for the glow, 169-172 for the
    flash. *)
Definition advance_timer (elapsed duration dt : R) : R :=
  if Rlt_dec elapsed duration then
    let e := elapsed + dt in
    if Rgt_dec e duration then duration else e
  else elapsed.

(** One pass of the loop over [button_down_edges] (lines 143-144). *)
Definition apply_edge (v : BallVisual.t) (b : Z) : BallVisual.t :=
  BallVisual.mk (config.get_button_color b) 0.

(** Lines 155-160 (and 162-167): one axis of the target against its
    two walls; the result is the coordinate and the velocity component. *)
Definition reflect_axis (p v lo hi : R) : R * R :=
  if Rlt_dec p lo then (lo, Rabs v)
  else if Rgt_dec p hi then (hi, - Rabs v)
  else (p, v).

Definition engine_step
    (state : EngineState.t) (dt : R) (w h margin : Z)
    (stick_lx stick_ly : R) (button_down_edges : list Z)
    (any_button_edge : bool) (ball_override_pos : option (R * R))
  : EngineState.t :=
  let prev_pos := EngineState.pos state in
  let p1 :=
    match ball_override_pos with
    | None =>
        Vector2.mk
          (Vector2.x (EngineState.pos state)
           + (stick_lx * EngineState.ball_speed state) * dt)
          (Vector2.y (EngineState.pos state)
           + (stick_ly * EngineState.ball_speed state) * dt)
    | Some (ox, oy) => Vector2.mk ox oy
    end in
  let br := EngineState.ball_radius state in
  let p2 :=
    Vector2.mk
      (util.clamp (Vector2.x p1) (IZR (margin + br)) (IZR (w - margin - br)))
      (util.clamp (Vector2.y p1) (IZR (margin + br)) (IZR (h - margin - br)))
  in
  let visual1 :=
    BallVisual.mk
      (BallVisual.active_blink_color (EngineState.visual state))
      (advance_timer (BallVisual.glow_elapsed (EngineState.visual state))
         config.GLOW_DURATION_S dt) in
  let visual2 := fold_left apply_edge button_down_edges visual1 in
  let tg := EngineState.target state in
  let target' :=
    if TargetState.enabled tg then
      let tp :=
        Vector2.add (TargetState.pos tg)
          (Vector2.scale (TargetState.vel tg) dt) in
      let tr := TargetState.radius_px tg in
      let min_tx := IZR (margin + tr) in
      let max_tx := IZR (w - margin - tr) in
      let min_ty := IZR (margin + tr) in
      let max_ty := IZR (h - margin - tr) in
      let '(tx, tvx) :=
        reflect_axis (Vector2.x tp) (Vector2.x (TargetState.vel tg))
          min_tx max_tx in
      let '(ty, tvy) :=
        reflect_axis (Vector2.y tp) (Vector2.y (TargetState.vel tg))
          min_ty max_ty in
      let flash1 :=
        advance_timer (TargetState.hit_flash_elapsed tg)
          config.TARGET_FLASH_DURATION_S dt in
      let flash2 :=
        if any_button_edge then
          let inner := Rmax 0 (IZR (tr - br)) in
          let d2 := util.distance_sq (Vector2.x p2) (Vector2.y p2) tx ty in
          if Rle_dec d2 (inner * inner) then 0 else flash1
        else flash1 in
      TargetState.mk (TargetState.enabled tg) (Vector2.mk tx ty)
        (Vector2.mk tvx tvy) (TargetState.size_pct tg)
        (TargetState.speed_px_s tg) (TargetState.radius_px tg) flash2
    else tg in
  EngineState.mk p2 prev_pos (EngineState.ball_radius state)
    (EngineState.ball_speed state) visual2 target'.

(* ================================================================= *)
(** ** input_devices.py *)

Module ControllerSample.

Record t : Type := mk {
  lx : R;
  ly : R;
  button_down_edges : list Z;
  any_button_edge : bool
}.

Definition default : t := mk 0 0 [] false.

End ControllerSample.

Module ControllerManager.

(** What the active joystick answers at one poll: [get_axis(i)] for
    [i < get_numaxes()] and [get_button(i)] for [i < get_numbuttons()]. *)
Record Joystick : Type := mkJoystick {
  get_axes : list R;
  get_buttons : list bool
}.

(** The part of the manager a later [sample] reads back: the buttons
    it remembers. The two debug strings [sample] and [_read_axes] also
    write, [last_axis_debug] and [last_button_debug], which only the
    text of the panel shows, are left out. *)
Record t : Type := mk { _prev_buttons : list bool }.

(** [active] is [self._active] polled now, [None] when no controller is
    selected; [axis_lx = 0] and [axis_ly = 1]. *)
Definition _read_axes (active : option Joystick) (deadzone : R) : R * R :=
  match active with
  | None => (0, 0)
  | Some j =>
      match get_axes j with
      | a0 :: a1 :: _ =>
          (util.apply_deadzone a0 deadzone, util.apply_deadzone a1 deadzone)
      | _ => (0, 0)
      end
  end.

Definition peek_axes (active : option Joystick) (deadzone : R) : R * R :=
  _read_axes active deadzone.

(** The loop [for i in range(nb)] of [sample], from index [i] on. *)
Fixpoint edges_from (i : Z) (cur prev : list bool) : list Z :=
  match cur, prev with
  | c :: cs, p :: ps =>
      (if c && negb p then [i] else []) ++ edges_from (i + 1)%Z cs ps
  | _, _ => []
  end.

Definition sample (self : t) (active : option Joystick) (deadzone : R)
  : ControllerSample.t * t :=
  match active with
  | None => (ControllerSample.default, self)
  | Some j =>
      let '(lx, ly) := _read_axes active deadzone in
      let nb := length (get_buttons j) in
      let prev :=
        if Nat.eqb (length (_prev_buttons self)) nb
        then _prev_buttons self else repeat false nb in
      let edges := edges_from 0 (get_buttons j) prev in
      let s :=
        match edges with
        | [] => ControllerSample.mk lx ly [] false
        | _ :: _ => ControllerSample.mk lx ly edges true
        end in
      (s, mk (get_buttons j))
  end.

End ControllerManager.

(* ================================================================= *)
(** ** main.py: one pass of [while running], without pending events *)

Module Main.

(** What the devices answer when one engine tick polls them. *)
Record Devices : Type := mkDevices {
  mouse_get_pos : Z * Z;
  mouse_get_pressed : bool * bool * bool;
  joystick : option ControllerManager.Joystick
}.

(** The variables of [main] the timing loop reads and writes.
    [engine_ticks] counts the calls of [engine_meter.tick()]. *)
Record Loop : Type := mkLoop {
  state : EngineState.t;
  accumulator : R;
  last_time : R;
  controller_cursor : Vector2.t;
  prev_mouse_buttons : bool * bool * bool;
  ctrl : ControllerManager.t;
  engine_ticks : nat;
  mouse_mode : bool;
  engine_fps : Z;
  interp_enabled : bool;
  deadzone_relax : bool;
  win_w : Z;
  win_h : Z
}.

Definition current_deadzone (L : Loop) : R :=
  if deadzone_relax L then config.RELAXED_DEADZONE
  else config.UNRELAXED_DEADZONE.

(** Lines 464-468. The result is [frame_dt] and the loop with the new
    [last_time] and [accumulator]. *)
Definition begin_frame (now : R) (L : Loop) : R * Loop :=
  let frame_dt := Rmin (now - last_time L) 0.25 in
  (frame_dt,
   mkLoop (state L) (accumulator L + frame_dt) now (controller_cursor L)
     (prev_mouse_buttons L) (ctrl L) (engine_ticks L) (mouse_mode L)
     (engine_fps L) (interp_enabled L) (deadzone_relax L)
     (win_w L) (win_h L)).

(** Lines 471-493: the render-time cursor of controller mode. [lx, ly]
    is what [ctrl.peek_axes] returned. *)
Definition integrate_cursor (L : Loop) (frame_dt lx ly : R) : Vector2.t :=
  if mouse_mode L then controller_cursor L
  else if Py.float_eq lx 0 && Py.float_eq ly 0 then
    EngineState.pos (state L)
  else
    let cx := Vector2.x (controller_cursor L)
              + (lx * EngineState.ball_speed (state L)) * frame_dt in
    let cy := Vector2.y (controller_cursor L)
              + (ly * EngineState.ball_speed (state L)) * frame_dt in
    let br := EngineState.ball_radius (state L) in
    Vector2.mk
      (util.clamp cx (IZR (config.CANVAS_MARGIN + br))
         (IZR (win_w L - config.CANVAS_MARGIN - br)))
      (util.clamp cy (IZR (config.CANVAS_MARGIN + br))
         (IZR (win_h L - config.CANVAS_MARGIN - br))).

Definition with_cursor (L : Loop) (c : Vector2.t) : Loop :=
  mkLoop (state L) (accumulator L) (last_time L) c
    (prev_mouse_buttons L) (ctrl L) (engine_ticks L) (mouse_mode L)
    (engine_fps L) (interp_enabled L) (deadzone_relax L)
    (win_w L) (win_h L).

(** Line 568. *)
Definition engine_dt_of (engine_fps : Z) : R :=
  1 / IZR (Z.max 1 engine_fps).

(** [mapping = {0: 0, 2: 1, 1: 2}], read with [mapping.get(idx, 0)]. *)
Definition mapping (idx : Z) : Z :=
  match Py.dict_get [(0, 0); (2, 1); (1, 2)]%Z idx with
  | Some b => b
  | None => 0%Z
  end.

(** One pass of [for idx in range(3)] (lines 580-586): the edge the
    mouse button [idx] contributes. *)
Definition mouse_edge (idx : Z) (cur prev : bool) : list Z :=
  if cur && negb prev then [mapping idx] else [].

(** Lines 575-588: the edges of a mouse tick, in the order they are
    appended. *)
Definition mouse_edges (pressed prev : bool * bool * bool) : list Z :=
  let '(c0, c1, c2) := pressed in
  let '(p0, p1, p2) := prev in
  mouse_edge 0 c0 p0 ++ mouse_edge 1 c1 p1 ++ mouse_edge 2 c2 p2.

(** The body of [while accumulator >= engine_dt] (lines 571-622). *)
Definition tick (d : Devices) (engine_dt : R) (L : Loop) : Loop :=
  if mouse_mode L then
    let '(mx, my) := mouse_get_pos d in
    let edges := mouse_edges (mouse_get_pressed d) (prev_mouse_buttons L) in
    let any_edge := match edges with [] => false | _ :: _ => true end in
    let st :=
      engine_step (state L) engine_dt (win_w L) (win_h L)
        config.CANVAS_MARGIN 0 0 edges any_edge
        (Some (IZR mx, IZR my)) in
    mkLoop st (accumulator L - engine_dt) (last_time L)
      (controller_cursor L) (mouse_get_pressed d) (ctrl L)
      (S (engine_ticks L)) (mouse_mode L) (engine_fps L)
      (interp_enabled L) (deadzone_relax L) (win_w L) (win_h L)
  else
    let '(sample, ctrl') :=
      ControllerManager.sample (ctrl L) (joystick d) (current_deadzone L) in
    let st :=
      engine_step (state L) engine_dt (win_w L) (win_h L)
        config.CANVAS_MARGIN
        (ControllerSample.lx sample) (ControllerSample.ly sample)
        (ControllerSample.button_down_edges sample)
        (ControllerSample.any_button_edge sample) None in
    mkLoop st (accumulator L - engine_dt) (last_time L)
      (controller_cursor L) (prev_mouse_buttons L) ctrl'
      (S (engine_ticks L)) (mouse_mode L) (engine_fps L)
      (interp_enabled L) (deadzone_relax L) (win_w L) (win_h L).

(** [while accumulator >= engine_dt] (line 570). [devices k] is what
    the devices answer at the [k]-th tick of this frame; [None] when
    the loop is still running after [fuel] ticks. *)
Fixpoint drain (fuel : nat) (devices : nat -> Devices) (k : nat)
    (engine_dt : R) (L : Loop) : option Loop :=
  if Rge_dec (accumulator L) engine_dt then
    match fuel with
    | O => None
    | S fuel' =>
        drain fuel' devices (S k) engine_dt (tick (devices k) engine_dt L)
    end
  else Some L.

(** Lines 464-622 of one frame: the clock read [now], the joystick as
    [peek_axes] finds it, and the devices at each tick. *)
Definition frame (fuel : nat) (now : R)
    (peek : option ControllerManager.Joystick)
    (devices : nat -> Devices) (L : Loop) : option Loop :=
  let '(frame_dt, L1) := begin_frame now L in
  let '(lx, ly) := ControllerManager.peek_axes peek (current_deadzone L1) in
  let L2 := with_cursor L1 (integrate_cursor L1 frame_dt lx ly) in
  let engine_dt := engine_dt_of (engine_fps L2) in
  drain fuel devices 0 engine_dt L2.

(** Lines 638-642. [None] is the [ValueError] of [Vector2.lerp]. *)
Definition render_pos (L : Loop) (engine_dt : R) : option Vector2.t :=
  if interp_enabled L && Py.float_gt engine_dt 0 then
    let alpha := util.clamp (accumulator L / engine_dt) 0 1 in
    Vector2.lerp (EngineState.prev_pos (state L))
      (EngineState.pos (state L)) alpha
  else Some (EngineState.pos (state L)).

(** Lines 166-168: the engine rate the slider's [on_change] stores. *)
Definition set_engine_fps (v : Z) : Z := util.clamp_int v 1 2000.

(** Lines 170-172. *)
Definition set_visual_fps (v : Z) : Z := util.clamp_int v 0 2000.

(** Lines 187-192. The result is the new [target_size_pct] and the
    state; [None] is an exception of [set_params]. *)
Definition set_target_size (st : EngineState.t) (target_speed : Z)
    (w h : Z) (v : Z) : option (Z * EngineState.t) :=
  let target_size_pct :=
    util.clamp_int v config.TARGET_SIZE_PCT_MIN config.TARGET_SIZE_PCT_MAX in
  match TargetState.set_params (EngineState.target st)
          (EngineState.ball_radius st) target_size_pct target_speed with
  | None => None
  | Some tg =>
      let st1 := with_target st tg in
      Some (target_size_pct,
            if TargetState.enabled tg
            then clamp_state_to_bounds st1 w h config.CANVAS_MARGIN
            else st1)
  end.

(** Lines 194-197. *)
Definition set_target_speed (st : EngineState.t) (target_size_pct : Z)
    (v : Z) : option (Z * EngineState.t) :=
  let target_speed :=
    util.clamp_int v config.TARGET_SPEED_PX_S_MIN
      config.TARGET_SPEED_PX_S_MAX in
  match TargetState.set_params (EngineState.target st)
          (EngineState.ball_radius st) target_size_pct target_speed with
  | None => None
  | Some tg => Some (target_speed, with_target st tg)
  end.

(** Lines 199-206, as far as the loop's variables go. *)
Definition set_mouse_mode (L : Loop) (v : bool) : Loop :=
  mkLoop (state L) (accumulator L) (last_time L)
    (if v then controller_cursor L else EngineState.pos (state L))
    (false, false, false) (ctrl L) (engine_ticks L) v
    (engine_fps L) (interp_enabled L) (deadzone_relax L)
    (win_w L) (win_h L).

(** Lines 143-147 of [apply_video_mode] and 519-523 of the
    [VIDEORESIZE] handler: [w, h] is what [screen.get_size()] returned. *)
Definition on_resize (L : Loop) (w h : Z) : Loop :=
  let st := clamp_state_to_bounds (state L) w h config.CANVAS_MARGIN in
  mkLoop st (accumulator L) (last_time L) (EngineState.pos st)
    (prev_mouse_buttons L) (ctrl L) (engine_ticks L) (mouse_mode L)
    (engine_fps L) (interp_enabled L) (deadzone_relax L) w h.

(** Lines 624-633: whether the frame renders, and [last_render] after
    it. *)
Definition render_gate (visual_fps : Z) (now last_render : R) : bool * R :=
  let do_render :=
    if (visual_fps <=? 0)%Z then true
    else
      let visual_dt := 1 / IZR (Z.max 1 visual_fps) in
      if Rge_dec (now - last_render) visual_dt then true else false in
  (do_render, if do_render then now else last_render).

(** Lines 721-737: the argument of [time.sleep], [None] when the frame
    does not sleep. [clock] is the [time.perf_counter()] of line 726. *)
Definition sleep_time (engine_dt accumulator : R) (visual_fps : Z)
    (last_render clock : R) : option R :=
  let next_engine_in := Rmax 0 (engine_dt - accumulator) in
  let next_render_in :=
    if (visual_fps <=? 0)%Z then 0
    else
      let visual_dt := 1 / IZR (Z.max 1 visual_fps) in
      Rmax 0 ((last_render + visual_dt) - clock) in
  let sleep_for :=
    if Rgt_dec next_engine_in 0 then
      if Rgt_dec next_render_in 0
      then Some (Rmin next_engine_in next_render_in)
      else Some next_engine_in
    else if Rgt_dec next_render_in 0 then Some next_render_in
    else None in
  match sleep_for with
  | Some s => if Rgt_dec s 0.002 then Some (s * 0.75) else None
  | None => None
  end.

End Main.

(* ================================================================= *)
(** ** ui.py: the value logic of [SliderWithBoxRow] *)

Module SliderWithBoxRow.

(** The fields the value logic reads and writes. *)
Record t : Type := mk {
  min_value : Z;
  max_value : Z;
  value : Z;
  snaps : list Z;
  snap_window : Z;
  allow_empty : bool;
  empty_value : Z
}.

(** [__init__], lines 512-521; [None] is the [OverflowError] of line
    514. *)
Definition init (min_value' max_value' value' : Z) (snaps' : list Z)
    (snap_window' : Z) (allow_empty' : bool) (empty_value' : Z)
  : option t :=
  match util.clamp_float value' min_value' max_value' with
  | None => None
  | Some v =>
      Some (mk min_value' max_value' v snaps' (Z.max 1 snap_window')
              allow_empty' empty_value')
  end.

(** [srect_x] and [srect_w] are [x] and [w] of [self._slider_rect()]. *)
Definition _value_from_mouse (self : t) (srect_x srect_w mx : Z) : Z :=
  let t := IZR (mx - srect_x) / IZR (Z.max 1 srect_w) in
  let t := util.clamp t 0 1 in
  let raw :=
    Py.round (IZR (min_value self)
              + t * IZR (max_value self - min_value self)) in
  let raw :=
    match snaps self with
    | [] => raw
    | _ :: _ => util.nearest_snap raw (snaps self) (snap_window self)
    end in
  util.clamp_int raw (min_value self) (max_value self).





End SliderWithBoxRow.

(* ================================================================= *)
(** ** render.py *)

Module RateMeter.

Record t : Type := mk {
  _window_start : R;
  _count : Z;
  value : R
}.

(** [__init__]; [now] is its clock read. *)
Definition init (now : R) : t := mk now 0 0.

(** [tick]; [now] is the clock read of line 22. *)
Definition tick (self : t) (now : R) : t :=
  let count := (_count self + 1)%Z in
  let dt := now - _window_start self in
  if Rge_dec dt 1 then mk now 0 (IZR count / dt)
  else mk (_window_start self) count (value self).

End RateMeter.

Module Render.

(** Lines 47-49 and 52 of [draw_glowing_ball], 76-79 of [draw_target]:
    the eased progress [e] of an effect timer. *)
Definition eased (elapsed duration : R) : R :=
  let t := if Rgt_dec duration 0 then elapsed / duration else 1 in
  let t := util.clamp t 0 1 in
  util.ease_out_cubic t.

(** One pass of [for rr, a0 in rings]: the circle drawn on the glow
    surface, radius and alpha, none when the alpha rounds to [0]. *)
Definition ring (strength : R) (r : Z * Z) : list (Z * Z) :=
  let a := Py.round (IZR (snd r) * strength) in
  if (a <=? 0)%Z then [] else [(fst r, a)].

(** What [draw_glowing_ball] draws. *)
Record Ball : Type := mkBall {
  ball_color : config.Color;
  ball_glow_max : Z;
  ball_rings : list (Z * Z)
}.

Definition ball_ring_table (radius : Z) : list (Z * Z) :=
  [ (Py.int (IZR radius * 6.5), 18%Z);
    (Py.int (IZR radius * 5.0), 28%Z);
    (Py.int (IZR radius * 3.8), 42%Z);
    (Py.int (IZR radius * 2.8), 60%Z);
    (Py.int (IZR radius * 2.0), 84%Z) ].

Definition draw_glowing_ball (radius : Z)
    (base_color blink_color : config.Color) (glow_elapsed : R) : Ball :=
  let e := eased glow_elapsed config.GLOW_DURATION_S in
  let ball_color := util.lerp_color blink_color base_color e in
  let glow_strength := 1 - e in
  let glow_max := (radius * 7)%Z in
  mkBall ball_color glow_max
    (flat_map (ring glow_strength) (ball_ring_table radius)).

(** What [draw_target] draws over the outline while the flash is on:
    the circles of the glow surface and the width of the hit ring. *)
Record Flash : Type := mkFlash {
  flash_glow_max : Z;
  flash_rings : list (Z * Z);
  flash_width : Z
}.

Definition target_ring_table (radius : Z) : list (Z * Z) :=
  [ (Py.int (IZR radius * 4.5), 14%Z);
    (Py.int (IZR radius * 3.5), 22%Z);
    (Py.int (IZR radius * 2.8), 34%Z);
    (Py.int (IZR radius * 2.1), 52%Z) ].

(** [None]: the outline alone is drawn. *)
Definition draw_target (radius : Z) (flash_elapsed : R) : option Flash :=
  let e := eased flash_elapsed config.TARGET_FLASH_DURATION_S in
  let flash_strength := 1 - e in
  if Rgt_dec flash_strength 0.001 then
    Some (mkFlash (radius * 5)%Z
            (flat_map (ring flash_strength) (target_ring_table radius))
            (2 + Py.round (5 * flash_strength))%Z)
  else None.

End Render.

(* ================================================================= *)
(** ** The vocabulary of the properties *)

(** The play area of an entity of radius [radius] in a [w] by [h] window:
    [margin + radius, dim - margin - radius] on both axes. *)
Definition in_bounds (p : Vector2.t) (radius w h margin : Z) : Prop :=
  (IZR (margin + radius) <= Vector2.x p <= IZR (w - margin - radius)) /\
  (IZR (margin + radius) <= Vector2.y p <= IZR (h - margin - radius)).

(** [engine_step] with the stick centred, no override and no button
    edge, once per [dt] of [dts]. *)
Definition idle_steps (w h margin : Z) (dts : list R)
    (state : EngineState.t) : EngineState.t :=
  fold_left
    (fun s dt => engine_step s dt w h margin 0 0 [] false None)
    dts state.

(** The distance between the ball and the target of a state. *)
Definition ball_target_distance (s : EngineState.t) : R :=
  sqrt (util.distance_sq
          (Vector2.x (EngineState.pos s)) (Vector2.y (EngineState.pos s))
          (Vector2.x (TargetState.pos (EngineState.target s)))
          (Vector2.y (TargetState.pos (EngineState.target s)))).

(** The largest button index of a tick's edges ([0] for no edge). *)
Definition highest_edge (edges : list Z) : Z :=
  match edges with
  | [] => 0%Z
  | b :: rest => fold_left Z.max rest b
  end.

(** The edges are in strictly increasing index order. *)
Fixpoint increasing (edges : list Z) : bool :=
  match edges with
  | a :: (b :: _) as rest => (a <? b)%Z && increasing rest
  | _ => true
  end.

(** The speed of a target is one [set_params] can have stored: within
    the configured bounds, as the default is. *)
Definition speed_configured (t : TargetState.t) : Prop :=
  (config.TARGET_SPEED_PX_S_MIN <= TargetState.speed_px_s t
   <= config.TARGET_SPEED_PX_S_MAX)%Z.

(** What the loop of [nearest_snap] holds after the snaps [seen]: still
    the value itself, none of them being within the window, or the
    first closest of those that are. *)
Definition snap_inv (value window : Z) (seen : list Z) (acc : Z * Z)
  : Prop :=
  (fst acc = value /\ snd acc = (window + 1)%Z /\
   forall s, In s seen -> (window < Z.abs (value - s))%Z) \/
  (In (fst acc) seen /\ snd acc = Z.abs (value - fst acc) /\
   (snd acc <= window)%Z /\
   forall s, In s seen -> (snd acc <= Z.abs (value - s))%Z).



(** A [w] by [h] window has room for an entity of radius [radius]: its
    play area is not empty on either axis. *)
Definition room_for (radius w h margin : Z) : Prop :=
  (margin + radius <= w - margin - radius)%Z /\
  (margin + radius <= h - margin - radius)%Z.

(** The target is as [set_params] configures it for a ball of radius
    [ball_radius]: size and speed within their bounds, the radius
    derived from the size, and the velocity of the configured speed. *)
Definition target_configured (tg : TargetState.t) (ball_radius : Z)
  : Prop :=
  (config.TARGET_SIZE_PCT_MIN <= TargetState.size_pct tg
   <= config.TARGET_SIZE_PCT_MAX)%Z /\
  speed_configured tg /\
  TargetState.radius_px tg = TargetState._compute_radius tg ball_radius /\
  Vector2.length (TargetState.vel tg) = IZR (TargetState.speed_px_s tg).

(** The states [main] can hold: the initial one, and what
    [engine_step], [clamp_state_to_bounds], [set_target_enabled] and
    [set_params] on the state's own ball radius make of one. *)
Inductive reachable : EngineState.t -> Prop :=
| reach_init rnd w h margin s :
    make_initial_state rnd w h margin = Some s -> reachable s
| reach_step s dt w h margin lx ly edges any override :
    reachable s ->
    reachable (engine_step s dt w h margin lx ly edges any override)
| reach_clamp s w h margin :
    reachable s -> reachable (clamp_state_to_bounds s w h margin)
| reach_enable s enabled rnd w h margin s' :
    reachable s ->
    set_target_enabled s enabled rnd w h margin = Some s' ->
    reachable s'
| reach_params s size_pct speed_px_s tg :
    reachable s ->
    TargetState.set_params (EngineState.target s)
      (EngineState.ball_radius s) size_pct speed_px_s = Some tg ->
    reachable (with_target s tg).

(** The ball and the controller's cursor are inside the ball's play
    area of the loop's window, which has room for the ball. *)
Definition loop_inside (L : Main.Loop) : Prop :=
  let st := Main.state L in
  let br := EngineState.ball_radius st in
  room_for br (Main.win_w L) (Main.win_h L) config.CANVAS_MARGIN /\
  in_bounds (EngineState.pos st) br (Main.win_w L) (Main.win_h L)
    config.CANVAS_MARGIN /\
  in_bounds (EngineState.prev_pos st) br (Main.win_w L) (Main.win_h L)
    config.CANVAS_MARGIN /\
  in_bounds (Main.controller_cursor L) br (Main.win_w L) (Main.win_h L)
    config.CANVAS_MARGIN.

(** The frames of [nows], the clock reads of successive frames, that
    render, starting from [last_render]. *)
Fixpoint render_times (visual_fps : Z) (last_render : R) (nows : list R)
  : list R :=
  match nows with
  | [] => []
  | now :: rest =>
      let '(do_render, last_render') :=
        Main.render_gate visual_fps now last_render in
      (if do_render then [now] else [])
      ++ render_times visual_fps last_render' rest
  end.

(** Each time of [ts] is at least [d] after the one before it, the
    first one after [prev]. *)
Fixpoint spaced (d prev : R) (ts : list R) : Prop :=
  match ts with
  | [] => True
  | t :: rest => prev + d <= t /\ spaced d t rest
  end.

(** [loop_inside], in the window [w] by [h]. *)
Definition loop_inside_window (w h : Z) (L : Main.Loop) : Prop :=
  loop_inside L /\ Main.win_w L = w /\ Main.win_h L = h.

(** The buttons the tick's device shows are those of the tick before:
    the mouse buttons in mouse mode, the buttons of the active
    controller otherwise. *)
Definition same_buttons (mouse_mode : bool) (d1 d2 : Main.Devices)
  : Prop :=
  if mouse_mode then Main.mouse_get_pressed d2 = Main.mouse_get_pressed d1
  else
    match Main.joystick d1, Main.joystick d2 with
    | Some j1, Some j2 =>
        ControllerManager.get_buttons j2 = ControllerManager.get_buttons j1
    | None, None => True
    | _, _ => False
    end.

(** The meter after [n] ticks that come every [period] seconds from its
    creation at [start]. *)
Fixpoint steady_meter (start period : R) (n : nat) : RateMeter.t :=
  match n with
  | O => RateMeter.init start
  | S n' =>
      RateMeter.tick (steady_meter start period n')
        (start + INR (S n') * period)
  end.

(** What a frame reads: the clock, the joystick as [peek_axes] finds
    it, and the devices at each of its ticks. *)
Definition FrameInput : Type :=
  (R * option ControllerManager.Joystick * (nat -> Main.Devices))%type.

(** Successive passes of [while running], one per input. *)
Fixpoint run_frames (fuel : nat) (inputs : list FrameInput)
    (L : Main.Loop) : option Main.Loop :=
  match inputs with
  | [] => Some L
  | (now, peek, devices) :: rest =>
      match Main.frame fuel now peek devices L with
      | None => None
      | Some L' => run_frames fuel rest L'
      end
  end.

(** The time the frames add to the accumulator: each frame's
    delta-time, capped. *)
Fixpoint simulated_time (last_time : R) (inputs : list FrameInput) : R :=
  match inputs with
  | [] => 0
  | (now, _, _) :: rest =>
      Rmin (now - last_time) 0.25 + simulated_time now rest
  end.

(** The clock reads of the frames never go back. *)
Fixpoint monotone_clock (last_time : R) (inputs : list FrameInput) : Prop :=
  match inputs with
  | [] => True
  | (now, _, _) :: rest => last_time <= now /\ monotone_clock now rest
  end.

(** A colour as [pygame] takes it, every channel within [0, 255], other
    than the ball's base colour. *)
Definition button_color_ok (c : config.Color) : bool :=
  let '(r, g, b) := c in
  (0 <=? r)%Z && (r <=? 255)%Z && (0 <=? g)%Z && (g <=? 255)%Z
  && (0 <=? b)%Z && (b <=? 255)%Z
  && negb ((r =? 235)%Z && (g =? 235)%Z && (b =? 235)%Z).

(** [s'] is [s] after [n] calls of [engine_step], each over the time
    step [dt] in the [w] by [h] window with the canvas margin, whatever
    the stick, the edges and the override position of each call. *)
Inductive stepped (dt : R) (w h : Z)
  : nat -> EngineState.t -> EngineState.t -> Prop :=
| stepped_O s : stepped dt w h 0 s s
| stepped_S n s s1 lx ly edges any override :
    stepped dt w h n s s1 ->
    stepped dt w h (S n) s
      (engine_step s1 dt w h config.CANVAS_MARGIN lx ly edges any
         override).

(** The loop [while accumulator >= engine_dt: ...; accumulator -=
    engine_dt] of main.py 568-622 takes the accumulator from [a] to
    [a'] in [n] turns. *)
Inductive drained (dt : R) : nat -> R -> R -> Prop :=
| drained_O a : a < dt -> drained dt 0 a a
| drained_S n a a' :
    dt <= a -> drained dt n (a - dt) a' -> drained dt (S n) a a'.

(* ================================================================= *)
(** ** Concrete inputs *)

(** The ball in the middle of the default 1280 by 720 window and the
    target as [make_initial_state] leaves them when [random.random()]
    returns 0: radius [round(14 * 1.65) = 23], velocity [(170, 0)];
    [e] is [target.enabled]. *)
Definition demo_target (e : bool) : TargetState.t :=
  TargetState.mk e (Vector2.mk 832 324) (Vector2.mk 170 0) 165 170 23
    config.TARGET_FLASH_DURATION_S.

Definition demo_state (e : bool) : EngineState.t :=
  EngineState.mk (Vector2.mk 640 360) (Vector2.mk 640 360)
    config.BALL_RADIUS config.BALL_SPEED_PX_S BallVisual.default
    (demo_target e).

(** The target one pixel short of the right wall of its play area
    ([max_tx = 1280 - 12 - 23 = 1245]), moving right at 170 px/s. *)
Definition wall_state : EngineState.t :=
  EngineState.mk (Vector2.mk 640 360) (Vector2.mk 640 360)
    config.BALL_RADIUS config.BALL_SPEED_PX_S BallVisual.default
    (TargetState.mk true (Vector2.mk 1244 324) (Vector2.mk 170 0) 165 170 23
       config.TARGET_FLASH_DURATION_S).

(** A target smaller than the ball, as [TargetState(enabled=True,
    size_pct=50, speed_px_s=60)] has it after [reset] with ball radius 14
    ([round(14 * 0.5) = 7]); one sixtieth of a second at 60 px/s brings
    its centre onto the ball's. *)
Definition small_target_state : EngineState.t :=
  EngineState.mk (Vector2.mk 640 360) (Vector2.mk 640 360)
    config.BALL_RADIUS config.BALL_SPEED_PX_S BallVisual.default
    (TargetState.mk true (Vector2.mk 639 360) (Vector2.mk 60 0) 50 60 7
       config.TARGET_FLASH_DURATION_S).

(** The target about to drift over the ball: after one sixtieth of a
    second its centre is 170/60 px from the ball's, within
    [23 - 14 = 9]. *)
Definition aimed_state : EngineState.t :=
  EngineState.mk (Vector2.mk 640 360) (Vector2.mk 640 360)
    config.BALL_RADIUS config.BALL_SPEED_PX_S BallVisual.default
    (TargetState.mk true (Vector2.mk 640 360) (Vector2.mk 170 0) 165 170 23
       0.2).

(** A loop in controller mode at [fps] engine ticks per second, with
    the accumulator at [acc] and the clock last read at 0. *)
Definition demo_loop_at (fps : Z) (acc : R) (interp : bool) : Main.Loop :=
  Main.mkLoop
    (EngineState.mk (Vector2.mk 640 360) (Vector2.mk 628 360)
       config.BALL_RADIUS config.BALL_SPEED_PX_S BallVisual.default
       (demo_target false))
    acc 0 (Vector2.mk 640 360) (false, false, false)
    (ControllerManager.mk []) 0 false fps interp true 1280 720.

Definition demo_loop (acc : R) (interp : bool) : Main.Loop :=
  demo_loop_at 60 acc interp.

(** Devices at rest at every tick: the mouse in the middle of the
    window with no button down, no joystick. *)
Definition idle_devices (k : nat) : Main.Devices :=
  Main.mkDevices (640, 360)%Z (false, false, false) None.

(** A joystick with the left stick pushed fully right and no button
    down. *)
Definition stick_right : ControllerManager.Joystick :=
  ControllerManager.mkJoystick [1; 0] [].

(* ================================================================= *)
(** ** Properties *)

(** The term holds no undecided comparison of reals. *)
Ltac no_test t :=
  lazymatch t with
  | context [Rlt_dec _ _] => fail
  | context [Rgt_dec _ _] => fail
  | context [Rle_dec _ _] => fail
  | context [Rge_dec _ _] => fail
  | context [Req_dec_T _ _] => fail
  | _ => idtac
  end.

(** One comparison of reals in the goal, innermost first: a [max] or
    [min] that [lra] settles, else a test decided both ways. *)
Ltac case_R :=
  match goal with
  | |- context [Rmax ?a ?b] =>
      first [ rewrite (Rmax_left a b) by lra
            | rewrite (Rmax_right a b) by lra ]
  | |- context [Rmin ?a ?b] =>
      first [ rewrite (Rmin_left a b) by lra
            | rewrite (Rmin_right a b) by lra ]
  | |- context [Rlt_dec ?a ?b] =>
      no_test a; no_test b; destruct (Rlt_dec a b)
  | |- context [Rgt_dec ?a ?b] =>
      no_test a; no_test b; destruct (Rgt_dec a b)
  | |- context [Rle_dec ?a ?b] =>
      no_test a; no_test b; destruct (Rle_dec a b)
  | |- context [Rge_dec ?a ?b] =>
      no_test a; no_test b; destruct (Rge_dec a b)
  | |- context [Req_dec_T ?a ?b] =>
      no_test a; no_test b; destruct (Req_dec_T a b)
  end.

(** Every comparison of reals in the goal, the impossible branches
    closed by [lra]. *)
Ltac cases_R :=
  repeat (case_R; try lra); try reflexivity; try lra.

Ltac unfold_config :=
  unfold config.CANVAS_MARGIN, config.BALL_RADIUS, config.BALL_SPEED_PX_S,
    config.GLOW_DURATION_S, config.TARGET_FLASH_DURATION_S,
    config.RELAXED_DEADZONE, config.UNRELAXED_DEADZONE in *.

(** Run a step of the model on concrete numbers. *)
Ltac eval_R :=
  unfold engine_step, reflect_axis, advance_timer, util.clamp,
    util.distance_sq, Vector2.add, Vector2.scale;
  repeat (unfold_config; cbn; case_R; try lra);
  unfold_config; cbn; try reflexivity; try lra; try (f_equal; lra).

Section Clamp.

Variables x lo hi : R.

Lemma clamp_within : lo <= hi -> lo <= util.clamp x lo hi <= hi.
Proof. intros Hb. unfold util.clamp. cases_R. Qed.

Lemma clamp_id : lo <= x <= hi -> util.clamp x lo hi = x.
Proof. intros Hx. unfold util.clamp. cases_R. Qed.

End Clamp.

Lemma engine_step_pos
    state dt w h margin lx ly edges any override :
  EngineState.pos
    (engine_step state dt w h margin lx ly edges any override) =
  let p1 :=
    match override with
    | None =>
        Vector2.mk
          (Vector2.x (EngineState.pos state)
           + (lx * EngineState.ball_speed state) * dt)
          (Vector2.y (EngineState.pos state)
           + (ly * EngineState.ball_speed state) * dt)
    | Some (ox, oy) => Vector2.mk ox oy
    end in
  let br := EngineState.ball_radius state in
  Vector2.mk
    (util.clamp (Vector2.x p1) (IZR (margin + br)) (IZR (w - margin - br)))
    (util.clamp (Vector2.y p1) (IZR (margin + br)) (IZR (h - margin - br))).
Proof. reflexivity. Qed.

Lemma engine_step_prev_pos
    state dt w h margin lx ly edges any override :
  EngineState.prev_pos
    (engine_step state dt w h margin lx ly edges any override) =
  EngineState.pos state.
Proof. reflexivity. Qed.

Lemma engine_step_ball_radius
    state dt w h margin lx ly edges any override :
  EngineState.ball_radius
    (engine_step state dt w h margin lx ly edges any override) =
  EngineState.ball_radius state.
Proof. reflexivity. Qed.

(** C2. For every [dt > 0], window, margin and input sample (axes in
    [-1, 1], any edges, with or without an override position), a step
    from a [pos] inside [margin + radius, dim - margin - radius] on both
    axes leaves [pos] inside it; [prev_pos], the old [pos], is inside it
    as well. *)
Theorem engine_step_pos_in_bounds
    state dt w h margin lx ly edges any override :
  0 < dt ->
  -1 <= lx <= 1 ->
  -1 <= ly <= 1 ->
  in_bounds (EngineState.pos state) (EngineState.ball_radius state)
    w h margin ->
  let state' := engine_step state dt w h margin lx ly edges any override in
  in_bounds (EngineState.pos state') (EngineState.ball_radius state')
    w h margin /\
  in_bounds (EngineState.prev_pos state') (EngineState.ball_radius state')
    w h margin.
Proof.
  intros _ _ _ Hin state'. subst state'.
  rewrite engine_step_ball_radius, engine_step_prev_pos, engine_step_pos.
  split; [|exact Hin].
  destruct Hin as [[Hx1 Hx2] [Hy1 Hy2]].
  split; cbn [Vector2.x Vector2.y]; apply clamp_within; lra.
Qed.

Lemma engine_step_pos_in_bounds_witness :
  let state := demo_state false in
  let state' :=
    engine_step state (1 / 120) 1280 720 12 1 (-1) [3%Z] true None in
  in_bounds (EngineState.pos state') (EngineState.ball_radius state')
    1280 720 12 /\
  in_bounds (EngineState.prev_pos state') (EngineState.ball_radius state')
    1280 720 12.
Proof.
  apply (engine_step_pos_in_bounds (demo_state false) (1 / 120) 1280 720 12
           1 (-1) [3%Z] true None); try lra.
  unfold in_bounds; simpl; lra.
Defined.

Lemma idle_step_pos state dt w h margin :
  in_bounds (EngineState.pos state) (EngineState.ball_radius state)
    w h margin ->
  EngineState.pos (engine_step state dt w h margin 0 0 [] false None) =
  EngineState.pos state.
Proof.
  intros [Hx Hy]. rewrite engine_step_pos. cbv zeta.
  destruct (EngineState.pos state) as [px py]; cbn [Vector2.x Vector2.y] in *.
  replace (px + 0 * EngineState.ball_speed state * dt) with px by ring.
  replace (py + 0 * EngineState.ball_speed state * dt) with py by ring.
  now rewrite !clamp_id.
Qed.

Lemma idle_steps_inv w h margin dts : forall state,
  in_bounds (EngineState.pos state) (EngineState.ball_radius state)
    w h margin ->
  EngineState.pos (idle_steps w h margin dts state) = EngineState.pos state /\
  EngineState.ball_radius (idle_steps w h margin dts state) =
  EngineState.ball_radius state /\
  (dts <> [] ->
   EngineState.prev_pos (idle_steps w h margin dts state) =
   EngineState.pos state).
Proof.
  induction dts as [|dt dts IH]; intros state Hin.
  - simpl. repeat split; congruence.
  - unfold idle_steps in *. cbn [fold_left].
    set (s1 := engine_step state dt w h margin 0 0 [] false None).
    assert (Hp : EngineState.pos s1 = EngineState.pos state)
      by now apply idle_step_pos.
    assert (Hin1 : in_bounds (EngineState.pos s1)
                     (EngineState.ball_radius s1) w h margin)
      by (rewrite Hp; exact Hin).
    destruct (IH s1 Hin1) as (IHp & IHr & IHq).
    repeat split.
    + now rewrite IHp.
    + now rewrite IHr.
    + intros _. destruct dts as [|dt' dts].
      * reflexivity.
      * rewrite IHq by discriminate. exact Hp.
Qed.

(** C9. From an in-bounds state, a step with the stick centred, no
    override and no button edge does not move [pos] and sets [prev_pos]
    to the [pos] from before the call, so [prev_pos = pos] afterwards;
    any number of such steps, with any time slices, leaves [pos] where
    it was, and [prev_pos] equal to it after the first. *)
Theorem engine_step_idle_is_stationary state w h margin :
  in_bounds (EngineState.pos state) (EngineState.ball_radius state)
    w h margin ->
  (forall dt,
     let state' := engine_step state dt w h margin 0 0 [] false None in
     EngineState.pos state' = EngineState.pos state /\
     EngineState.prev_pos state' = EngineState.pos state /\
     EngineState.prev_pos state' = EngineState.pos state') /\
  (forall dts,
     EngineState.pos (idle_steps w h margin dts state) =
     EngineState.pos state /\
     (dts <> [] ->
      EngineState.prev_pos (idle_steps w h margin dts state) =
      EngineState.pos (idle_steps w h margin dts state))).
Proof.
  intros Hin. split.
  - intros dt state'. subst state'.
    rewrite (idle_step_pos _ _ _ _ _ Hin). now rewrite engine_step_prev_pos.
  - intros dts. destruct (idle_steps_inv w h margin dts state Hin)
      as (Hp & _ & Hq).
    split; [exact Hp|]. intros Hne. now rewrite Hp, Hq.
Qed.

Lemma engine_step_idle_is_stationary_witness :
  EngineState.pos
    (idle_steps 1280 720 12 [1 / 60; 1 / 60; 1 / 120] (demo_state true)) =
  Vector2.mk 640 360.
Proof.
  assert (Hin : in_bounds (EngineState.pos (demo_state true))
                  (EngineState.ball_radius (demo_state true)) 1280 720 12)
    by (unfold in_bounds; simpl; lra).
  exact (proj1 (proj2 (engine_step_idle_is_stationary
                         (demo_state true) 1280 720 12 Hin)
                  [1 / 60; 1 / 60; 1 / 120])).
Defined.

(** C10. A step with the target disabled leaves the target state as it
    was, field for field: [enabled], [pos], [vel], [size_pct],
    [speed_px_s], [radius_px] and [hit_flash_elapsed], whatever [dt], the
    axes, the button edges and the override position are. *)
Theorem engine_step_disabled_target_unchanged
    state dt w h margin lx ly edges any override :
  TargetState.enabled (EngineState.target state) = false ->
  let tg := EngineState.target state in
  let tg' :=
    EngineState.target
      (engine_step state dt w h margin lx ly edges any override) in
  tg' = tg /\
  TargetState.enabled tg' = TargetState.enabled tg /\
  TargetState.pos tg' = TargetState.pos tg /\
  TargetState.vel tg' = TargetState.vel tg /\
  TargetState.size_pct tg' = TargetState.size_pct tg /\
  TargetState.speed_px_s tg' = TargetState.speed_px_s tg /\
  TargetState.radius_px tg' = TargetState.radius_px tg /\
  TargetState.hit_flash_elapsed tg' = TargetState.hit_flash_elapsed tg.
Proof.
  intros Hoff tg tg'.
  assert (E : tg' = tg).
  { subst tg tg'. unfold engine_step. cbn [EngineState.target].
    now rewrite Hoff. }
  rewrite E. repeat split.
Qed.

Lemma engine_step_disabled_target_unchanged_witness :
  EngineState.target
    (engine_step (demo_state false) (1 / 120) 1280 720 12 1 0 [0%Z] true
       (Some (5, 700))) =
  demo_target false.
Proof.
  exact (proj1 (engine_step_disabled_target_unchanged (demo_state false)
                  (1 / 120) 1280 720 12 1 0 [0%Z] true (Some (5, 700))
                  eq_refl)).
Defined.

(** The target after a step with the target enabled: where the advance
    by [vel * dt] put it, each axis reflected on its own. *)
Lemma engine_step_target_motion
    state dt w h margin lx ly edges any override :
  TargetState.enabled (EngineState.target state) = true ->
  let tg := EngineState.target state in
  let tg' :=
    EngineState.target
      (engine_step state dt w h margin lx ly edges any override) in
  let moved :=
    Vector2.add (TargetState.pos tg) (Vector2.scale (TargetState.vel tg) dt) in
  let tr := TargetState.radius_px tg in
  let rx :=
    reflect_axis (Vector2.x moved) (Vector2.x (TargetState.vel tg))
      (IZR (margin + tr)) (IZR (w - margin - tr)) in
  let ry :=
    reflect_axis (Vector2.y moved) (Vector2.y (TargetState.vel tg))
      (IZR (margin + tr)) (IZR (h - margin - tr)) in
  TargetState.pos tg' = Vector2.mk (fst rx) (fst ry) /\
  TargetState.vel tg' = Vector2.mk (snd rx) (snd ry) /\
  TargetState.enabled tg' = true /\
  TargetState.radius_px tg' = tr.
Proof.
  intros Hon. cbv zeta. unfold engine_step. cbn [EngineState.target].
  rewrite Hon.
  destruct (reflect_axis (Vector2.x _) _ _ _) as [tx tvx].
  destruct (reflect_axis (Vector2.y _) _ _ _) as [ty tvy].
  cbn. repeat split.
Qed.

Section ReflectAxis.

Variables p v lo hi : R.

Lemma reflect_axis_low :
  p < lo -> reflect_axis p v lo hi = (lo, Rabs v).
Proof. intros H. unfold reflect_axis. cases_R. Qed.

Lemma reflect_axis_high :
  lo <= hi -> hi < p -> reflect_axis p v lo hi = (hi, - Rabs v).
Proof. intros Hb H. unfold reflect_axis. cases_R. Qed.

Lemma reflect_axis_inside :
  lo <= p <= hi -> reflect_axis p v lo hi = (p, v).
Proof. intros H. unfold reflect_axis. cases_R. Qed.

Lemma reflect_axis_speed :
  Rabs (snd (reflect_axis p v lo hi)) = Rabs v.
Proof.
  unfold reflect_axis.
  destruct (Rlt_dec p lo); [|destruct (Rgt_dec p hi)]; cbn [snd].
  - apply Rabs_Rabsolu.
  - now rewrite Rabs_Ropp, Rabs_Rabsolu.
  - reflexivity.
Qed.

End ReflectAxis.

(** C6, amended. With the target enabled and a window that has room for
    it ([min_tx <= max_tx], [min_ty <= max_ty]), after the target advanced
    by [vel * dt]: beyond [max_tx] it is put exactly on [max_tx] with
    x-velocity [-|vx|]; below [min_tx] exactly on [min_tx] with
    x-velocity [+|vx|]; likewise on the y axis at [max_ty] and [min_ty].
    The two axes are treated separately, the reflected component points
    back inward, and the magnitude of each component is unchanged. *)
Theorem target_reflects_at_walls
    state dt w h margin lx ly edges any override :
  TargetState.enabled (EngineState.target state) = true ->
  let tg := EngineState.target state in
  let tr := TargetState.radius_px tg in
  let min_tx := IZR (margin + tr) in
  let max_tx := IZR (w - margin - tr) in
  let min_ty := IZR (margin + tr) in
  let max_ty := IZR (h - margin - tr) in
  min_tx <= max_tx ->
  min_ty <= max_ty ->
  let vx := Vector2.x (TargetState.vel tg) in
  let vy := Vector2.y (TargetState.vel tg) in
  let moved :=
    Vector2.add (TargetState.pos tg) (Vector2.scale (TargetState.vel tg) dt) in
  let tg' :=
    EngineState.target
      (engine_step state dt w h margin lx ly edges any override) in
  let x' := Vector2.x (TargetState.pos tg') in
  let y' := Vector2.y (TargetState.pos tg') in
  let vx' := Vector2.x (TargetState.vel tg') in
  let vy' := Vector2.y (TargetState.vel tg') in
  (max_tx < Vector2.x moved -> x' = max_tx /\ vx' = - Rabs vx /\ vx' <= 0) /\
  (Vector2.x moved < min_tx -> x' = min_tx /\ vx' = Rabs vx /\ 0 <= vx') /\
  (min_tx <= Vector2.x moved <= max_tx -> x' = Vector2.x moved /\ vx' = vx) /\
  (max_ty < Vector2.y moved -> y' = max_ty /\ vy' = - Rabs vy /\ vy' <= 0) /\
  (Vector2.y moved < min_ty -> y' = min_ty /\ vy' = Rabs vy /\ 0 <= vy') /\
  (min_ty <= Vector2.y moved <= max_ty -> y' = Vector2.y moved /\ vy' = vy) /\
  Rabs vx' = Rabs vx /\
  Rabs vy' = Rabs vy.
Proof.
  intros Hon tg tr min_tx max_tx min_ty max_ty Hbx Hby vx vy moved tg' x' y'
    vx' vy'.
  destruct (engine_step_target_motion state dt w h margin lx ly edges any
              override Hon) as (Hp & Hv & _ & _).
  subst x' y' vx' vy' tg'. rewrite Hp, Hv. clear Hp Hv.
  cbn [Vector2.x Vector2.y].
  pose proof (Rabs_pos vx) as Hax. pose proof (Rabs_pos vy) as Hay.
  subst tg tr min_tx max_tx min_ty max_ty vx vy moved.
  repeat apply conj; try apply reflect_axis_speed; intros Hc.
  - rewrite reflect_axis_high by assumption. cbn [fst snd]. lra.
  - rewrite reflect_axis_low by assumption. cbn [fst snd]. lra.
  - rewrite reflect_axis_inside by assumption. cbn [fst snd]. lra.
  - rewrite reflect_axis_high by assumption. cbn [fst snd]. lra.
  - rewrite reflect_axis_low by assumption. cbn [fst snd]. lra.
  - rewrite reflect_axis_inside by assumption. cbn [fst snd]. lra.
Qed.

Lemma target_reflects_at_walls_witness :
  let tg' :=
    EngineState.target
      (engine_step wall_state (1 / 60) 1280 720 12 0 0 [] false None) in
  Vector2.x (TargetState.pos tg') = 1245 /\
  Vector2.x (TargetState.vel tg') = - Rabs 170 /\
  Vector2.x (TargetState.vel tg') <= 0.
Proof.
  refine (proj1 (target_reflects_at_walls wall_state (1 / 60) 1280 720 12
                   0 0 [] false None eq_refl _ _) _); cbn; lra.
Defined.

(** C6 as stated fails in a window too narrow for the target, where
    the two walls are crossed. A resize of the default window to 60 px
    wide leaves the target of radius 23 with [min_tx = 35] and
    [max_tx = 25], and puts it on [max_tx]; moving right at 170 px/s it
    is beyond [max_tx] after one sixtieth of a second, yet it is put on
    [min_tx], not on [max_tx], and its x-velocity is [+|vx|], not
    [-|vx|]: the test against [min_tx] comes first. *)
Lemma target_reflects_at_walls_counterexample :
  let state := clamp_state_to_bounds (demo_state true) 60 720 12 in
  let tg := EngineState.target state in
  let tr := TargetState.radius_px tg in
  let min_tx := IZR (12 + tr) in
  let max_tx := IZR (60 - 12 - tr) in
  let vx := Vector2.x (TargetState.vel tg) in
  let moved :=
    Vector2.add (TargetState.pos tg)
      (Vector2.scale (TargetState.vel tg) (1 / 60)) in
  let tg' :=
    EngineState.target
      (engine_step state (1 / 60) 60 720 12 0 0 [] false None) in
  TargetState.enabled tg = true /\
  min_tx = 35 /\ max_tx = 25 /\
  Vector2.x (TargetState.pos tg) = 25 /\ vx = 170 /\
  max_tx < Vector2.x moved /\
  Vector2.x (TargetState.pos tg') = min_tx /\
  Vector2.x (TargetState.vel tg') = Rabs vx /\
  ~ (Vector2.x (TargetState.pos tg') = max_tx /\
     Vector2.x (TargetState.vel tg') = - Rabs vx).
Proof.
  intros state tg tr min_tx max_tx vx moved tg'.
  assert (Hx : Vector2.x (TargetState.pos tg) = 25).
  { unfold tg, state, clamp_state_to_bounds. cbn. unfold util.clamp.
    cases_R. }
  assert (Hmin : min_tx = 35) by (unfold min_tx, tr, tg, state; cbn; lra).
  assert (Hmax : max_tx = 25) by (unfold max_tx, tr, tg, state; cbn; lra).
  assert (Hvx : vx = 170) by reflexivity.
  assert (Hmoved : Vector2.x moved = 25 + 170 * (1 / 60)).
  { unfold moved. cbn [Vector2.add Vector2.scale Vector2.x].
    fold vx. rewrite Hx, Hvx. reflexivity. }
  assert (Hon : TargetState.enabled (EngineState.target state) = true)
    by reflexivity.
  destruct (engine_step_target_motion state (1 / 60) 60 720 12 0 0 []
              false None Hon) as (Hp & Hv & _ & _).
  cbv zeta in Hp, Hv.
  assert (Hlow : Vector2.x moved < min_tx) by (rewrite Hmoved, Hmin; lra).
  pose proof (reflect_axis_low (Vector2.x moved) vx min_tx max_tx Hlow) as E.
  unfold moved, vx, min_tx, max_tx, tr, tg in E.
  rewrite E in Hp, Hv. cbn [fst snd] in Hp, Hv.
  assert (Hpx : Vector2.x (TargetState.pos tg') = min_tx)
    by (unfold tg'; now rewrite Hp).
  assert (Hvx' : Vector2.x (TargetState.vel tg') = Rabs vx)
    by (unfold tg'; now rewrite Hv).
  split; [exact Hon|]. split; [exact Hmin|]. split; [exact Hmax|].
  split; [exact Hx|]. split; [exact Hvx|].
  split; [rewrite Hmoved, Hmax; lra|].
  split; [exact Hpx|]. split; [exact Hvx'|].
  intros [Hbad _]. rewrite Hpx, Hmin, Hmax in Hbad. lra.
Qed.

Lemma sqrt_le_iff_sq (a r : R) :
  0 <= a -> 0 <= r -> (sqrt a <= r <-> a <= r * r).
Proof.
  intros Ha Hr. split; intros H.
  - pose proof (sqrt_pos a) as Hs. pose proof (sqrt_sqrt a Ha) as E. nra.
  - rewrite <- (sqrt_square r Hr). now apply sqrt_le_1_alt.
Qed.

Lemma distance_sq_nonneg x0 y0 x1 y1 : 0 <= util.distance_sq x0 y0 x1 y1.
Proof.
  unfold util.distance_sq. cbv zeta.
  pose proof (Rle_0_sqr (x1 - x0)) as Hx.
  pose proof (Rle_0_sqr (y1 - y0)) as Hy.
  unfold Rsqr in Hx, Hy. lra.
Qed.

(** The flash timer after a step with the target enabled and a button
    edge in the tick. *)
Lemma engine_step_flash_on_edge
    state dt w h margin lx ly edges override :
  TargetState.enabled (EngineState.target state) = true ->
  let state' := engine_step state dt w h margin lx ly edges true override in
  let inner :=
    Rmax 0 (IZR (TargetState.radius_px (EngineState.target state)
                 - EngineState.ball_radius state)) in
  TargetState.hit_flash_elapsed (EngineState.target state') =
  if Rle_dec
       (util.distance_sq
          (Vector2.x (EngineState.pos state'))
          (Vector2.y (EngineState.pos state'))
          (Vector2.x (TargetState.pos (EngineState.target state')))
          (Vector2.y (TargetState.pos (EngineState.target state'))))
       (inner * inner)
  then 0
  else advance_timer
         (TargetState.hit_flash_elapsed (EngineState.target state))
         config.TARGET_FLASH_DURATION_S dt.
Proof.
  intros Hon. cbv zeta. unfold engine_step.
  cbn [EngineState.target EngineState.pos]. rewrite Hon.
  destruct (reflect_axis (Vector2.x _) _ _ _) as [tx tvx].
  destruct (reflect_axis (Vector2.y _) _ _ _) as [ty tvy].
  reflexivity.
Qed.

(** C3, amended. With the target enabled and a button edge in the tick,
    [hit_flash_elapsed] is reset to 0 if and only if the distance [d]
    between [pos] and [target.pos], both as the tick leaves them, is at
    most [max(0, target.radius - entity.radius)], boundary included; for
    a larger [d] there is no reset: the timer only advances. When the
    target is at least as large as the ball the bound is
    [target.radius - entity.radius]. *)
Theorem hit_detection_within_inner_radius
    state dt w h margin lx ly edges override :
  TargetState.enabled (EngineState.target state) = true ->
  let state' := engine_step state dt w h margin lx ly edges true override in
  let d := ball_target_distance state' in
  let tr := TargetState.radius_px (EngineState.target state) in
  let br := EngineState.ball_radius state in
  let reach := Rmax 0 (IZR (tr - br)) in
  (d <= reach ->
   TargetState.hit_flash_elapsed (EngineState.target state') = 0) /\
  (reach < d ->
   TargetState.hit_flash_elapsed (EngineState.target state') =
   advance_timer (TargetState.hit_flash_elapsed (EngineState.target state))
     config.TARGET_FLASH_DURATION_S dt) /\
  ((br <= tr)%Z -> reach = IZR tr - IZR br).
Proof.
  intros Hon state' d tr br reach.
  pose proof (engine_step_flash_on_edge state dt w h margin lx ly edges
                override Hon) as E.
  cbv zeta in E. fold state' tr br reach in E.
  assert (Hreach : 0 <= reach) by apply Rmax_l.
  pose proof (sqrt_le_iff_sq _ reach
                (distance_sq_nonneg
                   (Vector2.x (EngineState.pos state'))
                   (Vector2.y (EngineState.pos state'))
                   (Vector2.x (TargetState.pos (EngineState.target state')))
                   (Vector2.y (TargetState.pos (EngineState.target state'))))
                Hreach) as Hiff.
  fold (ball_target_distance state') in Hiff. fold d in Hiff.
  repeat apply conj.
  - intros Hd. rewrite E. destruct (Rle_dec _ _) as [|Hn]; [reflexivity|].
    now apply Hiff in Hd.
  - intros Hd. rewrite E. destruct (Rle_dec _ _) as [Hle|]; [|reflexivity].
    apply Hiff in Hle. lra.
  - intros Hle. subst reach. rewrite Rmax_right.
    + apply minus_IZR.
    + apply IZR_le. lia.
Qed.

Lemma hit_detection_within_inner_radius_witness :
  TargetState.hit_flash_elapsed
    (EngineState.target
       (engine_step aimed_state (1 / 60) 1280 720 12 0 0 [0%Z] true None)) = 0.
Proof.
  refine (proj1 (hit_detection_within_inner_radius aimed_state (1 / 60)
                   1280 720 12 0 0 [0%Z] None eq_refl) _).
  apply sqrt_le_iff_sq.
  - apply distance_sq_nonneg.
  - apply Rmax_l.
  - eval_R.
Defined.

(** C3 as stated fails for a target smaller than the ball: with radii 7
    and 14 and the two centres on each other, [d = 0] is above
    [target.radius - entity.radius = -7], and the flash is reset all the
    same. *)
Lemma hit_detection_counterexample :
  let state := small_target_state in
  let state' := engine_step state (1 / 60) 1280 720 12 0 0 [0%Z] true None in
  let tr := TargetState.radius_px (EngineState.target state) in
  let br := EngineState.ball_radius state in
  ball_target_distance state' = 0 /\
  IZR tr - IZR br = -7 /\
  TargetState.hit_flash_elapsed (EngineState.target state) = 0.35 /\
  TargetState.hit_flash_elapsed (EngineState.target state') = 0 /\
  ~ (TargetState.hit_flash_elapsed (EngineState.target state') = 0 <->
     ball_target_distance state' <= IZR tr - IZR br).
Proof.
  intros state state' tr br.
  assert (Hd : ball_target_distance state' = 0).
  { unfold ball_target_distance. rewrite <- sqrt_0. f_equal.
    unfold state', state. eval_R. }
  assert (Hf : TargetState.hit_flash_elapsed (EngineState.target state') = 0).
  { unfold state', state. eval_R. }
  repeat apply conj; try assumption.
  - unfold tr, br, state. cbn. unfold_config. lra.
  - reflexivity.
  - intros [Himp _]. specialize (Himp Hf). rewrite Hd in Himp.
    unfold tr, br, state in Himp. cbn in Himp. unfold_config. lra.
Qed.

Lemma engine_step_visual
    state dt w h margin lx ly edges any override :
  EngineState.visual
    (engine_step state dt w h margin lx ly edges any override) =
  fold_left apply_edge edges
    (BallVisual.mk
       (BallVisual.active_blink_color (EngineState.visual state))
       (advance_timer (BallVisual.glow_elapsed (EngineState.visual state))
          config.GLOW_DURATION_S dt)).
Proof. reflexivity. Qed.

Lemma last_cons_nonempty (b d : Z) (rest : list Z) :
  rest <> [] -> last (b :: rest) d = last rest d.
Proof. destruct rest; [congruence|reflexivity]. Qed.

Lemma fold_apply_edge_last (edges : list Z) : forall v,
  edges <> [] ->
  fold_left apply_edge edges v =
  BallVisual.mk (config.get_button_color (last edges 0%Z)) 0.
Proof.
  induction edges as [|b rest IH]; intros v Hne; [congruence|].
  cbn [fold_left]. destruct rest as [|c rest'].
  - reflexivity.
  - rewrite IH by discriminate. now rewrite (last_cons_nonempty b) by discriminate.
Qed.

Lemma increasing_highest_is_last (rest : list Z) : forall b,
  increasing (b :: rest) = true ->
  fold_left Z.max rest b = last (b :: rest) 0%Z.
Proof.
  induction rest as [|c rest IH]; intros b Hinc; [reflexivity|].
  cbn [increasing] in Hinc. apply andb_prop in Hinc as [Hlt Hinc].
  apply Z.ltb_lt in Hlt.
  cbn [fold_left]. rewrite Z.max_r by lia.
  rewrite (IH c Hinc). now rewrite (last_cons_nonempty b) by discriminate.
Qed.

Lemma increasing_cons (a : Z) (l : list Z) :
  Forall (fun e => (a < e)%Z) l -> increasing l = true ->
  increasing (a :: l) = true.
Proof.
  intros Hall Hinc. destruct l as [|b l]; [reflexivity|].
  cbn [increasing]. apply andb_true_intro. split; [|exact Hinc].
  apply Z.ltb_lt. now inversion Hall.
Qed.

(** [ControllerManager.sample] collects its edges by increasing button
    index. *)
Lemma edges_from_increasing (cur : list bool) : forall prev i,
  increasing (ControllerManager.edges_from i cur prev) = true /\
  Forall (fun e => (i <= e)%Z) (ControllerManager.edges_from i cur prev).
Proof.
  induction cur as [|c cs IH]; intros prev i; [now split|].
  destruct prev as [|p ps]; [now split|].
  cbn [ControllerManager.edges_from].
  destruct (IH ps (i + 1)%Z) as [Hinc Hall].
  assert (Hlt : Forall (fun e => (i < e)%Z)
                  (ControllerManager.edges_from (i + 1) cs ps)).
  { eapply Forall_impl; [|exact Hall]. cbv beta. intros; lia. }
  destruct (c && negb p); cbn [app].
  - split; [now apply increasing_cons|].
    constructor; [lia|]. eapply Forall_impl; [|exact Hlt]. cbv beta.
    intros; lia.
  - split; [exact Hinc|]. eapply Forall_impl; [|exact Hlt]. cbv beta.
    intros; lia.
Qed.

Lemma sample_edges_increasing self active deadzone :
  increasing
    (ControllerSample.button_down_edges
       (fst (ControllerManager.sample self active deadzone))) = true.
Proof.
  unfold ControllerManager.sample. destruct active as [j|]; [|reflexivity].
  destruct (ControllerManager._read_axes _ _) as [lx ly].
  set (prev := if Nat.eqb _ _ then _ else _).
  pose proof (proj1 (edges_from_increasing
                       (ControllerManager.get_buttons j) prev 0)) as Hinc.
  destruct (ControllerManager.edges_from 0 _ prev); [reflexivity|exact Hinc].
Qed.

(** C4, amended. In every call with at least one button edge, the edges
    are applied in the order of the tuple, a later one overriding an
    earlier one: after the call [glow_elapsed = 0] and
    [active_blink_color] is the mapped colour of the last edge of the
    tuple. That is the highest-index edge whenever the tuple is in
    increasing index order, which is how [ControllerManager.sample]
    builds it. *)
Theorem last_edge_wins
    state dt w h margin lx ly edges any override :
  edges <> [] ->
  let visual' :=
    EngineState.visual
      (engine_step state dt w h margin lx ly edges any override) in
  BallVisual.glow_elapsed visual' = 0 /\
  BallVisual.active_blink_color visual' =
  config.get_button_color (last edges 0%Z) /\
  (increasing edges = true ->
   BallVisual.active_blink_color visual' =
   config.get_button_color (highest_edge edges)) /\
  (forall self active deadzone,
     increasing
       (ControllerSample.button_down_edges
          (fst (ControllerManager.sample self active deadzone))) = true).
Proof.
  intros Hne visual'. subst visual'.
  rewrite engine_step_visual, fold_apply_edge_last by exact Hne.
  cbn [BallVisual.glow_elapsed BallVisual.active_blink_color].
  repeat apply conj; try reflexivity.
  - intros Hinc. destruct edges as [|b rest]; [congruence|].
    cbn [highest_edge]. now rewrite (increasing_highest_is_last rest b Hinc).
  - apply sample_edges_increasing.
Qed.

Lemma last_edge_wins_witness :
  let visual' :=
    EngineState.visual
      (engine_step (demo_state false) (1 / 120) 1280 720 12 0 0
         [0; 3; 5]%Z true None) in
  BallVisual.glow_elapsed visual' = 0 /\
  BallVisual.active_blink_color visual' = (90, 255, 255)%Z.
Proof.
  assert (Hne : [0; 3; 5]%Z <> []) by discriminate.
  pose proof (last_edge_wins (demo_state false) (1 / 120) 1280 720 12 0 0
                [0; 3; 5]%Z true None Hne) as H.
  exact (conj (proj1 H) (proj1 (proj2 H))).
Defined.

(** C4 as stated fails in mouse mode: with the middle and the right
    button pressed in the same tick the loop appends button 2 before
    button 1, and the colour of button 1 survives, not that of the
    highest index. *)
Lemma last_edge_wins_counterexample :
  let edges := Main.mouse_edges (false, true, true) (false, false, false) in
  let visual' :=
    EngineState.visual
      (engine_step (demo_state false) (1 / 120) 1280 720 12 0 0 edges true
         (Some (640, 360))) in
  edges = [2; 1]%Z /\
  highest_edge edges = 2%Z /\
  config.get_button_color (highest_edge edges) = (255, 110, 255)%Z /\
  BallVisual.active_blink_color visual' = (255, 90, 90)%Z /\
  BallVisual.active_blink_color visual' <>
  config.get_button_color (highest_edge edges).
Proof.
  intros edges visual'.
  assert (He : edges = [2; 1]%Z) by reflexivity.
  assert (Hc : BallVisual.active_blink_color visual' = (255, 90, 90)%Z).
  { unfold visual'. rewrite engine_step_visual, He. reflexivity. }
  repeat apply conj; try assumption; try (rewrite He; reflexivity).
  rewrite Hc, He. discriminate.
Qed.

Lemma vector2_lerp_in_range (v u : Vector2.t) (a : R) :
  0 <= a <= 1 ->
  Vector2.lerp v u a =
  Some (Vector2.mk (util.lerp (Vector2.x v) (Vector2.x u) a)
          (util.lerp (Vector2.y v) (Vector2.y u) a)).
Proof.
  intros Ha. unfold Vector2.lerp, util.lerp.
  destruct (Rlt_dec a 0); [lra|]. destruct (Rgt_dec a 1); [lra|].
  do 2 f_equal; ring.
Qed.

(** C5. With interpolation enabled and [engine_dt > 0] the render
    position is [lerp(prev_pos, pos, alpha)] for
    [alpha = clamp(accumulator / engine_dt, 0, 1)]: exactly [prev_pos]
    at [alpha = 0] and exactly [pos] at [alpha = 1]. With interpolation
    disabled it is [pos], whatever the accumulator holds. *)
Theorem render_pos_interpolates (L : Main.Loop) (engine_dt : R) :
  let prev := EngineState.prev_pos (Main.state L) in
  let cur := EngineState.pos (Main.state L) in
  let alpha := util.clamp (Main.accumulator L / engine_dt) 0 1 in
  (Main.interp_enabled L = true -> 0 < engine_dt ->
   Main.render_pos L engine_dt =
   Some (Vector2.mk (util.lerp (Vector2.x prev) (Vector2.x cur) alpha)
           (util.lerp (Vector2.y prev) (Vector2.y cur) alpha)) /\
   (alpha = 0 -> Main.render_pos L engine_dt = Some prev) /\
   (alpha = 1 -> Main.render_pos L engine_dt = Some cur)) /\
  (Main.interp_enabled L = false ->
   Main.render_pos L engine_dt = Some cur).
Proof.
  intros prev cur alpha. split.
  - intros Hon Hdt.
    assert (Ha : 0 <= alpha <= 1) by (apply clamp_within; lra).
    assert (E : Main.render_pos L engine_dt = Vector2.lerp prev cur alpha).
    { unfold Main.render_pos, Py.float_gt. rewrite Hon.
      destruct (Rgt_dec engine_dt 0); [reflexivity|lra]. }
    rewrite E, (vector2_lerp_in_range prev cur alpha Ha).
    unfold util.lerp. repeat apply conj.
    + reflexivity.
    + intros ->. destruct prev as [px py]. cbn. do 2 f_equal; ring.
    + intros ->. destruct cur as [px py]. cbn. do 2 f_equal; ring.
  - intros Hoff. unfold Main.render_pos. now rewrite Hoff.
Qed.

Lemma render_pos_interpolates_witness :
  Main.render_pos (demo_loop (1 / 240) true) (1 / 60) =
    Some (Vector2.mk 631 360) /\
  Main.render_pos (demo_loop 0 true) (1 / 60) = Some (Vector2.mk 628 360) /\
  Main.render_pos (demo_loop (1 / 240) false) (1 / 60) =
    Some (Vector2.mk 640 360).
Proof.
  pose proof (render_pos_interpolates (demo_loop (1 / 240) true) (1 / 60))
    as [Hmid _].
  pose proof (render_pos_interpolates (demo_loop 0 true) (1 / 60))
    as [Hzero _].
  pose proof (render_pos_interpolates (demo_loop (1 / 240) false) (1 / 60))
    as [_ Hoff].
  assert (Hdt : 0 < 1 / 60) by lra.
  destruct (Hmid eq_refl Hdt) as [Hm _].
  destruct (Hzero eq_refl Hdt) as (_ & Hz & _).
  repeat apply conj.
  - rewrite Hm. cbn. unfold util.lerp, util.clamp.
    cases_R; do 2 f_equal; lra.
  - apply Hz. cbn. unfold util.clamp. cases_R.
  - exact (Hoff eq_refl).
Defined.

(* ----------------------------------------------------------------- *)
(** *** The drain loop *)

Lemma engine_dt_of_pos (engine_fps : Z) : 0 < Main.engine_dt_of engine_fps.
Proof.
  unfold Main.engine_dt_of.
  assert (H : 1 <= IZR (Z.max 1 engine_fps)) by (apply IZR_le; lia).
  apply Rdiv_lt_0_compat; lra.
Qed.

Lemma engine_dt_of_rate (r : Z) :
  (1 <= r)%Z -> Main.engine_dt_of r = 1 / IZR r.
Proof. intros Hr. unfold Main.engine_dt_of. now rewrite Z.max_r. Qed.

(** What one pass of the loop body changes of the loop's variables. *)
Lemma tick_frame d engine_dt L :
  let L' := Main.tick d engine_dt L in
  Main.accumulator L' = Main.accumulator L - engine_dt /\
  Main.engine_ticks L' = S (Main.engine_ticks L) /\
  Main.controller_cursor L' = Main.controller_cursor L /\
  Main.last_time L' = Main.last_time L /\
  Main.engine_fps L' = Main.engine_fps L /\
  Main.mouse_mode L' = Main.mouse_mode L.
Proof.
  unfold Main.tick. destruct (Main.mouse_mode L) eqn:Hm.
  - destruct (Main.mouse_get_pos d) as [mx my]. cbn. repeat split.
  - destruct (ControllerManager.sample _ _ _) as [sample ctrl']. cbn.
    repeat split.
Qed.

(** The state a tick leaves is a step of the state it found, in the same
    window. *)
Lemma tick_state d engine_dt L :
  exists lx ly edges any override,
    Main.state (Main.tick d engine_dt L) =
    engine_step (Main.state L) engine_dt (Main.win_w L) (Main.win_h L)
      config.CANVAS_MARGIN lx ly edges any override /\
    Main.win_w (Main.tick d engine_dt L) = Main.win_w L /\
    Main.win_h (Main.tick d engine_dt L) = Main.win_h L.
Proof.
  unfold Main.tick. destruct (Main.mouse_mode L).
  - destruct (Main.mouse_get_pos d) as [mx my]. cbn. now eauto 10.
  - destruct (ControllerManager.sample _ _ _) as [sample ctrl']. cbn.
    now eauto 10.
Qed.

(** What the loop has done when it stops. *)
Lemma drain_spec devices engine_dt : forall fuel k L L',
  0 < engine_dt ->
  Main.drain fuel devices k engine_dt L = Some L' ->
  exists n : nat,
    Main.engine_ticks L' = (Main.engine_ticks L + n)%nat /\
    Main.accumulator L = Main.accumulator L' + INR n * engine_dt /\
    Main.accumulator L' < engine_dt /\
    (0 <= Main.accumulator L -> 0 <= Main.accumulator L') /\
    Main.controller_cursor L' = Main.controller_cursor L /\
    Main.last_time L' = Main.last_time L /\
    Main.engine_fps L' = Main.engine_fps L.
Proof.
  induction fuel as [|fuel IH]; intros k L L' Hdt Hrun; cbn [Main.drain] in Hrun.
  - destruct (Rge_dec _ _) as [Hge|Hlt]; [discriminate|].
    injection Hrun as <-. exists 0%nat. cbn [INR].
    rewrite Nat.add_0_r. repeat split; lra.
  - destruct (Rge_dec _ _) as [Hge|Hlt].
    + destruct (tick_frame (devices k) engine_dt L)
        as (Ha & Ht & Hc & Hl & Hf & _).
      destruct (IH _ _ _ Hdt Hrun) as (n & Hn & Hacc & Hlt & Hpos & Hcur & Hlast & Hfps).
      exists (S n). rewrite S_INR.
      rewrite Hn, Ht, Hcur, Hc, Hlast, Hl, Hfps, Hf.
      rewrite Hacc in Ha. repeat split; try lia; try lra.
    + injection Hrun as <-. exists 0%nat. cbn [INR].
      rewrite Nat.add_0_r. repeat split; lra.
Qed.

(** The loop stops: [fuel] ticks are enough once [fuel * engine_dt]
    exceeds the accumulator. *)
Lemma drain_terminates devices engine_dt : forall fuel k L,
  0 < engine_dt ->
  Main.accumulator L < INR fuel * engine_dt ->
  exists L', Main.drain fuel devices k engine_dt L = Some L'.
Proof.
  induction fuel as [|fuel IH]; intros k L Hdt Hacc; cbn [Main.drain].
  - cbn [INR] in Hacc. destruct (Rge_dec _ _); [lra|]. now exists L.
  - destruct (Rge_dec _ _) as [Hge|Hlt]; [|now exists L].
    apply IH; [exact Hdt|].
    destruct (tick_frame (devices k) engine_dt L) as (Ha & _).
    rewrite Ha. rewrite S_INR in Hacc. lra.
Qed.

Lemma drain_more_fuel devices engine_dt : forall fuel k L L' extra,
  Main.drain fuel devices k engine_dt L = Some L' ->
  Main.drain (fuel + extra) devices k engine_dt L = Some L'.
Proof.
  induction fuel as [|fuel IH]; intros k L L' extra Hrun;
    cbn [Main.drain] in Hrun.
  - destruct (Rge_dec (Main.accumulator L) engine_dt) as [Hge|Hlt];
      [discriminate|].
    destruct extra; cbn [Nat.add Main.drain];
      destruct (Rge_dec _ _); try lra; exact Hrun.
  - cbn [Nat.add Main.drain].
    destruct (Rge_dec _ _) as [Hge|Hlt]; [|exact Hrun].
    now apply IH.
Qed.

Lemma fuel_for (acc engine_dt : R) :
  0 < engine_dt -> exists fuel : nat, acc < INR fuel * engine_dt.
Proof.
  intros Hdt. destruct (INR_unbounded (acc / engine_dt)) as [n Hn].
  exists n. apply Rgt_lt in Hn.
  apply (Rmult_lt_compat_r engine_dt) in Hn; [|exact Hdt].
  unfold Rdiv in Hn. rewrite Rmult_assoc, Rinv_l, Rmult_1_r in Hn; lra.
Qed.

(** The number of ticks of a drain that starts from a non-negative
    accumulator. *)
Lemma tick_count (acc acc' engine_dt : R) (n : nat) :
  0 < engine_dt ->
  0 <= acc' < engine_dt ->
  acc = acc' + INR n * engine_dt ->
  Z.of_nat n = Zfloor (acc / engine_dt).
Proof.
  intros Hdt Hacc' E. symmetry. apply Zfloor_eq.
  rewrite <- INR_IZR_INZ.
  assert (Hq : acc / engine_dt = acc' / engine_dt + INR n)
    by (rewrite E; field; lra).
  rewrite Hq.
  assert (H0 : 0 <= acc' / engine_dt)
    by (apply Rmult_le_pos; [lra|]; left; now apply Rinv_0_lt_compat).
  assert (H1 : acc' / engine_dt < 1).
  { apply (Rmult_lt_reg_r engine_dt); [exact Hdt|].
    unfold Rdiv. rewrite Rmult_assoc, Rinv_l, Rmult_1_r; lra. }
  lra.
Qed.

(** One frame runs to its end, and this is what it leaves. *)
Lemma frame_spec now peek devices L :
  let engine_dt := Main.engine_dt_of (Main.engine_fps L) in
  let frame_dt := Rmin (now - Main.last_time L) 0.25 in
  let axes := ControllerManager.peek_axes peek (Main.current_deadzone L) in
  exists (fuel : nat) (L' : Main.Loop) (n : nat),
    (forall extra,
       Main.frame (fuel + extra) now peek devices L = Some L') /\
    Main.engine_ticks L' = (Main.engine_ticks L + n)%nat /\
    Main.accumulator L + frame_dt =
    Main.accumulator L' + INR n * engine_dt /\
    Main.accumulator L' < engine_dt /\
    (0 <= Main.accumulator L + frame_dt -> 0 <= Main.accumulator L') /\
    Main.controller_cursor L' =
    Main.integrate_cursor L frame_dt (fst axes) (snd axes) /\
    Main.last_time L' = now /\
    Main.engine_fps L' = Main.engine_fps L.
Proof.
  intros engine_dt frame_dt axes.
  pose proof (engine_dt_of_pos (Main.engine_fps L)) as Hdt.
  fold engine_dt in Hdt.
  set (L1 := snd (Main.begin_frame now L)).
  set (L2 := Main.with_cursor L1
               (Main.integrate_cursor L1 frame_dt (fst axes) (snd axes))).
  destruct (fuel_for (Main.accumulator L2) engine_dt Hdt) as [fuel Hfuel].
  destruct (drain_terminates devices engine_dt fuel 0 L2 Hdt Hfuel)
    as [L' Hrun].
  destruct (drain_spec devices engine_dt fuel 0 L2 L' Hdt Hrun)
    as (n & Hn & Hacc & Hlt & Hpos & Hcur & Hlast & Hfps).
  exists fuel, L', n.
  assert (Hframe : forall f, Main.frame f now peek devices L =
                             Main.drain f devices 0 engine_dt L2).
  { intros f. unfold Main.frame. cbn [Main.begin_frame].
    change (Main.current_deadzone (Main.mkLoop _ _ _ _ _ _ _ _ _ _ _ _ _))
      with (Main.current_deadzone L).
    subst L2 L1 axes. cbn [snd Main.begin_frame]. fold frame_dt.
    destruct (ControllerManager.peek_axes peek _) as [lx ly].
    reflexivity. }
  repeat apply conj.
  - intros extra. rewrite Hframe. now apply drain_more_fuel.
  - exact Hn.
  - rewrite <- Hacc. reflexivity.
  - exact Hlt.
  - exact Hpos.
  - rewrite Hcur. reflexivity.
  - rewrite Hlast. reflexivity.
  - rewrite Hfps. reflexivity.
Qed.

(** C7. On every frame in controller mode, whatever number of engine
    ticks the frame goes on to run: when both deadzone-shaped axis reads
    are exactly 0 the real-time cursor is set to the simulated [pos];
    otherwise it advances by [(axis * ball_speed) * frame_dt] on each
    axis, with the frame's delta-time and not the engine's, and is then
    clamped to [margin + radius, dim - margin - radius] on both axes. *)
Theorem controller_cursor_integrates_frame_dt now peek devices L :
  Main.mouse_mode L = false ->
  let frame_dt := Rmin (now - Main.last_time L) 0.25 in
  let axes := ControllerManager.peek_axes peek (Main.current_deadzone L) in
  let lx := fst axes in
  let ly := snd axes in
  let speed := EngineState.ball_speed (Main.state L) in
  let br := EngineState.ball_radius (Main.state L) in
  let lo := IZR (config.CANVAS_MARGIN + br) in
  let hi_x := IZR (Main.win_w L - config.CANVAS_MARGIN - br) in
  let hi_y := IZR (Main.win_h L - config.CANVAS_MARGIN - br) in
  let cursor := Main.controller_cursor L in
  exists (fuel : nat) (L' : Main.Loop) (n : nat),
    (forall extra,
       Main.frame (fuel + extra) now peek devices L = Some L') /\
    Main.engine_ticks L' = (Main.engine_ticks L + n)%nat /\
    (lx = 0 /\ ly = 0 ->
     Main.controller_cursor L' = EngineState.pos (Main.state L)) /\
    (~ (lx = 0 /\ ly = 0) ->
     Main.controller_cursor L' =
     Vector2.mk
       (util.clamp (Vector2.x cursor + (lx * speed) * frame_dt) lo hi_x)
       (util.clamp (Vector2.y cursor + (ly * speed) * frame_dt) lo hi_y) /\
     (lo <= hi_x -> lo <= hi_y ->
      in_bounds (Main.controller_cursor L') br (Main.win_w L) (Main.win_h L)
        config.CANVAS_MARGIN)).
Proof.
  intros Hmode frame_dt axes lx ly speed br lo hi_x hi_y cursor.
  destruct (frame_spec now peek devices L)
    as (fuel & L' & n & Hrun & Hn & _ & _ & _ & Hcur & _ & _).
  fold frame_dt axes lx ly in Hcur.
  exists fuel, L', n. repeat apply conj; try assumption.
  - intros [Hx Hy]. rewrite Hcur. unfold Main.integrate_cursor, Py.float_eq.
    rewrite Hmode.
    destruct (Req_dec_T lx 0); [|contradiction].
    destruct (Req_dec_T ly 0); [|contradiction]. reflexivity.
  - intros Hmoving.
    assert (E : Main.controller_cursor L' =
                Vector2.mk
                  (util.clamp (Vector2.x cursor + (lx * speed) * frame_dt)
                     lo hi_x)
                  (util.clamp (Vector2.y cursor + (ly * speed) * frame_dt)
                     lo hi_y)).
    { rewrite Hcur. unfold Main.integrate_cursor, Py.float_eq.
      rewrite Hmode.
      destruct (Req_dec_T lx 0); [destruct (Req_dec_T ly 0)|];
        cbn [andb]; try reflexivity.
      exfalso. now apply Hmoving. }
    split; [exact E|]. intros Hbx Hby. rewrite E.
    split; cbn [Vector2.x Vector2.y]; now apply clamp_within.
Qed.

Lemma peek_stick_right :
  ControllerManager.peek_axes (Some stick_right) config.RELAXED_DEADZONE =
  (1, 0).
Proof.
  unfold ControllerManager.peek_axes, ControllerManager._read_axes,
    util.apply_deadzone, util.clamp, config.RELAXED_DEADZONE.
  cbn [stick_right ControllerManager.get_axes].
  rewrite Rabs_R1, Rabs_R0. repeat (case_R; try lra). f_equal. lra.
Qed.

Lemma controller_cursor_integrates_frame_dt_witness :
  (exists (fuel : nat) (L' : Main.Loop),
     Main.frame fuel 0.1 None idle_devices (demo_loop 0 true) = Some L' /\
     Main.controller_cursor L' = Vector2.mk 640 360) /\
  (exists (fuel : nat) (L' : Main.Loop),
     Main.frame fuel 0.05 (Some stick_right) idle_devices (demo_loop 0 true)
       = Some L' /\
     Main.controller_cursor L' = Vector2.mk 675 360).
Proof.
  split.
  - destruct (controller_cursor_integrates_frame_dt 0.1 None idle_devices
                (demo_loop 0 true) eq_refl)
      as (fuel & L' & n & Hrun & _ & Hsnap & _).
    exists fuel, L'. split.
    + rewrite <- (Nat.add_0_r fuel). apply Hrun.
    + apply Hsnap. now split.
  - destruct (controller_cursor_integrates_frame_dt 0.05 (Some stick_right)
                idle_devices (demo_loop 0 true) eq_refl)
      as (fuel & L' & n & Hrun & _ & _ & Hmove).
    exists fuel, L'. split.
    + rewrite <- (Nat.add_0_r fuel). apply Hrun.
    + change (Main.current_deadzone (demo_loop 0 true))
        with config.RELAXED_DEADZONE in Hmove.
      rewrite peek_stick_right in Hmove. cbn [fst snd] in Hmove.
      destruct Hmove as [E _]; [intros [H _]; lra|].
      rewrite E. eval_R.
Defined.

(** A call of [engine_step] ahead of [n] more. *)
Lemma stepped_front dt w h n s1 s' : forall s lx ly edges any override,
  s1 = engine_step s dt w h config.CANVAS_MARGIN lx ly edges any override ->
  stepped dt w h n s1 s' ->
  stepped dt w h (S n) s s'.
Proof.
  intros s lx ly edges any override E Hrun.
  induction Hrun as [s1|n s1 s2 lx' ly' edges' any' override' _ IH].
  - rewrite E. apply stepped_S. apply stepped_O.
  - apply stepped_S. now apply IH.
Qed.

(** Every tick of the drain loop is one call of [engine_step] over
    [engine_dt]. *)
Lemma drain_stepped devices engine_dt : forall fuel k L L',
  Main.drain fuel devices k engine_dt L = Some L' ->
  exists n : nat,
    Main.engine_ticks L' = (Main.engine_ticks L + n)%nat /\
    stepped engine_dt (Main.win_w L) (Main.win_h L) n
      (Main.state L) (Main.state L').
Proof.
  induction fuel as [|fuel IH]; intros k L L' Hrun; cbn [Main.drain] in Hrun.
  - destruct (Rge_dec _ _); [discriminate|]. injection Hrun as <-.
    exists 0%nat. split; [lia|apply stepped_O].
  - destruct (Rge_dec _ _).
    + destruct (IH _ _ _ Hrun) as (n & Hn & Hsteps).
      destruct (tick_state (devices k) engine_dt L)
        as (lx & ly & edges & any & override & Hst & Hw & Hh).
      destruct (tick_frame (devices k) engine_dt L) as (_ & Ht & _).
      rewrite Hw, Hh in Hsteps. exists (S n). split; [lia|].
      exact (stepped_front _ _ _ _ _ _ _ _ _ _ _ _ Hst Hsteps).
    + injection Hrun as <-. exists 0%nat. split; [lia|apply stepped_O].
Qed.

Lemma frame_stepped fuel now peek devices L L' :
  Main.frame fuel now peek devices L = Some L' ->
  exists n : nat,
    Main.engine_ticks L' = (Main.engine_ticks L + n)%nat /\
    stepped (Main.engine_dt_of (Main.engine_fps L))
      (Main.win_w L) (Main.win_h L) n (Main.state L) (Main.state L').
Proof.
  unfold Main.frame. cbn [Main.begin_frame].
  destruct (ControllerManager.peek_axes peek _) as [lx ly].
  intros Hrun. exact (drain_stepped _ _ _ _ _ _ Hrun).
Qed.

(** The turns of the loop, from what it has taken off the accumulator
    and what it leaves. *)
Lemma drained_of_sum (dt : R) : forall (n : nat) (a a' : R),
  0 < dt ->
  0 <= a' < dt ->
  a = a' + INR n * dt ->
  drained dt n a a'.
Proof.
  induction n as [|n IH]; intros a a' Hdt Hleft Hsum.
  - change (INR 0) with 0 in Hsum.
    replace a with a' by lra. apply drained_O. lra.
  - rewrite S_INR in Hsum.
    pose proof (pos_INR n) as Hn.
    apply drained_S.
    + assert (0 <= INR n * dt) by (apply Rmult_le_pos; lra). lra.
    + apply IH; [assumption|assumption|lra].
Qed.

(** C1, amended. For every engine rate [r >= 1], [engine_dt = 1/r]. A
    frame that starts with a non-negative accumulator, on a clock that
    does not run backwards, adds [frame_dt = min(now - last_time, 0.25)]
    to the accumulator and then calls [engine_step] once for each full
    [engine_dt] in it: the loop runs while the accumulator is at least
    [engine_dt] and takes [engine_dt] off each time. The frame comes to
    an end, its ticks are as many calls of [engine_step] over
    [engine_dt] as the loop has turns, and what is left is in
    [0, engine_dt).
    At rate 60 a frame of 0.0167 s runs exactly one tick when it starts
    with less than [2/60 - 0.0167] s in the accumulator, an empty one in
    particular. A capped frame (0.25 s) runs at most
    [floor(0.25 / engine_dt)] ticks when the accumulator starts empty,
    and at most [floor(0.25 / engine_dt) + 1] when it starts with less
    than [engine_dt]. *)
Theorem accumulator_drains now peek devices L :
  0 <= Main.accumulator L ->
  Main.last_time L <= now ->
  let engine_dt := Main.engine_dt_of (Main.engine_fps L) in
  let frame_dt := Rmin (now - Main.last_time L) 0.25 in
  exists (fuel : nat) (L' : Main.Loop) (n : nat),
    (forall extra,
       Main.frame (fuel + extra) now peek devices L = Some L') /\
    stepped engine_dt (Main.win_w L) (Main.win_h L) n
      (Main.state L) (Main.state L') /\
    Main.engine_ticks L' = (Main.engine_ticks L + n)%nat /\
    Main.last_time L' = now /\
    drained engine_dt n (Main.accumulator L + frame_dt)
      (Main.accumulator L') /\
    0 <= Main.accumulator L' < engine_dt /\
    ((1 <= Main.engine_fps L)%Z ->
     engine_dt = 1 / IZR (Main.engine_fps L)) /\
    (Main.engine_fps L = 60%Z ->
     now - Main.last_time L = 0.0167 ->
     Main.accumulator L < 2 / 60 - 0.0167 ->
     n = 1%nat) /\
    (0.25 <= now - Main.last_time L ->
     Main.accumulator L < engine_dt ->
     (Z.of_nat n <= Zfloor (0.25 / engine_dt) + 1)%Z /\
     (Main.accumulator L = 0 ->
      (Z.of_nat n <= Zfloor (0.25 / engine_dt))%Z)).
Proof.
  intros Hacc0 Hclock engine_dt frame_dt.
  pose proof (engine_dt_of_pos (Main.engine_fps L)) as Hdt.
  fold engine_dt in Hdt.
  assert (Hfd : 0 <= frame_dt).
  { unfold frame_dt. apply Rmin_glb; lra. }
  destruct (frame_spec now peek devices L)
    as (fuel & L' & n & Hrun & Hn & Hsum & Hlt & Hpos & _ & Hlast & _).
  fold engine_dt frame_dt in Hsum, Hlt, Hpos.
  assert (Hleft : 0 <= Main.accumulator L' < engine_dt)
    by (split; [apply Hpos; lra | exact Hlt]).
  pose proof (tick_count _ _ _ n Hdt Hleft Hsum) as Hcount.
  assert (Hsteps : stepped engine_dt (Main.win_w L) (Main.win_h L) n
                     (Main.state L) (Main.state L')).
  { destruct (frame_stepped _ _ _ _ _ _ (Hrun 0%nat)) as (n' & Hn' & Hs).
    assert (n' = n) by lia. now subst n'. }
  assert (H60 : Main.engine_fps L = 60%Z -> engine_dt = 1 / 60).
  { intros E. unfold engine_dt, Main.engine_dt_of. now rewrite E. }
  exists fuel, L', n.
  split; [exact Hrun|]. split; [exact Hsteps|]. split; [exact Hn|].
  split; [exact Hlast|].
  split; [now apply drained_of_sum|]. split; [exact Hleft|].
  split; [intros Hr; now apply engine_dt_of_rate|]. split.
  - intros E Hgap Hcarry. apply Nat2Z.inj. rewrite Hcount.
    apply Zfloor_eq. rewrite (H60 E).
    unfold frame_dt. rewrite Hgap, Rmin_left by lra.
    change (IZR (Z.of_nat 1)) with 1. split.
    + apply (Rmult_le_reg_r (1 / 60)); [lra|]. field_simplify. lra.
    + apply (Rmult_lt_reg_r (1 / 60)); [lra|]. field_simplify. lra.
  - intros Hcap Hcarry.
    assert (Efd : frame_dt = 0.25)
      by (unfold frame_dt; apply Rmin_right; lra).
    rewrite Efd in Hcount. split.
    + rewrite Hcount.
      replace (Zfloor (0.25 / engine_dt) + 1)%Z
        with (Zfloor (0.25 / engine_dt + IZR 1)) by apply Zfloor_addz.
      apply Zfloor_le.
      replace ((Main.accumulator L + 0.25) / engine_dt)
        with (0.25 / engine_dt + Main.accumulator L / engine_dt)
        by (field; lra).
      apply Rplus_le_compat_l. left.
      apply (Rmult_lt_reg_r engine_dt); [exact Hdt|].
      unfold Rdiv. rewrite Rmult_assoc, Rinv_l, Rmult_1_r; lra.
    + intros Hzero. rewrite Hcount, Hzero, Rplus_0_l. lia.
Qed.

(** Two frames of a loop that starts with an empty accumulator. *)
Lemma two_frames (fps : Z) (now1 now2 : R) (n2 : Z) :
  (1 <= fps)%Z ->
  0 <= now1 < 1 / IZR fps ->
  now1 <= 0.25 ->
  now1 <= now2 <= now1 + 0.25 ->
  IZR n2 <= now2 * IZR fps < IZR n2 + 1 ->
  exists (f1 f2 : nat) (L1 L2 : Main.Loop),
    (forall extra,
       Main.frame (f1 + extra) now1 None idle_devices
         (demo_loop_at fps 0 true) = Some L1) /\
    Main.engine_ticks L1 = 0%nat /\
    Main.accumulator L1 = now1 /\
    Main.last_time L1 = now1 /\
    Main.engine_fps L1 = fps /\
    (forall extra,
       Main.frame (f2 + extra) now2 None idle_devices L1 = Some L2) /\
    Z.of_nat (Main.engine_ticks L2) = n2.
Proof.
  intros Hfps Hnow1 Hcap Hnow2 Hn2.
  assert (Hr : 0 < IZR fps) by (apply IZR_lt; lia).
  set (L0 := demo_loop_at fps 0 true).
  destruct (frame_spec now1 None idle_devices L0)
    as (f1 & L1 & n1 & Hrun1 & Hn1 & Hsum1 & Hlt1 & Hpos1 & _ & Hlast1 & Hfps1).
  destruct (frame_spec now2 None idle_devices L1)
    as (f2 & L2 & n & Hrun2 & Hn & Hsum2 & Hlt2 & Hpos2 & _ & _ & _).
  rewrite Hfps1, Hlast1 in *.
  cbn [L0 demo_loop_at Main.engine_fps Main.accumulator Main.last_time
       Main.engine_ticks] in *.
  rewrite (engine_dt_of_rate fps Hfps) in *.
  rewrite Rminus_0_r, Rplus_0_l, Rmin_left in Hsum1, Hpos1 by lra.
  rewrite Rmin_left in Hsum2, Hpos2 by lra.
  assert (Hdt : 0 < 1 / IZR fps) by (apply Rdiv_lt_0_compat; lra).
  assert (Hq : forall a, a / (1 / IZR fps) = a * IZR fps)
    by (intros a; field; lra).
  assert (Hlim : 1 / IZR fps * IZR fps = 1) by (field; lra).
  assert (Hleft1 : 0 <= Main.accumulator L1 < 1 / IZR fps)
    by (split; [apply Hpos1; lra | exact Hlt1]).
  pose proof (tick_count _ _ _ n1 Hdt Hleft1 Hsum1) as C1.
  rewrite Hq in C1.
  assert (E1 : Zfloor (now1 * IZR fps) = 0%Z).
  { apply Zfloor_eq. change (IZR 0) with 0. split; [nra|].
    destruct Hnow1 as [_ Hup].
    apply (Rmult_lt_compat_r (IZR fps)) in Hup; lra. }
  assert (n1 = 0%nat) by lia. subst n1. cbn [INR] in Hsum1.
  assert (Ea : Main.accumulator L1 = now1) by lra.
  rewrite Ea in *.
  assert (Hleft2 : 0 <= Main.accumulator L2 < 1 / IZR fps)
    by (split; [apply Hpos2; lra | exact Hlt2]).
  replace (now1 + (now2 - now1)) with now2 in Hsum2 by ring.
  pose proof (tick_count _ _ _ n Hdt Hleft2 Hsum2) as C2.
  rewrite Hq in C2.
  exists f1, f2, L1, L2. repeat apply conj; try assumption; try reflexivity.
  rewrite Hn, Hn1. cbn [Nat.add]. rewrite C2. now apply Zfloor_eq.
Qed.

Lemma accumulator_drains_witness :
  exists (fuel : nat) (L' : Main.Loop),
    Main.frame fuel 0.0167 None idle_devices (demo_loop 0 true) = Some L' /\
    Main.engine_ticks L' = 1%nat /\
    0 <= Main.accumulator L' < 1 / 60.
Proof.
  assert (H0 : 0 <= Main.accumulator (demo_loop 0 true)) by (cbn; lra).
  assert (H1 : Main.last_time (demo_loop 0 true) <= 0.0167) by (cbn; lra).
  destruct (accumulator_drains 0.0167 None idle_devices (demo_loop 0 true)
              H0 H1)
    as (fuel & L' & n & Hrun & _ & Hn & _ & _ & Hleft & _ & Hone & _).
  exists fuel, L'. split; [|split].
  - rewrite <- (Nat.add_0_r fuel). apply Hrun.
  - rewrite Hn. cbn [demo_loop demo_loop_at Main.engine_ticks Nat.add].
    apply Hone; cbn; try reflexivity; lra.
  - exact Hleft.
Defined.

(** C1 as stated fails when the accumulator carries time over. At rate
    60, a first frame of 0.01665 s runs no tick and leaves 0.01665 s; the
    next frame, of 0.0167 s, then runs two ticks. At rate 10, after a
    first frame of 0.09 s, a frame of 0.25 s runs three ticks, and
    [floor(0.25 / engine_dt)] is 2. *)
Lemma accumulator_drains_counterexample :
  (exists (f1 f2 : nat) (L1 L2 : Main.Loop),
     (forall extra,
        Main.frame (f1 + extra) 0.01665 None idle_devices
          (demo_loop_at 60 0 true) = Some L1) /\
     Main.engine_fps L1 = 60%Z /\
     Rmin (0.03335 - Main.last_time L1) 0.25 = 0.0167 /\
     (forall extra,
        Main.frame (f2 + extra) 0.03335 None idle_devices L1 = Some L2) /\
     Main.engine_ticks L2 = (Main.engine_ticks L1 + 2)%nat) /\
  (exists (f1 f2 : nat) (L1 L2 : Main.Loop),
     (forall extra,
        Main.frame (f1 + extra) 0.09 None idle_devices
          (demo_loop_at 10 0 true) = Some L1) /\
     Main.engine_fps L1 = 10%Z /\
     Rmin (0.34 - Main.last_time L1) 0.25 = 0.25 /\
     (forall extra,
        Main.frame (f2 + extra) 0.34 None idle_devices L1 = Some L2) /\
     Main.engine_ticks L2 = (Main.engine_ticks L1 + 3)%nat /\
     Zfloor (0.25 / Main.engine_dt_of 10) = 2%Z).
Proof.
  split.
  - destruct (two_frames 60 0.01665 0.03335 2)
      as (f1 & f2 & L1 & L2 & H1 & Ht1 & _ & Hl1 & Hf1 & H2 & Ht2);
      try lia; try lra.
    exists f1, f2, L1, L2. rewrite Hl1, Ht1.
    repeat apply conj; try assumption.
    + rewrite Rmin_left by lra. lra.
    + lia.
  - destruct (two_frames 10 0.09 0.34 3)
      as (f1 & f2 & L1 & L2 & H1 & Ht1 & _ & Hl1 & Hf1 & H2 & Ht2);
      try lia; try lra.
    exists f1, f2, L1, L2. rewrite Hl1, Ht1.
    repeat apply conj; try assumption.
    + rewrite Rmin_right by lra. lra.
    + lia.
    + apply Zfloor_eq. unfold Main.engine_dt_of.
      change (Z.max 1 10) with 10%Z. split.
      * apply (Rmult_le_reg_r (1 / 10)); [lra|]. field_simplify. lra.
      * apply (Rmult_lt_reg_r (1 / 10)); [lra|]. field_simplify. lra.
Qed.

(* ----------------------------------------------------------------- *)
(** *** The target's velocity *)

Lemma length_squared_nonneg (v : Vector2.t) : 0 <= Vector2.length_squared v.
Proof.
  unfold Vector2.length_squared.
  pose proof (Rle_0_sqr (Vector2.x v)) as Hx.
  pose proof (Rle_0_sqr (Vector2.y v)) as Hy.
  unfold Rsqr in Hx, Hy. lra.
Qed.

Lemma length_scale (v : Vector2.t) (s : R) :
  Vector2.length (Vector2.scale v s) = Rabs s * Vector2.length v.
Proof.
  unfold Vector2.length.
  replace (Vector2.length_squared (Vector2.scale v s))
    with (Rsqr s * Vector2.length_squared v)
    by (unfold Vector2.length_squared, Vector2.scale, Rsqr; cbn; ring).
  rewrite sqrt_mult_alt by apply Rle_0_sqr.
  now rewrite sqrt_Rsqr_abs.
Qed.

(** [normalize] succeeds on a vector of positive length and returns a
    vector of length one. *)
Lemma normalize_unit (v : Vector2.t) :
  0 < Vector2.length_squared v ->
  exists n,
    Vector2.normalize v = Some n /\
    Vector2.length n = 1 /\
    n = Vector2.mk (Vector2.x v / Vector2.length v)
          (Vector2.y v / Vector2.length v).
Proof.
  intros Hpos.
  assert (Hl : 0 < Vector2.length v) by now apply sqrt_lt_R0.
  unfold Vector2.normalize.
  destruct (Req_dec_T (Vector2.length v) 0) as [E|_]; [lra|].
  eexists. split; [reflexivity|]. split; [|reflexivity].
  unfold Vector2.length at 1. rewrite <- sqrt_1. f_equal.
  unfold Vector2.length_squared at 1. cbn [Vector2.x Vector2.y].
  assert (Hsq : Vector2.length v * Vector2.length v =
                Vector2.length_squared v)
    by (apply sqrt_sqrt; lra).
  unfold Vector2.length_squared in Hsq.
  set (l := Vector2.length v) in *.
  replace (Vector2.x v / l * (Vector2.x v / l)
           + Vector2.y v / l * (Vector2.y v / l))
    with ((Vector2.x v * Vector2.x v + Vector2.y v * Vector2.y v) / (l * l))
    by (field; lra).
  rewrite <- Hsq. field. lra.
Qed.

(** Lines 41-43 and 52-54: the velocity after re-seeding, normalising
    and scaling. *)
Lemma rescale_vel_spec (v : Vector2.t) (speed : Z) :
  exists n,
    TargetState.rescale_vel v speed = Some (Vector2.scale n (IZR speed)) /\
    Vector2.length n = 1 /\
    (Vector2.length_squared v < 1e-9 -> n = Vector2.mk 1 0) /\
    (~ Vector2.length_squared v < 1e-9 -> Vector2.normalize v = Some n).
Proof.
  unfold TargetState.rescale_vel.
  destruct (Rlt_dec (Vector2.length_squared v) 1e-9) as [Hsmall|Hbig].
  - assert (Hone : Vector2.length (Vector2.mk 1 0) = 1).
    { unfold Vector2.length, Vector2.length_squared. cbn.
      rewrite <- sqrt_1 at 3. f_equal. ring. }
    exists (Vector2.mk 1 0).
    unfold Vector2.normalize. rewrite Hone.
    destruct (Req_dec_T 1 0); [lra|]. cbn [Vector2.x Vector2.y].
    replace (1 / 1) with 1 by field. replace (0 / 1) with 0 by field.
    repeat split; try reflexivity; try assumption. intros H. contradiction.
  - destruct (normalize_unit v) as (n & Hn & Hlen & _); [lra|].
    exists n. rewrite Hn. repeat split; try assumption; try reflexivity.
    intros H. contradiction.
Qed.

Lemma clamp_int_within (v lo hi : Z) :
  (lo <= hi)%Z -> (lo <= util.clamp_int v lo hi <= hi)%Z.
Proof.
  intros Hb. unfold util.clamp_int.
  destruct (v <? lo)%Z eqn:E1; [lia|].
  destruct (hi <? v)%Z eqn:E2; lia.
Qed.

(** A velocity that is a unit vector scaled by a configured speed has
    that speed as its magnitude and is not the zero vector. *)
Lemma scaled_unit_moves (n : Vector2.t) (speed : Z) :
  Vector2.length n = 1 ->
  (config.TARGET_SPEED_PX_S_MIN <= speed)%Z ->
  Vector2.length (Vector2.scale n (IZR speed)) = IZR speed /\
  Vector2.scale n (IZR speed) <> Vector2.mk 0 0.
Proof.
  intros Hn Hmin.
  assert (Hs : 0 < IZR speed).
  { apply IZR_lt. unfold config.TARGET_SPEED_PX_S_MIN in Hmin. lia. }
  assert (Hlen : Vector2.length (Vector2.scale n (IZR speed)) = IZR speed).
  { rewrite length_scale, Hn, Rabs_right; lra. }
  split; [exact Hlen|]. intros Hzero. rewrite Hzero in Hlen.
  unfold Vector2.length, Vector2.length_squared in Hlen.
  cbn [Vector2.x Vector2.y] in Hlen.
  replace (0 * 0 + 0 * 0) with 0 in Hlen by ring.
  rewrite sqrt_0 in Hlen. lra.
Qed.

(** C8. The three statements [set_params] and [reset] share re-seed a
    velocity of (near-)zero length to the unit vector [(1, 0)] before
    scaling. Neither method fails: there is no normalising of a
    zero-length vector, the one operation that has no value. After
    either call the velocity is a unit direction scaled by [speed_px_s].
    For [set_params] that is the configured speed clamped to its bounds,
    so the magnitude is that speed and the velocity is not the zero
    vector; the same holds after [reset] on a target whose [speed_px_s]
    is such a clamped speed: the target is never stationary. *)
Theorem target_velocity_never_degenerate :
  (forall v speed,
     Vector2.length_squared v < 1e-9 ->
     TargetState.rescale_vel v speed =
     Some (Vector2.scale (Vector2.mk 1 0) (IZR speed))) /\
  (forall self ball_radius size_pct speed_px_s,
   exists self',
     TargetState.set_params self ball_radius size_pct speed_px_s =
       Some self' /\
     TargetState.speed_px_s self' =
       util.clamp_int speed_px_s config.TARGET_SPEED_PX_S_MIN
         config.TARGET_SPEED_PX_S_MAX /\
     speed_configured self' /\
     (Vector2.length_squared (TargetState.vel self) < 1e-9 ->
      TargetState.vel self' =
      Vector2.scale (Vector2.mk 1 0) (IZR (TargetState.speed_px_s self'))) /\
     (exists n,
        Vector2.length n = 1 /\
        TargetState.vel self' =
        Vector2.scale n (IZR (TargetState.speed_px_s self'))) /\
     Vector2.length (TargetState.vel self') =
       IZR (TargetState.speed_px_s self') /\
     TargetState.vel self' <> Vector2.mk 0 0) /\
  (forall self rnd w h margin ball_radius,
   exists self',
     TargetState.reset self rnd w h margin ball_radius = Some self' /\
     TargetState.speed_px_s self' = TargetState.speed_px_s self /\
     (exists n,
        Vector2.length n = 1 /\
        TargetState.vel self' =
        Vector2.scale n (IZR (TargetState.speed_px_s self'))) /\
     Vector2.length (TargetState.vel self') =
       Rabs (IZR (TargetState.speed_px_s self')) /\
     (speed_configured self ->
      Vector2.length (TargetState.vel self') =
        IZR (TargetState.speed_px_s self') /\
      TargetState.vel self' <> Vector2.mk 0 0)).
Proof.
  repeat apply conj.
  - intros v speed Hsmall.
    destruct (rescale_vel_spec v speed) as (n & Hr & _ & Hseed & _).
    now rewrite Hr, (Hseed Hsmall).
  - intros self ball_radius size_pct speed_px_s.
    unfold TargetState.set_params.
    set (speed := util.clamp_int speed_px_s _ _).
    assert (Hspeed : (config.TARGET_SPEED_PX_S_MIN <= speed
                      <= config.TARGET_SPEED_PX_S_MAX)%Z)
      by (apply clamp_int_within; unfold config.TARGET_SPEED_PX_S_MIN,
            config.TARGET_SPEED_PX_S_MAX; lia).
    destruct (rescale_vel_spec (TargetState.vel self) speed)
      as (n & Hr & Hn & Hseed & _).
    rewrite Hr. eexists. split; [reflexivity|].
    cbn [TargetState.speed_px_s TargetState.vel].
    destruct (scaled_unit_moves n speed Hn (proj1 Hspeed)) as [Hlen Hnz].
    split; [reflexivity|]. split; [exact Hspeed|].
    split; [intros Hsmall; now rewrite (Hseed Hsmall)|].
    split; [now exists n|]. split; assumption.
  - intros self rnd w h margin ball_radius.
    unfold TargetState.reset.
    destruct (rescale_vel_spec
                (Vector2.mk (cos (rnd * (2 * PI))) (sin (rnd * (2 * PI))))
                (TargetState.speed_px_s self))
      as (n & Hr & Hn & _ & _).
    rewrite Hr. eexists. split; [reflexivity|].
    cbn [TargetState.speed_px_s TargetState.vel].
    split; [reflexivity|]. split; [now exists n|].
    split; [now rewrite length_scale, Hn, Rmult_1_r|].
    intros Hspeed. now apply scaled_unit_moves; [|apply Hspeed].
Qed.

Lemma target_velocity_never_degenerate_witness :
  exists self',
    TargetState.reset (TargetState.default true) 0.25 1280 720 12 14 =
      Some self' /\
    Vector2.length (TargetState.vel self') = 170 /\
    TargetState.vel self' <> Vector2.mk 0 0.
Proof.
  assert (Hs : speed_configured (TargetState.default true))
    by (unfold speed_configured; cbn; unfold config.TARGET_SPEED_PX_S_MIN,
          config.TARGET_SPEED_PX_S_MAX, config.TARGET_SPEED_PX_S_DEFAULT;
        lia).
  destruct (proj2 (proj2 target_velocity_never_degenerate)
              (TargetState.default true) 0.25 1280%Z 720%Z 12%Z 14%Z)
    as (self' & Hrun & Hspeed & _ & _ & Hmoves).
  destruct (Hmoves Hs) as [Hlen Hnz].
  exists self'. rewrite Hlen, Hspeed. repeat split; assumption.
Defined.

Lemma normalize_unit_x :
  Vector2.normalize (Vector2.mk 1 0) = Some (Vector2.mk 1 0).
Proof.
  assert (Hone : Vector2.length (Vector2.mk 1 0) = 1).
  { unfold Vector2.length, Vector2.length_squared. cbn.
    rewrite <- sqrt_1 at 3. f_equal. ring. }
  unfold Vector2.normalize. rewrite Hone.
  destruct (Req_dec_T 1 0); [lra|]. cbn [Vector2.x Vector2.y].
  do 2 f_equal; field.
Qed.

Lemma rescale_vel_unit_x (speed : Z) :
  TargetState.rescale_vel (Vector2.mk 1 0) speed =
  Some (Vector2.mk (IZR speed) 0).
Proof.
  unfold TargetState.rescale_vel.
  destruct (Rlt_dec _ _); rewrite normalize_unit_x;
    unfold Vector2.scale; cbn [Vector2.x Vector2.y]; do 2 f_equal; ring.
Qed.

(** The state [main] starts from in the default window when
    [random.random()] returns 0 is [demo_state false]. *)
Lemma make_initial_state_demo :
  make_initial_state 0 1280 720 12 = Some (demo_state false).
Proof.
  unfold make_initial_state, TargetState.set_params, TargetState.reset.
  cbn [TargetState.default TargetState.vel TargetState.speed_px_s].
  rewrite rescale_vel_unit_x.
  cbn [TargetState.speed_px_s].
  replace (0 * (2 * PI)) with 0 by ring. rewrite cos_0, sin_0.
  change (util.clamp_int config.TARGET_SPEED_PX_S_DEFAULT
            config.TARGET_SPEED_PX_S_MIN config.TARGET_SPEED_PX_S_MAX)
    with 170%Z.
  rewrite rescale_vel_unit_x.
  unfold demo_state, demo_target. do 2 f_equal.
  - f_equal; lra.
  - f_equal; lra.
  - cbn. unfold util.clamp. repeat (case_R; try lra).
    f_equal. f_equal; lra.
Qed.

(* ----------------------------------------------------------------- *)
(** *** Further invariants of a step *)

Lemma advance_timer_range (elapsed duration dt : R) :
  0 <= dt -> 0 <= elapsed <= duration ->
  0 <= advance_timer elapsed duration dt <= duration.
Proof. intros Hdt He. unfold advance_timer. cases_R. Qed.

(** X1. For [dt >= 0] a step keeps the two effect timers within
    [0, duration]: the glow timer of the ball under [GLOW_DURATION_S] and
    the flash timer of the target under [TARGET_FLASH_DURATION_S]. *)
Theorem timers_stay_in_range
    state dt w h margin lx ly edges any override :
  0 <= dt ->
  0 <= BallVisual.glow_elapsed (EngineState.visual state)
    <= config.GLOW_DURATION_S ->
  0 <= TargetState.hit_flash_elapsed (EngineState.target state)
    <= config.TARGET_FLASH_DURATION_S ->
  let state' := engine_step state dt w h margin lx ly edges any override in
  0 <= BallVisual.glow_elapsed (EngineState.visual state')
    <= config.GLOW_DURATION_S /\
  0 <= TargetState.hit_flash_elapsed (EngineState.target state')
    <= config.TARGET_FLASH_DURATION_S.
Proof.
  intros Hdt Hglow Hflash state'. subst state'. split.
  - rewrite engine_step_visual.
    destruct edges as [|b rest].
    + cbn. now apply advance_timer_range.
    + rewrite fold_apply_edge_last by discriminate. cbn.
      unfold config.GLOW_DURATION_S. lra.
  - pose proof (advance_timer_range _ _ dt Hdt Hflash) as Hadv.
    unfold engine_step. cbn [EngineState.target].
    destruct (TargetState.enabled (EngineState.target state)); [|exact Hflash].
    destruct (reflect_axis (Vector2.x _) _ _ _) as [tx tvx].
    destruct (reflect_axis (Vector2.y _) _ _ _) as [ty tvy].
    cbn [TargetState.hit_flash_elapsed].
    destruct any; [|exact Hadv].
    destruct (Rle_dec _ _); [|exact Hadv].
    unfold config.TARGET_FLASH_DURATION_S. lra.
Qed.

Lemma timers_stay_in_range_witness :
  let state' :=
    engine_step aimed_state (1 / 60) 1280 720 12 0 0 [] false None in
  0 <= BallVisual.glow_elapsed (EngineState.visual state')
    <= config.GLOW_DURATION_S /\
  0 <= TargetState.hit_flash_elapsed (EngineState.target state')
    <= config.TARGET_FLASH_DURATION_S.
Proof.
  apply (timers_stay_in_range aimed_state (1 / 60) 1280 720 12 0 0 []
           false None); cbn; unfold_config; lra.
Defined.

Lemma reflect_axis_within (p v lo hi : R) :
  lo <= hi -> lo <= fst (reflect_axis p v lo hi) <= hi.
Proof. intros Hb. unfold reflect_axis. cases_R; cbn [fst]; lra. Qed.

(** X2. In a window with room for it, an enabled target ends every step
    inside its own play area, [margin + radius_px, dim - margin -
    radius_px] on both axes. *)
Theorem target_stays_in_bounds
    state dt w h margin lx ly edges any override :
  TargetState.enabled (EngineState.target state) = true ->
  let tr := TargetState.radius_px (EngineState.target state) in
  IZR (margin + tr) <= IZR (w - margin - tr) ->
  IZR (margin + tr) <= IZR (h - margin - tr) ->
  in_bounds
    (TargetState.pos
       (EngineState.target
          (engine_step state dt w h margin lx ly edges any override)))
    tr w h margin.
Proof.
  intros Hon tr Hbx Hby.
  destruct (engine_step_target_motion state dt w h margin lx ly edges any
              override Hon) as (Hp & _).
  rewrite Hp. split; cbn [Vector2.x Vector2.y];
    now apply reflect_axis_within.
Qed.

Lemma target_stays_in_bounds_witness :
  in_bounds
    (TargetState.pos
       (EngineState.target
          (engine_step wall_state (1 / 60) 1280 720 12 0 0 [] false None)))
    23 1280 720 12.
Proof.
  apply (target_stays_in_bounds wall_state (1 / 60) 1280 720 12 0 0 []
           false None eq_refl); cbn; lra.
Defined.

(* ================================================================= *)
(** ** Further properties: util.py *)

(** [apply_deadzone] in closed form, for a deadzone in [0, 1). *)
Lemma apply_deadzone_cases (v dz : R) :
  0 <= dz < 1 ->
  (Rabs v <= dz /\ util.apply_deadzone v dz = 0) \/
  (dz < v /\
   util.apply_deadzone v dz = Rmin 1 ((v - dz) / (1 - dz)) /\
   0 < (v - dz) / (1 - dz)) \/
  (v < - dz /\
   util.apply_deadzone v dz = - Rmin 1 ((- v - dz) / (1 - dz)) /\
   0 < (- v - dz) / (1 - dz)).
Proof.
  intros [H0 H1].
  assert (Hc : 0 < / (1 - dz)) by (apply Rinv_0_lt_compat; lra).
  unfold util.apply_deadzone.
  destruct (Rle_dec (Rabs v) dz) as [Hin|Hout]; [now left|right].
  destruct (Rlt_dec dz 1); [|lra].
  unfold Rabs in *. destruct (Rcase_abs v) as [Hneg|Hpos].
  - right. assert (Hv : v < - dz) by lra.
    assert (Hq : 0 < (- v - dz) / (1 - dz))
      by (apply Rmult_lt_0_compat; lra).
    repeat split; try assumption.
    destruct (Rgt_dec v 0); [lra|].
    unfold util.clamp, Rmin. cases_R.
  - left. assert (Hv : dz < v) by lra.
    assert (Hq : 0 < (v - dz) / (1 - dz))
      by (apply Rmult_lt_0_compat; lra).
    repeat split; try assumption.
    destruct (Rgt_dec v 0); [|lra].
    unfold util.clamp, Rmin. cases_R.
Qed.

Lemma apply_deadzone_all_dead (v dz : R) :
  1 <= dz -> util.apply_deadzone v dz = 0.
Proof.
  intros H. unfold util.apply_deadzone, util.clamp.
  destruct (Rle_dec (Rabs v) dz); [reflexivity|].
  destruct (Rlt_dec dz 1); [lra|]. cases_R.
Qed.

Ltac abs_lra :=
  unfold Rabs in *;
  repeat match goal with
    | H : context [Rcase_abs ?x] |- _ => destruct (Rcase_abs x)
    end;
  lra.

Lemma Rmin_1_pos (q : R) : 0 < q -> 0 < Rmin 1 q <= 1.
Proof. intros H. unfold Rmin. cases_R. Qed.

(** X3. For a deadzone [dz >= 0], [apply_deadzone] maps every raw axis
    value into [-1, 1]; it is 0 on the dead region [|v| <= dz]; for
    [dz < 1] it is positive right of the dead region, negative left of
    it, and 1 from full deflection ([v >= 1]) on; it is odd and
    non-decreasing in [v]. *)
Theorem apply_deadzone_shape (dz : R) :
  0 <= dz ->
  (forall v, -1 <= util.apply_deadzone v dz <= 1) /\
  (forall v, Rabs v <= dz -> util.apply_deadzone v dz = 0) /\
  (forall v, dz < 1 -> dz < v -> 0 < util.apply_deadzone v dz) /\
  (forall v, dz < 1 -> v < - dz -> util.apply_deadzone v dz < 0) /\
  (forall v, dz < 1 -> 1 <= v -> util.apply_deadzone v dz = 1) /\
  (forall v, util.apply_deadzone (- v) dz = - util.apply_deadzone v dz) /\
  (forall v1 v2,
     v1 <= v2 -> util.apply_deadzone v1 dz <= util.apply_deadzone v2 dz).
Proof.
  intros H0.
  destruct (Rle_lt_dec 1 dz) as [Hdead|Hlive].
  { repeat split; intros; rewrite ?apply_deadzone_all_dead by assumption;
      try lra. }
  assert (Hdz : 0 <= dz < 1) by lra.
  assert (Hc : 0 < / (1 - dz)) by (apply Rinv_0_lt_compat; lra).
  split; [|split; [|split; [|split; [|split; [|split]]]]].
  - intros v.
    destruct (apply_deadzone_cases v dz Hdz)
      as [[_ E]|[(_ & E & Hq)|(_ & E & Hq)]]; rewrite E;
      try pose proof (Rmin_1_pos _ Hq); lra.
  - intros v Hin. unfold util.apply_deadzone.
    destruct (Rle_dec (Rabs v) dz); [reflexivity|contradiction].
  - intros v _ Hv.
    destruct (apply_deadzone_cases v dz Hdz)
      as [[Hin E]|[(_ & E & Hq)|(Hn & E & Hq)]]; rewrite E.
    + unfold Rabs in Hin. destruct (Rcase_abs v); lra.
    + pose proof (Rmin_1_pos _ Hq). lra.
    + lra.
  - intros v _ Hv.
    destruct (apply_deadzone_cases v dz Hdz)
      as [[Hin E]|[(Hp & E & Hq)|(_ & E & Hq)]]; rewrite E.
    + unfold Rabs in Hin. destruct (Rcase_abs v); lra.
    + lra.
    + pose proof (Rmin_1_pos _ Hq). lra.
  - intros v _ Hv.
    destruct (apply_deadzone_cases v dz Hdz)
      as [[Hin E]|[(Hp & E & Hq)|(Hn & E & Hq)]]; rewrite E.
    + unfold Rabs in Hin. destruct (Rcase_abs v); lra.
    + apply Rmin_left.
      apply (Rmult_le_reg_r (1 - dz)); [lra|].
      unfold Rdiv. rewrite Rmult_assoc, Rinv_l; lra.
    + lra.
  - intros v.
    destruct (apply_deadzone_cases v dz Hdz)
      as [[Hin E]|[(Hp & E & Hq)|(Hn & E & Hq)]];
    destruct (apply_deadzone_cases (- v) dz Hdz)
      as [[Hin' E']|[(Hp' & E' & Hq')|(Hn' & E' & Hq')]];
    rewrite E, E'; try rewrite Rabs_Ropp in *;
    try (unfold Rabs in *; destruct (Rcase_abs v); lra); try lra;
    rewrite ?Ropp_involutive; try lra.
  - intros v1 v2 Hle.
    assert (Hmono : forall a b, a <= b ->
              Rmin 1 ((a - dz) / (1 - dz)) <= Rmin 1 ((b - dz) / (1 - dz))).
    { intros a b Hab. apply Rle_min_compat_l.
      apply Rmult_le_compat_r; lra. }
    destruct (apply_deadzone_cases v1 dz Hdz)
      as [[Hin E]|[(Hp & E & Hq)|(Hn & E & Hq)]];
    destruct (apply_deadzone_cases v2 dz Hdz)
      as [[Hin' E']|[(Hp' & E' & Hq')|(Hn' & E' & Hq')]];
    rewrite E, E';
    try pose proof (Rmin_1_pos _ Hq); try pose proof (Rmin_1_pos _ Hq');
    first
      [ lra
      | abs_lra
      | now apply Hmono
      | apply Ropp_le_contravar;
        replace (- v1 - dz) with ((- v1) - dz) by ring;
        replace (- v2 - dz) with ((- v2) - dz) by ring;
        apply Hmono; lra ].
Qed.

Lemma apply_deadzone_shape_witness :
  -1 <= util.apply_deadzone 0.5 config.RELAXED_DEADZONE <= 1 /\
  util.apply_deadzone 0.1 config.RELAXED_DEADZONE = 0.
Proof.
  assert (H : 0 <= config.RELAXED_DEADZONE)
    by (unfold config.RELAXED_DEADZONE; lra).
  destruct (apply_deadzone_shape config.RELAXED_DEADZONE H)
    as (Hrange & Hdead & _).
  split; [apply Hrange|]. apply Hdead.
  unfold config.RELAXED_DEADZONE, Rabs. destruct (Rcase_abs 0.1); lra.
Defined.

Lemma round_IZR (z : Z) : Py.round (IZR z) = z.
Proof.
  unfold Py.round. rewrite ZfloorZ.
  replace (IZR z - IZR z) with 0 by ring.
  destruct (Rlt_dec 0 (1 / 2)); [reflexivity|lra].
Qed.

(** [round] lands on one of the two integers around [x]. *)
Lemma round_floor_or_next (x : R) :
  Py.round x = Zfloor x \/
  (Py.round x = (Zfloor x + 1)%Z /\ 1 / 2 <= x - IZR (Zfloor x)).
Proof.
  unfold Py.round.
  destruct (Rlt_dec _ _); [now left|].
  destruct (Rgt_dec _ _); [right; split; [reflexivity|lra]|].
  destruct (Z.even _); [now left|right; split; [reflexivity|lra]].
Qed.

Lemma round_mono (x y : R) : x <= y -> (Py.round x <= Py.round y)%Z.
Proof.
  intros Hxy.
  pose proof (Zfloor_le x y Hxy) as Hf.
  pose proof (Zfloor_bound x) as [Hx1 Hx2].
  pose proof (Zfloor_bound y) as [Hy1 Hy2].
  destruct (Z.eq_dec (Zfloor x) (Zfloor y)) as [E|Hne].
  - unfold Py.round. rewrite E.
    destruct (Rlt_dec (x - IZR (Zfloor y)) (1 / 2));
      destruct (Rlt_dec (y - IZR (Zfloor y)) (1 / 2));
      destruct (Rgt_dec (x - IZR (Zfloor y)) (1 / 2));
      destruct (Rgt_dec (y - IZR (Zfloor y)) (1 / 2));
      destruct (Z.even (Zfloor y)); rewrite ?E in *; try lia; lra.
  - assert (Hlt : (Zfloor x + 1 <= Zfloor y)%Z) by lia.
    destruct (round_floor_or_next x) as [Ex|[Ex _]];
      destruct (round_floor_or_next y) as [Ey|[Ey _]]; lia.
Qed.

Lemma round_near (x : R) : Rabs (IZR (Py.round x) - x) <= 1 / 2.
Proof.
  pose proof (Zfloor_bound x) as [H1 H2].
  unfold Py.round.
  destruct (Rlt_dec _ _); [|destruct (Rgt_dec _ _);
                             [|destruct (Z.even _)]];
    rewrite ?plus_IZR; unfold Rabs; destruct (Rcase_abs _); lra.
Qed.

(** The two models of [int(round(.))] agree on a ratio of integers. *)
Lemma round_ratio (n d : Z) :
  (0 < d)%Z -> Py.round (IZR n / IZR d) = Py.round_div n d.
Proof.
  intros Hd.
  assert (HdR : 0 < IZR d) by now apply IZR_lt.
  pose proof (Z.div_mod n d ltac:(lia)) as Hdm.
  pose proof (Z.mod_pos_bound n d Hd) as [Hm0 Hm1].
  set (q := (n / d)%Z) in *. set (m := (n mod d)%Z) in *.
  assert (Hx : IZR n / IZR d = IZR q + IZR m / IZR d).
  { rewrite Hdm, plus_IZR, mult_IZR. field. lra. }
  assert (Hm0R : 0 <= IZR m) by now apply IZR_le.
  assert (Hm1R : IZR m < IZR d) by now apply IZR_lt.
  assert (Hfrac : 0 <= IZR m / IZR d < 1).
  { split.
    - apply Rmult_le_pos; [lra|]. left. now apply Rinv_0_lt_compat.
    - apply (Rmult_lt_reg_r (IZR d)); [lra|].
      unfold Rdiv. rewrite Rmult_assoc, Rinv_l; lra. }
  assert (Hfl : Zfloor (IZR n / IZR d) = q).
  { apply Zfloor_eq. rewrite Hx. lra. }
  unfold Py.round, Py.round_div. fold q m. rewrite Hfl.
  replace (IZR n / IZR d - IZR q) with (IZR m / IZR d) by (rewrite Hx; ring).
  assert (Hmd : IZR m / IZR d * IZR d = IZR m) by (field; lra).
  set (f := IZR m / IZR d) in *.
  assert (Hlt : f < 1 / 2 <-> (2 * m < d)%Z).
  { split; intros H.
    - apply lt_IZR. rewrite mult_IZR. nra.
    - apply IZR_lt in H. rewrite mult_IZR in H. nra. }
  assert (Hgt : f > 1 / 2 <-> (d < 2 * m)%Z).
  { split; intros H.
    - apply lt_IZR. rewrite mult_IZR. nra.
    - apply IZR_lt in H. rewrite mult_IZR in H. nra. }
  destruct (Rlt_dec _ _) as [H1|H1].
  - apply Hlt in H1. apply Z.ltb_lt in H1. now rewrite H1.
  - assert (E1 : (2 * m <? d)%Z = false)
      by (apply Z.ltb_ge; apply Z.nlt_ge; intros H; apply H1, Hlt, H).
    rewrite E1. destruct (Rgt_dec _ _) as [H2|H2].
    + apply Hgt in H2. apply Z.ltb_lt in H2. now rewrite H2.
    + assert (E2 : (d <? 2 * m)%Z = false)
        by (apply Z.ltb_ge; apply Z.nlt_ge; intros H; apply H2, Hgt, H).
      now rewrite E2.
Qed.

Lemma clamp_mono (x y lo hi : R) :
  x <= y -> util.clamp x lo hi <= util.clamp y lo hi \/ hi < lo.
Proof. intros H. unfold util.clamp. cases_R. Qed.

Lemma clamp_01_mono (x y : R) :
  x <= y -> util.clamp x 0 1 <= util.clamp y 0 1.
Proof. intros H. destruct (clamp_mono x y 0 1 H); lra. Qed.

(** X4. [ease_out_cubic] maps every [t] into [0, 1], is 0 up to [t = 0]
    and 1 from [t = 1] on, never decreases, and on [0, 1] runs ahead of
    the linear ramp: [ease_out_cubic t >= t]. *)
Theorem ease_out_cubic_shape :
  (forall t, 0 <= util.ease_out_cubic t <= 1) /\
  (forall t, t <= 0 -> util.ease_out_cubic t = 0) /\
  (forall t, 1 <= t -> util.ease_out_cubic t = 1) /\
  (forall t1 t2,
     t1 <= t2 -> util.ease_out_cubic t1 <= util.ease_out_cubic t2) /\
  (forall t, 0 <= t <= 1 -> t <= util.ease_out_cubic t).
Proof.
  assert (Hcube : forall u, 0 <= u <= 1 -> 0 <= u * u * u <= u).
  { intros u [H0 H1]. split; [repeat apply Rmult_le_pos; lra|].
    assert (0 <= u * u <= 1) by nra. nra. }
  repeat apply conj.
  - intros t. unfold util.ease_out_cubic.
    pose proof (clamp_within t 0 1 ltac:(lra)) as Hc.
    pose proof (Hcube (1 - util.clamp t 0 1) ltac:(lra)). split; lra.
  - intros t Ht. unfold util.ease_out_cubic.
    replace (util.clamp t 0 1) with 0 by (unfold util.clamp; cases_R).
    ring.
  - intros t Ht. unfold util.ease_out_cubic.
    replace (util.clamp t 0 1) with 1 by (unfold util.clamp; cases_R).
    ring.
  - intros t1 t2 Hle. unfold util.ease_out_cubic.
    pose proof (clamp_within t1 0 1 ltac:(lra)) as H1.
    pose proof (clamp_within t2 0 1 ltac:(lra)) as H2.
    pose proof (clamp_01_mono t1 t2 Hle) as Hm.
    set (a := 1 - util.clamp t1 0 1) in *.
    set (b := 1 - util.clamp t2 0 1) in *.
    assert (Hab : 0 <= b <= a) by (unfold a, b; lra).
    assert (b * b <= a * a) by nra.
    assert (b * b * b <= a * a * a) by nra.
    unfold a, b in *. lra.
  - intros t Ht. unfold util.ease_out_cubic.
    rewrite clamp_id by lra.
    pose proof (Hcube (1 - t) ltac:(lra)). lra.
Qed.

Lemma lerp_round_between (a b : Z) (t : R) :
  0 <= t <= 1 ->
  (Z.min a b <= Py.round (util.lerp (IZR a) (IZR b) t) <= Z.max a b)%Z.
Proof.
  intros Ht. unfold util.lerp.
  set (v := IZR a + (IZR b - IZR a) * t).
  assert (Hv : IZR (Z.min a b) <= v <= IZR (Z.max a b)).
  { destruct (Z.le_ge_cases a b) as [Hab|Hab].
    - rewrite Z.min_l, Z.max_r by lia. apply IZR_le in Hab.
      unfold v. split; nra.
    - rewrite Z.min_r, Z.max_l by lia. apply IZR_le in Hab.
      unfold v. split; nra. }
  rewrite <- (round_IZR (Z.min a b)), <- (round_IZR (Z.max a b)).
  split; apply round_mono; lra.
Qed.

(** X5. Every channel of [lerp_color c0 c1 t] lies between the same
    channel of [c0] and of [c1], whatever [t] is; the blend is [c0] up
    to [t = 0] and [c1] from [t = 1] on. *)
Theorem lerp_color_between (r0 g0 b0 r1 g1 b1 : Z) (t : R) :
  let c := util.lerp_color (r0, g0, b0) (r1, g1, b1) t in
  (Z.min r0 r1 <= fst (fst c) <= Z.max r0 r1)%Z /\
  (Z.min g0 g1 <= snd (fst c) <= Z.max g0 g1)%Z /\
  (Z.min b0 b1 <= snd c <= Z.max b0 b1)%Z /\
  (t <= 0 -> c = (r0, g0, b0)) /\
  (1 <= t -> c = (r1, g1, b1)).
Proof.
  cbv zeta. unfold util.lerp_color.
  pose proof (clamp_within t 0 1 ltac:(lra)) as Hc.
  cbn [fst snd].
  repeat apply conj; try (apply lerp_round_between; lra).
  - intros Ht.
    replace (util.clamp t 0 1) with 0 by (unfold util.clamp; cases_R).
    unfold util.lerp.
    repeat match goal with
      | |- context [IZR ?a + (IZR ?b - IZR ?a) * 0] =>
          replace (IZR a + (IZR b - IZR a) * 0) with (IZR a) by ring
      end.
    now rewrite !round_IZR.
  - intros Ht.
    replace (util.clamp t 0 1) with 1 by (unfold util.clamp; cases_R).
    unfold util.lerp.
    repeat match goal with
      | |- context [IZR ?a + (IZR ?b - IZR ?a) * 1] =>
          replace (IZR a + (IZR b - IZR a) * 1) with (IZR b) by ring
      end.
    now rewrite !round_IZR.
Qed.

Lemma snap_loop_inv (value window : Z) (snaps : list Z) :
  snap_inv value window snaps
    (fold_left (util.snap_step value window) snaps
       (value, (window + 1)%Z)).
Proof.
  induction snaps as [|s seen IH] using rev_ind.
  - left. cbn. repeat split. intros s [].
  - rewrite fold_left_app. cbn [fold_left].
    set (acc := fold_left _ seen _) in *.
    unfold util.snap_step.
    destruct ((Z.abs (value - s) <=? window)%Z
              && (Z.abs (value - s) <? snd acc)%Z) eqn:Htest.
    + apply andb_prop in Htest as [Hw Hd].
      apply Z.leb_le in Hw. apply Z.ltb_lt in Hd.
      right. cbn [fst snd].
      split; [apply in_or_app; right; now left|].
      split; [reflexivity|]. split; [exact Hw|].
      intros s' Hin. apply in_app_or in Hin as [Hin|[<-|[]]]; [|lia].
      destruct IH as [(_ & Hd0 & Hfar)|(_ & _ & _ & Hmin)].
      * specialize (Hfar s' Hin). lia.
      * specialize (Hmin s' Hin). lia.
    + apply andb_false_iff in Htest.
      destruct IH as [(Hv & Hd0 & Hfar)|(Hin0 & Hd0 & Hw0 & Hmin)].
      * left. repeat split; try assumption.
        intros s' Hin. apply in_app_or in Hin as [Hin|[<-|[]]];
          [now apply Hfar|].
        destruct Htest as [H|H]; [apply Z.leb_gt in H; lia|].
        apply Z.ltb_ge in H. lia.
      * right. repeat split; try assumption.
        -- apply in_or_app. now left.
        -- intros s' Hin. apply in_app_or in Hin as [Hin|[<-|[]]];
             [now apply Hmin|].
           destruct Htest as [H|H]; [apply Z.leb_gt in H; lia|].
           apply Z.ltb_ge in H. lia.
Qed.

(** X6. For a window [>= 0], [nearest_snap] returns the value itself or
    one of the snaps, never farther than the window from the value; it
    returns the value when no snap is within the window, and otherwise a
    snap that no other snap beats in distance. Snapping twice changes
    nothing. *)
Theorem nearest_snap_spec (value window : Z) (snaps : list Z) :
  (0 <= window)%Z ->
  let r := util.nearest_snap value snaps window in
  (r = value \/ In r snaps) /\
  (Z.abs (value - r) <= window)%Z /\
  ((forall s, In s snaps -> (window < Z.abs (value - s))%Z) -> r = value) /\
  (forall s,
     In s snaps -> (Z.abs (value - s) <= window)%Z ->
     In r snaps /\ (Z.abs (value - r) <= Z.abs (value - s))%Z) /\
  util.nearest_snap r snaps window = r.
Proof.
  intros Hw r.
  assert (Hspec : forall v,
            let r := util.nearest_snap v snaps window in
            (r = v \/ In r snaps) /\
            (Z.abs (v - r) <= window)%Z /\
            ((forall s, In s snaps -> (window < Z.abs (v - s))%Z) ->
             r = v) /\
            (forall s,
               In s snaps -> (Z.abs (v - s) <= window)%Z ->
               In r snaps /\ (Z.abs (v - r) <= Z.abs (v - s))%Z)).
  { intros v. cbv zeta. unfold util.nearest_snap.
    destruct (snap_loop_inv v window snaps)
      as [(Hv & _ & Hfar)|(Hin & Hd & Hwin & Hmin)].
    - rewrite Hv. repeat split.
      + now left.
      + rewrite Z.sub_diag. cbn. lia.
      + specialize (Hfar s H). lia.
      + specialize (Hfar s H). lia.
    - repeat split.
      + now right.
      + lia.
      + intros Hfar. specialize (Hfar _ Hin). lia.
      + assumption.
      + specialize (Hmin s H). lia. }
  destruct (Hspec value) as (H1 & H2 & H3 & H4). fold r in H1, H2, H3, H4.
  repeat split; try assumption; try (now apply (H4 s)).
  destruct H1 as [E|Hin].
  - unfold r in E |- *. rewrite E. exact E.
  - destruct (Hspec r) as (_ & _ & _ & H4').
    destruct (H4' r Hin) as [_ Hclose].
    + rewrite Z.sub_diag. cbn. lia.
    + rewrite Z.sub_diag in Hclose. cbn in Hclose.
      fold (util.nearest_snap r snaps window) in Hclose. lia.
Qed.

Lemma nearest_snap_spec_witness :
  util.nearest_snap (util.nearest_snap 58 [24; 30; 40; 60; 120]%Z 5)
    [24; 30; 40; 60; 120]%Z 5 =
  util.nearest_snap 58 [24; 30; 40; 60; 120]%Z 5.
Proof.
  assert (Hw : (0 <= 5)%Z) by lia.
  exact (proj2 (proj2 (proj2 (proj2
           (nearest_snap_spec 58 5 [24; 30; 40; 60; 120]%Z Hw))))).
Defined.

(* ================================================================= *)
(** ** Further properties: the sliders of ui.py *)











Lemma clamp_int_mono (a b lo hi : Z) :
  (lo <= hi)%Z -> (a <= b)%Z ->
  (util.clamp_int a lo hi <= util.clamp_int b lo hi)%Z.
Proof.
  intros Hr Hab. unfold util.clamp_int.
  destruct (a <? lo)%Z eqn:E1; destruct (b <? lo)%Z eqn:E2;
    destruct (hi <? a)%Z eqn:E3; destruct (hi <? b)%Z eqn:E4;
    rewrite ?Z.ltb_lt, ?Z.ltb_ge in *; lia.
Qed.

Lemma clamp_int_id (v lo hi : Z) :
  (lo <= v <= hi)%Z -> util.clamp_int v lo hi = v.
Proof.
  intros H. unfold util.clamp_int.
  destruct (v <? lo)%Z eqn:E1; destruct (hi <? v)%Z eqn:E2;
    rewrite ?Z.ltb_lt, ?Z.ltb_ge in *; lia.
Qed.

(** X8. On a slider without snaps and with [min_value <= max_value],
    the value read from the mouse never decreases as the mouse moves
    right; it is [min_value] at and left of the start of the track and
    [max_value] at and right of its end. *)
Theorem slider_follows_mouse (s : SliderWithBoxRow.t) (srect_x srect_w : Z) :
  SliderWithBoxRow.snaps s = [] ->
  (SliderWithBoxRow.min_value s <= SliderWithBoxRow.max_value s)%Z ->
  (forall mx,
     (mx <= srect_x)%Z ->
     SliderWithBoxRow._value_from_mouse s srect_x srect_w mx =
     SliderWithBoxRow.min_value s) /\
  (forall mx,
     (srect_x + Z.max 1 srect_w <= mx)%Z ->
     SliderWithBoxRow._value_from_mouse s srect_x srect_w mx =
     SliderWithBoxRow.max_value s) /\
  (forall mx1 mx2,
     (mx1 <= mx2)%Z ->
     (SliderWithBoxRow._value_from_mouse s srect_x srect_w mx1
      <= SliderWithBoxRow._value_from_mouse s srect_x srect_w mx2)%Z).
Proof.
  intros Hsnaps Hr.
  assert (Hw : 0 < IZR (Z.max 1 srect_w)) by (apply IZR_lt; lia).
  assert (Hspan : 0 <= IZR (SliderWithBoxRow.max_value s
                            - SliderWithBoxRow.min_value s))
    by (apply IZR_le; lia).
  unfold SliderWithBoxRow._value_from_mouse. rewrite Hsnaps.
  repeat apply conj.
  - intros mx Hmx.
    assert (Hq : IZR (mx - srect_x) / IZR (Z.max 1 srect_w) <= 0).
    { assert (IZR (mx - srect_x) <= 0) by (apply IZR_le; lia).
      unfold Rdiv. pose proof (Rinv_0_lt_compat _ Hw). nra. }
    replace (util.clamp _ 0 1) with 0 by (unfold util.clamp; cases_R).
    rewrite Rmult_0_l, Rplus_0_r, round_IZR. apply clamp_int_id. lia.
  - intros mx Hmx.
    assert (Hq : 1 <= IZR (mx - srect_x) / IZR (Z.max 1 srect_w)).
    { assert (IZR (Z.max 1 srect_w) <= IZR (mx - srect_x))
        by (apply IZR_le; lia).
      apply (Rmult_le_reg_r (IZR (Z.max 1 srect_w))); [exact Hw|].
      unfold Rdiv. rewrite Rmult_assoc, Rinv_l; lra. }
    replace (util.clamp _ 0 1) with 1 by (unfold util.clamp; cases_R).
    rewrite Rmult_1_l, <- plus_IZR, round_IZR.
    rewrite clamp_int_id; lia.
  - intros mx1 mx2 Hle.
    apply clamp_int_mono; [exact Hr|]. apply round_mono.
    apply Rplus_le_compat_l. apply Rmult_le_compat_r; [exact Hspan|].
    apply clamp_01_mono. apply Rmult_le_compat_r.
    + left. now apply Rinv_0_lt_compat.
    + apply IZR_le. lia.
Qed.

Lemma slider_follows_mouse_witness :
  SliderWithBoxRow._value_from_mouse
    (SliderWithBoxRow.mk 120 500 165 [] 6 false 0) 170 300 100 = 120%Z.
Proof.
  assert (Hr : (120 <= 500)%Z) by lia.
  apply (proj1 (slider_follows_mouse
                  (SliderWithBoxRow.mk 120 500 165 [] 6 false 0)
                  170 300 eq_refl Hr)).
  lia.
Defined.

(* ================================================================= *)
(** ** Further properties: simulation.py *)

Lemma clamp_idem (x lo hi : R) :
  lo <= hi -> util.clamp (util.clamp x lo hi) lo hi = util.clamp x lo hi.
Proof. intros H. apply clamp_id. now apply clamp_within. Qed.

Lemma room_for_R (radius w h margin : Z) :
  room_for radius w h margin ->
  IZR (margin + radius) <= IZR (w - margin - radius) /\
  IZR (margin + radius) <= IZR (h - margin - radius).
Proof. intros [Hw Hh]. split; now apply IZR_le. Qed.

(** With its two limits crossed, [clamp] answers one of them, and
    the other one when given the first. *)
Lemma clamp_crossed (x lo hi : R) :
  hi < lo ->
  util.clamp (util.clamp x lo hi) lo hi <> util.clamp x lo hi.
Proof. intros H. unfold util.clamp. cases_R. Qed.

(** X9. In a window with room for the ball, [clamp_state_to_bounds]
    leaves [pos] and [prev_pos] inside the ball's play area, and an
    enabled target inside its own when the window has room for it; it
    touches nothing else, neither the ball's radius, speed and visual
    nor any field of the target but the position, leaves a disabled
    target alone, and changes nothing at all in a state that is already
    inside. Clamping twice is clamping once when the target is disabled
    or the window has room for it; with an enabled target in a window
    without room for it, a second call always moves the target again. *)
Theorem clamp_state_to_bounds_spec (state : EngineState.t) (w h margin : Z) :
  room_for (EngineState.ball_radius state) w h margin ->
  let br := EngineState.ball_radius state in
  let tg := EngineState.target state in
  let state' := clamp_state_to_bounds state w h margin in
  let tg' := EngineState.target state' in
  in_bounds (EngineState.pos state') br w h margin /\
  in_bounds (EngineState.prev_pos state') br w h margin /\
  EngineState.ball_radius state' = br /\
  EngineState.ball_speed state' = EngineState.ball_speed state /\
  EngineState.visual state' = EngineState.visual state /\
  (TargetState.enabled tg' = TargetState.enabled tg /\
   TargetState.vel tg' = TargetState.vel tg /\
   TargetState.size_pct tg' = TargetState.size_pct tg /\
   TargetState.speed_px_s tg' = TargetState.speed_px_s tg /\
   TargetState.radius_px tg' = TargetState.radius_px tg /\
   TargetState.hit_flash_elapsed tg' = TargetState.hit_flash_elapsed tg) /\
  (TargetState.enabled tg = false -> tg' = tg) /\
  (TargetState.enabled tg = true ->
   room_for (TargetState.radius_px tg) w h margin ->
   in_bounds (TargetState.pos tg') (TargetState.radius_px tg) w h margin /\
   clamp_state_to_bounds state' w h margin = state') /\
  (TargetState.enabled tg = true ->
   ~ room_for (TargetState.radius_px tg) w h margin ->
   clamp_state_to_bounds state' w h margin <> state') /\
  (TargetState.enabled tg = false ->
   clamp_state_to_bounds state' w h margin = state') /\
  (in_bounds (EngineState.pos state) br w h margin ->
   in_bounds (EngineState.prev_pos state) br w h margin ->
   (TargetState.enabled tg = true ->
    in_bounds (TargetState.pos tg) (TargetState.radius_px tg) w h margin) ->
   state' = state).
Proof.
  intros Hroom br tg state' tg'.
  destruct (room_for_R _ _ _ _ Hroom) as [Hbx Hby]. fold br in Hbx, Hby.
  destruct state as [p q r sp vis t]. cbn in br, tg. subst br tg.
  unfold tg', state', clamp_state_to_bounds, in_bounds.
  cbn [EngineState.pos EngineState.prev_pos EngineState.ball_radius
       EngineState.ball_speed EngineState.visual EngineState.target
       Vector2.x Vector2.y] in *.
  split; [split; now apply clamp_within|].
  split; [split; now apply clamp_within|].
  split; [reflexivity|]. split; [reflexivity|]. split; [reflexivity|].
  split.
  { destruct (TargetState.enabled t) eqn:Hon; cbn [TargetState.enabled
      TargetState.vel TargetState.size_pct TargetState.speed_px_s
      TargetState.radius_px TargetState.hit_flash_elapsed];
      rewrite ?Hon; repeat split. }
  split; [intros ->; reflexivity|]. split; [|split; [|split]].
  - intros Hon Hroomt. rewrite Hon.
    destruct (room_for_R _ _ _ _ Hroomt) as [Htx Hty].
    cbn [TargetState.pos TargetState.enabled TargetState.radius_px
         Vector2.x Vector2.y].
    split; [split; now apply clamp_within|].
    now rewrite !clamp_idem.
  - intros Hon Hnoroom. rewrite Hon.
    cbn [TargetState.pos TargetState.enabled TargetState.radius_px
         Vector2.x Vector2.y].
    intros E.
    assert (Ex : util.clamp
                   (util.clamp (Vector2.x (TargetState.pos t))
                      (IZR (margin + TargetState.radius_px t))
                      (IZR (w - margin - TargetState.radius_px t)))
                   (IZR (margin + TargetState.radius_px t))
                   (IZR (w - margin - TargetState.radius_px t))
                 = util.clamp (Vector2.x (TargetState.pos t))
                     (IZR (margin + TargetState.radius_px t))
                     (IZR (w - margin - TargetState.radius_px t)))
      by congruence.
    assert (Ey : util.clamp
                   (util.clamp (Vector2.y (TargetState.pos t))
                      (IZR (margin + TargetState.radius_px t))
                      (IZR (h - margin - TargetState.radius_px t)))
                   (IZR (margin + TargetState.radius_px t))
                   (IZR (h - margin - TargetState.radius_px t))
                 = util.clamp (Vector2.y (TargetState.pos t))
                     (IZR (margin + TargetState.radius_px t))
                     (IZR (h - margin - TargetState.radius_px t)))
      by congruence.
    apply Hnoroom. split.
    + destruct (Z.le_gt_cases (margin + TargetState.radius_px t)
                  (w - margin - TargetState.radius_px t)) as [|Hc];
        [assumption|].
      apply IZR_lt in Hc. now apply clamp_crossed in Ex.
    + destruct (Z.le_gt_cases (margin + TargetState.radius_px t)
                  (h - margin - TargetState.radius_px t)) as [|Hc];
        [assumption|].
      apply IZR_lt in Hc. now apply clamp_crossed in Ey.
  - intros Hoff. rewrite Hoff. cbv iota. rewrite Hoff.
    now rewrite !clamp_idem.
  - intros [Hpx Hpy] [Hqx Hqy] Ht.
    rewrite !clamp_id by assumption.
    destruct p as [px py], q as [qx qy]. cbn [Vector2.x Vector2.y].
    f_equal. destruct (TargetState.enabled t) eqn:Hon; [|reflexivity].
    destruct (Ht eq_refl) as [Htx Hty].
    rewrite !clamp_id by assumption.
    destruct t as [e tp tv sz spd rad fl]. cbn in *. subst e.
    now destruct tp.
Qed.

Lemma clamp_state_to_bounds_spec_witness :
  in_bounds (EngineState.pos (clamp_state_to_bounds wall_state 800 600 12))
    14 800 600 12.
Proof.
  refine (proj1 (clamp_state_to_bounds_spec wall_state 800 600 12 _)).
  split; cbv; discriminate.
Defined.

(** What [reset] returns, field by field. *)
Lemma reset_spec (tg : TargetState.t) (rnd : R) (w h margin br : Z) :
  exists tg',
    TargetState.reset tg rnd w h margin br = Some tg' /\
    TargetState.enabled tg' = TargetState.enabled tg /\
    TargetState.size_pct tg' = TargetState.size_pct tg /\
    TargetState.speed_px_s tg' = TargetState.speed_px_s tg /\
    TargetState.radius_px tg' = TargetState._compute_radius tg br /\
    TargetState.hit_flash_elapsed tg' = config.TARGET_FLASH_DURATION_S /\
    Vector2.length (TargetState.vel tg') =
      Rabs (IZR (TargetState.speed_px_s tg)) /\
    TargetState.pos tg' =
      Vector2.mk
        (util.clamp (IZR w * 0.65)
           (IZR (margin + TargetState._compute_radius tg br))
           (IZR (w - margin - TargetState._compute_radius tg br)))
        (util.clamp (IZR h * 0.45)
           (IZR (margin + TargetState._compute_radius tg br))
           (IZR (h - margin - TargetState._compute_radius tg br))).
Proof.
  unfold TargetState.reset.
  destruct (rescale_vel_spec
              (Vector2.mk (cos (rnd * (2 * PI))) (sin (rnd * (2 * PI))))
              (TargetState.speed_px_s tg)) as (n & Hr & Hn & _).
  rewrite Hr. eexists. split; [reflexivity|]. cbn.
  repeat split. now rewrite length_scale, Hn, Rmult_1_r.
Qed.

(** What [set_params] returns, field by field. *)
Lemma set_params_spec (tg : TargetState.t) (br size speed : Z) :
  exists tg',
    TargetState.set_params tg br size speed = Some tg' /\
    TargetState.enabled tg' = TargetState.enabled tg /\
    TargetState.pos tg' = TargetState.pos tg /\
    TargetState.hit_flash_elapsed tg' = TargetState.hit_flash_elapsed tg /\
    TargetState.size_pct tg' =
      util.clamp_int size config.TARGET_SIZE_PCT_MIN
        config.TARGET_SIZE_PCT_MAX /\
    TargetState.speed_px_s tg' =
      util.clamp_int speed config.TARGET_SPEED_PX_S_MIN
        config.TARGET_SPEED_PX_S_MAX /\
    target_configured tg' br.
Proof.
  unfold TargetState.set_params.
  set (sp := util.clamp_int speed _ _).
  set (sz := util.clamp_int size _ _).
  assert (Hsp : (config.TARGET_SPEED_PX_S_MIN <= sp
                 <= config.TARGET_SPEED_PX_S_MAX)%Z)
    by (apply clamp_int_within; cbv; discriminate).
  assert (Hsz : (config.TARGET_SIZE_PCT_MIN <= sz
                 <= config.TARGET_SIZE_PCT_MAX)%Z)
    by (apply clamp_int_within; cbv; discriminate).
  destruct (rescale_vel_spec (TargetState.vel tg) sp) as (n & Hr & Hn & _).
  rewrite Hr. eexists. split; [reflexivity|]. cbn.
  repeat split; try apply Hsz; try apply Hsp.
  apply (scaled_unit_moves n sp Hn). apply Hsp.
Qed.

Lemma Rabs_eq_sq (a b : R) : Rabs a = Rabs b -> a * a = b * b.
Proof.
  intros H. unfold Rabs in H.
  destruct (Rcase_abs a); destruct (Rcase_abs b); nra.
Qed.

(** What a step leaves of the target's configuration: everything but
    the position, the signs of the velocity and the flash timer. *)
Lemma engine_step_target_frame
    state dt w h margin lx ly edges any override :
  let tg := EngineState.target state in
  let tg' :=
    EngineState.target
      (engine_step state dt w h margin lx ly edges any override) in
  TargetState.enabled tg' = TargetState.enabled tg /\
  TargetState.size_pct tg' = TargetState.size_pct tg /\
  TargetState.speed_px_s tg' = TargetState.speed_px_s tg /\
  TargetState.radius_px tg' = TargetState.radius_px tg /\
  Rabs (Vector2.x (TargetState.vel tg')) =
    Rabs (Vector2.x (TargetState.vel tg)) /\
  Rabs (Vector2.y (TargetState.vel tg')) =
    Rabs (Vector2.y (TargetState.vel tg)) /\
  Vector2.length (TargetState.vel tg') = Vector2.length (TargetState.vel tg).
Proof.
  cbv zeta.
  assert (Hlen : forall v v' : Vector2.t,
            Rabs (Vector2.x v') = Rabs (Vector2.x v) ->
            Rabs (Vector2.y v') = Rabs (Vector2.y v) ->
            Vector2.length v' = Vector2.length v).
  { intros v v' Hx Hy. unfold Vector2.length, Vector2.length_squared.
    now rewrite (Rabs_eq_sq _ _ Hx), (Rabs_eq_sq _ _ Hy). }
  destruct (TargetState.enabled (EngineState.target state)) eqn:Hon.
  - destruct (engine_step_target_motion state dt w h margin lx ly edges
                any override Hon) as (_ & Hv & He & Hr).
    assert (Hx : Rabs (Vector2.x (TargetState.vel
                   (EngineState.target
                      (engine_step state dt w h margin lx ly edges any
                         override)))) =
                 Rabs (Vector2.x (TargetState.vel (EngineState.target state))))
      by (rewrite Hv; apply reflect_axis_speed).
    assert (Hy : Rabs (Vector2.y (TargetState.vel
                   (EngineState.target
                      (engine_step state dt w h margin lx ly edges any
                         override)))) =
                 Rabs (Vector2.y (TargetState.vel (EngineState.target state))))
      by (rewrite Hv; apply reflect_axis_speed).
    split; [exact He|].
    repeat split; try assumption; try (now apply Hlen).
    + unfold engine_step. cbn [EngineState.target]. rewrite Hon.
      destruct (reflect_axis (Vector2.x _) _ _ _).
      now destruct (reflect_axis (Vector2.y _) _ _ _).
    + unfold engine_step. cbn [EngineState.target]. rewrite Hon.
      destruct (reflect_axis (Vector2.x _) _ _ _).
      now destruct (reflect_axis (Vector2.y _) _ _ _).
  - replace (EngineState.target
               (engine_step state dt w h margin lx ly edges any override))
      with (EngineState.target state)
      by (unfold engine_step; cbn [EngineState.target]; now rewrite Hon).
    rewrite Hon. repeat split.
Qed.

(** X10. [set_target_enabled] always returns.  Disabling only clears
    the flag.  Enabling re-places the target: radius recomputed from its
    size, flash timer at its end, velocity of the stored speed, position
    inside the play area when the window has room; the ball is untouched
    either way. *)
Theorem set_target_enabled_spec
    (state : EngineState.t) (enabled : bool) (rnd : R) (w h margin : Z) :
  exists state',
    set_target_enabled state enabled rnd w h margin = Some state' /\
    let tg := EngineState.target state in
    let tg' := EngineState.target state' in
    let tr := TargetState._compute_radius tg (EngineState.ball_radius state) in
    EngineState.pos state' = EngineState.pos state /\
    EngineState.prev_pos state' = EngineState.prev_pos state /\
    EngineState.ball_radius state' = EngineState.ball_radius state /\
    EngineState.ball_speed state' = EngineState.ball_speed state /\
    EngineState.visual state' = EngineState.visual state /\
    TargetState.enabled tg' = enabled /\
    TargetState.size_pct tg' = TargetState.size_pct tg /\
    TargetState.speed_px_s tg' = TargetState.speed_px_s tg /\
    (enabled = false ->
     TargetState.pos tg' = TargetState.pos tg /\
     TargetState.vel tg' = TargetState.vel tg /\
     TargetState.radius_px tg' = TargetState.radius_px tg /\
     TargetState.hit_flash_elapsed tg' = TargetState.hit_flash_elapsed tg) /\
    (enabled = true ->
     TargetState.radius_px tg' = tr /\
     TargetState.hit_flash_elapsed tg' = config.TARGET_FLASH_DURATION_S /\
     Vector2.length (TargetState.vel tg') =
       Rabs (IZR (TargetState.speed_px_s tg)) /\
     (room_for tr w h margin ->
      in_bounds (TargetState.pos tg') tr w h margin)).
Proof.
  unfold set_target_enabled. destruct enabled.
  - set (tg1 := TargetState.mk true _ _ _ _ _ _).
    destruct (reset_spec tg1 rnd w h margin (EngineState.ball_radius state))
      as (tg2 & Hr & He & Hsz & Hsp & Hrad & Hfl & Hlen & Hpos).
    rewrite Hr. eexists. split; [reflexivity|].
    cbv zeta. cbn [with_target EngineState.pos EngineState.prev_pos
      EngineState.ball_radius EngineState.ball_speed EngineState.visual
      EngineState.target].
    do 5 (split; [reflexivity|]).
    split; [exact He|]. split; [exact Hsz|]. split; [exact Hsp|].
    split; [discriminate|]. intros _.
    split; [exact Hrad|]. split; [exact Hfl|]. split; [exact Hlen|].
    intros Hroom. destruct (room_for_R _ _ _ _ Hroom) as [Hx Hy].
    rewrite Hpos. split; cbn [Vector2.x Vector2.y]; now apply clamp_within.
  - eexists. split; [reflexivity|]. cbn.
    do 8 (split; [reflexivity|]). split; [|discriminate].
    intros _. repeat split.
Qed.

(** X11. [make_initial_state] always returns: the ball in the middle of
    the window, at rest ([prev_pos = pos]), with the radius and speed of
    [config]; the glow and flash timers at their ends; the target
    disabled, with the default size and speed, the radius
    [round(14 * 1.65) = 23] and a velocity of length 170, inside its
    play area when the window has room for it. *)
Theorem make_initial_state_spec (rnd : R) (w h margin : Z) :
  exists state,
    make_initial_state rnd w h margin = Some state /\
    let tg := EngineState.target state in
    EngineState.pos state = Vector2.mk (IZR w * 0.5) (IZR h * 0.5) /\
    EngineState.prev_pos state = EngineState.pos state /\
    EngineState.ball_radius state = config.BALL_RADIUS /\
    EngineState.ball_speed state = config.BALL_SPEED_PX_S /\
    EngineState.visual state = BallVisual.default /\
    TargetState.enabled tg = false /\
    TargetState.size_pct tg = config.TARGET_SIZE_PCT_DEFAULT /\
    TargetState.speed_px_s tg = config.TARGET_SPEED_PX_S_DEFAULT /\
    TargetState.radius_px tg = 23%Z /\
    TargetState.hit_flash_elapsed tg = config.TARGET_FLASH_DURATION_S /\
    Vector2.length (TargetState.vel tg) = 170 /\
    (room_for 23 w h margin ->
     in_bounds (TargetState.pos tg) 23 w h margin).
Proof.
  unfold make_initial_state.
  destruct (set_params_spec (TargetState.default false) config.BALL_RADIUS
              config.TARGET_SIZE_PCT_DEFAULT config.TARGET_SPEED_PX_S_DEFAULT)
    as (t1 & H1 & He1 & _ & _ & Hsz1 & Hsp1 & _).
  rewrite H1.
  destruct (reset_spec t1 rnd w h margin config.BALL_RADIUS)
    as (t2 & H2 & He2 & Hsz2 & Hsp2 & Hrad & Hfl & Hlen & Hpos).
  rewrite H2. eexists. split; [reflexivity|].
  cbv zeta. cbn [EngineState.pos EngineState.prev_pos
    EngineState.ball_radius EngineState.ball_speed EngineState.visual
    EngineState.target].
  change (util.clamp_int config.TARGET_SIZE_PCT_DEFAULT
            config.TARGET_SIZE_PCT_MIN config.TARGET_SIZE_PCT_MAX)
    with 165%Z in Hsz1.
  change (util.clamp_int config.TARGET_SPEED_PX_S_DEFAULT
            config.TARGET_SPEED_PX_S_MIN config.TARGET_SPEED_PX_S_MAX)
    with 170%Z in Hsp1.
  assert (Hr23 : TargetState._compute_radius t1 config.BALL_RADIUS = 23%Z).
  { unfold TargetState._compute_radius. rewrite Hsz1. reflexivity. }
  rewrite Hr23 in Hrad, Hpos.
  do 5 (split; [reflexivity|]).
  split; [now rewrite He2, He1|].
  split; [now rewrite Hsz2, Hsz1|].
  split; [now rewrite Hsp2, Hsp1|].
  split; [exact Hrad|]. split; [exact Hfl|].
  split.
  - rewrite Hlen, Hsp1. rewrite Rabs_right; lra.
  - intros Hroom. destruct (room_for_R _ _ _ _ Hroom) as [Hx Hy].
    rewrite Hpos. split; cbn [Vector2.x Vector2.y]; now apply clamp_within.
Qed.

(** *** The states [main] can hold *)

Lemma reset_configured (tg tg' : TargetState.t) (rnd : R)
    (w h margin br : Z) :
  (config.TARGET_SIZE_PCT_MIN <= TargetState.size_pct tg
   <= config.TARGET_SIZE_PCT_MAX)%Z ->
  speed_configured tg ->
  TargetState.reset tg rnd w h margin br = Some tg' ->
  target_configured tg' br.
Proof.
  intros Hsz Hsp Hreset.
  destruct (reset_spec tg rnd w h margin br)
    as (tg2 & Hr & _ & Hsz2 & Hsp2 & Hrad & _ & Hlen & _).
  rewrite Hreset in Hr. injection Hr as <-.
  unfold target_configured, speed_configured in *.
  rewrite Hsz2, Hsp2. split; [exact Hsz|]. split; [exact Hsp|].
  split.
  - rewrite Hrad. unfold TargetState._compute_radius. now rewrite Hsz2.
  - rewrite Hlen. apply Rabs_right. apply Rle_ge. apply IZR_le.
    unfold config.TARGET_SPEED_PX_S_MIN in Hsp. lia.
Qed.

(** What every state [main] can hold has: the ball of [config] and a
    target as [set_params] configures it. *)
Lemma reachable_inv (s : EngineState.t) :
  reachable s ->
  EngineState.ball_radius s = config.BALL_RADIUS /\
  EngineState.ball_speed s = config.BALL_SPEED_PX_S /\
  target_configured (EngineState.target s) (EngineState.ball_radius s).
Proof.
  induction 1 as [rnd w h margin s Hinit
                 | s dt w h margin lx ly edges any override _ IH
                 | s w h margin _ IH
                 | s enabled rnd w h margin s' _ IH Hen
                 | s size speed tg _ IH Hset].
  - unfold make_initial_state in Hinit.
    destruct (set_params_spec (TargetState.default false) config.BALL_RADIUS
                config.TARGET_SIZE_PCT_DEFAULT
                config.TARGET_SPEED_PX_S_DEFAULT)
      as (t1 & H1 & _ & _ & _ & _ & _ & Hc1).
    rewrite H1 in Hinit.
    destruct (TargetState.reset t1 rnd w h margin config.BALL_RADIUS)
      as [t2|] eqn:H2; [|discriminate].
    injection Hinit as <-.
    cbn [EngineState.ball_radius EngineState.ball_speed EngineState.target].
    split; [reflexivity|]. split; [reflexivity|].
    destruct Hc1 as (Hsz & Hsp & _).
    exact (reset_configured _ _ _ _ _ _ _ Hsz Hsp H2).
  - destruct IH as (Hbr & Hbs & Hsz & Hsp & Hrad & Hlen).
    destruct (engine_step_target_frame s dt w h margin lx ly edges any
                override) as (_ & Esz & Esp & Erad & _ & _ & Elen).
    rewrite engine_step_ball_radius.
    split; [exact Hbr|]. split; [exact Hbs|].
    unfold target_configured, speed_configured, TargetState._compute_radius
      in *.
    rewrite Esz, Esp, Erad, Elen.
    split; [exact Hsz|]. split; [exact Hsp|]. split; assumption.
  - destruct IH as (Hbr & Hbs & Hc).
    unfold clamp_state_to_bounds.
    cbn [EngineState.ball_radius EngineState.ball_speed EngineState.target].
    split; [exact Hbr|]. split; [exact Hbs|].
    destruct (TargetState.enabled (EngineState.target s)); exact Hc.
  - destruct IH as (Hbr & Hbs & Hsz & Hsp & Hrad & Hlen).
    unfold set_target_enabled in Hen. destruct enabled.
    + destruct (TargetState.reset _ rnd w h margin _) as [tg2|] eqn:Hr;
        [|discriminate].
      injection Hen as <-.
      cbn [with_target EngineState.ball_radius EngineState.ball_speed
           EngineState.target].
      split; [exact Hbr|]. split; [exact Hbs|].
      apply (reset_configured _ _ _ _ _ _ _) with (3 := Hr).
      * exact Hsz.
      * exact Hsp.
    + injection Hen as <-.
      cbn [with_target EngineState.ball_radius EngineState.ball_speed
           EngineState.target].
      split; [exact Hbr|]. split; [exact Hbs|].
      split; [exact Hsz|]. split; [exact Hsp|]. split; assumption.
  - destruct IH as (Hbr & Hbs & _).
    destruct (set_params_spec (EngineState.target s)
                (EngineState.ball_radius s) size speed)
      as (tg' & Hs & _ & _ & _ & _ & _ & Hc).
    rewrite Hset in Hs. injection Hs as <-.
    cbn [with_target EngineState.ball_radius EngineState.ball_speed
         EngineState.target].
    split; [exact Hbr|]. split; [exact Hbs|]. exact Hc.
Qed.

Lemma ball_radius_nonneg : (0 <= config.BALL_RADIUS)%Z.
Proof. cbv. discriminate. Qed.

Lemma compute_radius_mono (tg tg' : TargetState.t) (br : Z) :
  (0 <= br)%Z ->
  (TargetState.size_pct tg <= TargetState.size_pct tg')%Z ->
  (TargetState._compute_radius tg br
   <= TargetState._compute_radius tg' br)%Z.
Proof.
  intros Hbr Hle. unfold TargetState._compute_radius.
  rewrite <- !round_ratio by lia. apply round_mono.
  apply Rmult_le_compat_r; [lra|]. apply IZR_le. nia.
Qed.

Lemma reachable_radius (s : EngineState.t) :
  reachable s ->
  (17 <= TargetState.radius_px (EngineState.target s) <= 70)%Z.
Proof.
  intros Hs. destruct (reachable_inv s Hs) as (Hbr & _ & Hsz & _ & Hrad & _).
  rewrite Hrad, Hbr.
  set (tg := EngineState.target s) in *.
  pose (lo := TargetState.mk false (Vector2.mk 0 0) (Vector2.mk 0 0)
                config.TARGET_SIZE_PCT_MIN 0 0 0).
  pose (hi := TargetState.mk false (Vector2.mk 0 0) (Vector2.mk 0 0)
                config.TARGET_SIZE_PCT_MAX 0 0 0).
  change 17%Z with (TargetState._compute_radius lo config.BALL_RADIUS).
  change 70%Z with (TargetState._compute_radius hi config.BALL_RADIUS).
  split; apply compute_radius_mono;
    try apply ball_radius_nonneg; apply Hsz.
Qed.

(** Enabling the target of the initial state of the default window when
    [random.random()] returns 0 gives [demo_state true]. *)
Lemma set_target_enabled_demo :
  set_target_enabled (demo_state false) true 0 1280 720 12 =
  Some (demo_state true).
Proof.
  unfold set_target_enabled, TargetState.reset.
  cbn [demo_state demo_target EngineState.target EngineState.ball_radius
       TargetState.speed_px_s TargetState.size_pct TargetState.pos
       TargetState.vel TargetState.radius_px TargetState.hit_flash_elapsed].
  replace (0 * (2 * PI)) with 0 by ring. rewrite cos_0, sin_0.
  rewrite rescale_vel_unit_x.
  unfold with_target, demo_state, demo_target. cbn.
  do 2 f_equal. unfold util.clamp. repeat (case_R; try lra).
  f_equal. f_equal; lra.
Qed.

Lemma demo_state_reachable (e : bool) : reachable (demo_state e).
Proof.
  assert (H0 : reachable (demo_state false))
    by exact (reach_init _ _ _ _ _ make_initial_state_demo).
  destruct e; [|exact H0].
  exact (reach_enable _ _ _ _ _ _ _ H0 set_target_enabled_demo).
Qed.

(** X12. Every state [main] can hold has the ball of [config] (radius
    14, speed 700) and a configured target: size within [120, 500] per
    cent, speed within [60, 420], radius [round(14 * size_pct / 100)],
    hence within [17, 70] and larger than the ball, and a velocity whose
    length is the configured speed, so the target never stands still. *)
Theorem reachable_state_configured (s : EngineState.t) :
  reachable s ->
  let tg := EngineState.target s in
  EngineState.ball_radius s = 14%Z /\
  EngineState.ball_speed s = 700 /\
  (120 <= TargetState.size_pct tg <= 500)%Z /\
  (60 <= TargetState.speed_px_s tg <= 420)%Z /\
  TargetState.radius_px tg =
    Py.round_div (14 * TargetState.size_pct tg) 100 /\
  (17 <= TargetState.radius_px tg <= 70)%Z /\
  Vector2.length (TargetState.vel tg) = IZR (TargetState.speed_px_s tg) /\
  60 <= Vector2.length (TargetState.vel tg) <= 420.
Proof.
  intros Hs tg.
  pose proof (reachable_radius s Hs) as Hr17.
  destruct (reachable_inv s Hs) as (Hbr & Hbs & Hsz & Hsp & Hrad & Hlen).
  fold tg in Hsz, Hsp, Hrad, Hlen, Hr17.
  split; [exact Hbr|]. split; [exact Hbs|].
  split; [exact Hsz|]. split; [exact Hsp|].
  split; [rewrite Hrad, Hbr; reflexivity|].
  split; [exact Hr17|]. split; [exact Hlen|].
  rewrite Hlen. destruct Hsp as [Hlo Hhi].
  unfold config.TARGET_SPEED_PX_S_MIN, config.TARGET_SPEED_PX_S_MAX in *.
  split; apply IZR_le; assumption.
Qed.

Lemma reachable_state_configured_witness :
  let s :=
    engine_step (demo_state false) (1 / 60) 1280 720 12 1 0 [] false None in
  (17 <= TargetState.radius_px (EngineState.target s) <= 70)%Z.
Proof.
  intros s.
  exact (proj1 (proj2 (proj2 (proj2 (proj2 (proj2
    (reachable_state_configured s
       (reach_step _ _ _ _ _ _ _ _ _ _
          (reach_init _ _ _ _ _ make_initial_state_demo))))))))).
Defined.

(** X13. In a state [main] can hold the hit zone is a proper disc: with
    the target enabled and a button edge in the tick, the flash is reset
    exactly when the ball's centre, as the tick leaves it, is within
    [target.radius - 14] of the target's, a distance of at least 3 px;
    otherwise the timer only advances. *)
Theorem reachable_hit_zone
    state dt w h margin lx ly edges override :
  reachable state ->
  TargetState.enabled (EngineState.target state) = true ->
  let state' := engine_step state dt w h margin lx ly edges true override in
  let d := ball_target_distance state' in
  let tr := TargetState.radius_px (EngineState.target state) in
  3 <= IZR tr - 14 /\
  (d <= IZR tr - 14 ->
   TargetState.hit_flash_elapsed (EngineState.target state') = 0) /\
  (IZR tr - 14 < d ->
   TargetState.hit_flash_elapsed (EngineState.target state') =
   advance_timer (TargetState.hit_flash_elapsed (EngineState.target state))
     config.TARGET_FLASH_DURATION_S dt).
Proof.
  intros Hs Hon state' d tr.
  pose proof (reachable_radius state Hs) as [Hr17 _]. fold tr in Hr17.
  destruct (reachable_inv state Hs) as (Hbr & _).
  pose proof (engine_step_flash_on_edge state dt w h margin lx ly edges
                override Hon) as E.
  cbv zeta in E. fold state' tr in E. rewrite Hbr in E.
  assert (H17 : 17 <= IZR tr) by (apply IZR_le; exact Hr17).
  assert (Hinner : Rmax 0 (IZR (tr - config.BALL_RADIUS)) = IZR tr - 14).
  { rewrite minus_IZR. unfold config.BALL_RADIUS.
    rewrite Rmax_right; lra. }
  rewrite Hinner in E.
  assert (Hreach : 0 <= IZR tr - 14) by lra.
  pose proof (sqrt_le_iff_sq _ (IZR tr - 14)
                (distance_sq_nonneg
                   (Vector2.x (EngineState.pos state'))
                   (Vector2.y (EngineState.pos state'))
                   (Vector2.x (TargetState.pos (EngineState.target state')))
                   (Vector2.y (TargetState.pos (EngineState.target state'))))
                Hreach) as Hiff.
  fold (ball_target_distance state') in Hiff. fold d in Hiff.
  split; [lra|]. split.
  - intros Hd. rewrite E. destruct (Rle_dec _ _) as [|Hn]; [reflexivity|].
    now apply Hiff in Hd.
  - intros Hd. rewrite E. destruct (Rle_dec _ _) as [Hle|]; [|reflexivity].
    apply Hiff in Hle. lra.
Qed.

Lemma reachable_hit_zone_witness :
  3 <= IZR (TargetState.radius_px (EngineState.target (demo_state true)))
       - 14.
Proof.
  exact (proj1 (reachable_hit_zone (demo_state true) (1 / 60) 1280 720 12
                  0 0 [0%Z] None (demo_state_reachable true) eq_refl)).
Defined.

(** *** The ball in a step *)

(** One coordinate moved by [d] from inside [lo, hi] and clamped. *)
Lemma clamp_step (p d lo hi : R) :
  lo <= p <= hi ->
  Rabs (util.clamp (p + d) lo hi - p) <= Rabs d /\
  (0 <= d -> p <= util.clamp (p + d) lo hi) /\
  (d <= 0 -> util.clamp (p + d) lo hi <= p) /\
  (lo <= p + d <= hi -> util.clamp (p + d) lo hi = p + d).
Proof.
  intros Hp. unfold util.clamp.
  destruct (Rlt_dec (p + d) lo); [|destruct (Rgt_dec (p + d) hi)];
    (split; [unfold Rabs; repeat destruct (Rcase_abs _); lra|]);
    repeat split; intros; lra.
Qed.

(** X14. Without an override position, a step from inside the play
    area moves the ball on each axis by at most [|axis * ball_speed *
    dt|] and never against the stick; it moves it by exactly that when
    the walls are not in the way; [prev_pos] is the position the step
    started from. *)
Theorem ball_moves_with_stick state dt w h margin lx ly edges any :
  0 <= dt ->
  0 <= EngineState.ball_speed state ->
  in_bounds (EngineState.pos state) (EngineState.ball_radius state)
    w h margin ->
  let state' := engine_step state dt w h margin lx ly edges any None in
  let p := EngineState.pos state in
  let p' := EngineState.pos state' in
  let dx := (lx * EngineState.ball_speed state) * dt in
  let dy := (ly * EngineState.ball_speed state) * dt in
  EngineState.prev_pos state' = p /\
  Rabs (Vector2.x p' - Vector2.x p) <= Rabs dx /\
  Rabs (Vector2.y p' - Vector2.y p) <= Rabs dy /\
  (0 <= lx -> Vector2.x p <= Vector2.x p') /\
  (lx <= 0 -> Vector2.x p' <= Vector2.x p) /\
  (0 <= ly -> Vector2.y p <= Vector2.y p') /\
  (ly <= 0 -> Vector2.y p' <= Vector2.y p) /\
  (in_bounds (Vector2.add p (Vector2.mk dx dy))
     (EngineState.ball_radius state) w h margin ->
   p' = Vector2.add p (Vector2.mk dx dy)).
Proof.
  intros Hdt Hsp [Hx Hy] state' p p' dx dy.
  subst state' p' p. rewrite engine_step_prev_pos, engine_step_pos.
  cbv zeta. cbn [Vector2.x Vector2.y]. fold dx dy.
  destruct (clamp_step _ dx _ _ Hx) as (Ax & Px & Nx & Ex).
  destruct (clamp_step _ dy _ _ Hy) as (Ay & Py & Ny & Ey).
  assert (Hk : 0 <= EngineState.ball_speed state * dt)
    by now apply Rmult_le_pos.
  assert (Hdx : dx = lx * (EngineState.ball_speed state * dt))
    by (unfold dx; ring).
  assert (Hdy : dy = ly * (EngineState.ball_speed state * dt))
    by (unfold dy; ring).
  split; [reflexivity|]. split; [exact Ax|]. split; [exact Ay|].
  split; [intros H; apply Px; rewrite Hdx; now apply Rmult_le_pos|].
  split; [intros H; apply Nx; rewrite Hdx; nra|].
  split; [intros H; apply Py; rewrite Hdy; now apply Rmult_le_pos|].
  split; [intros H; apply Ny; rewrite Hdy; nra|].
  intros [Hbx Hby]. cbn [Vector2.add Vector2.x Vector2.y] in Hbx, Hby.
  unfold Vector2.add. cbn [Vector2.x Vector2.y].
  now rewrite (Ex Hbx), (Ey Hby).
Qed.

Lemma ball_moves_with_stick_witness :
  EngineState.pos
    (engine_step (demo_state false) (1 / 100) 1280 720 12 1 0 [] false None)
  = Vector2.add (Vector2.mk 640 360) (Vector2.mk (1 * 700 * (1 / 100))
                                        (0 * 700 * (1 / 100))).
Proof.
  assert (Hin : in_bounds (Vector2.mk 640 360) 14 1280 720 12)
    by (unfold in_bounds; cbn; lra).
  refine (proj2 (proj2 (proj2 (proj2 (proj2 (proj2 (proj2
    (ball_moves_with_stick (demo_state false) (1 / 100) 1280 720 12 1 0 []
       false _ _ Hin))))))) _).
  - lra.
  - cbn. unfold_config. lra.
  - unfold in_bounds. cbn. unfold_config. lra.
Defined.

(** X15. A window too narrow for the ball has its two limits crossed,
    [dim - margin - radius < margin + radius], and [clamp] then answers
    one of them for every input: after any step the ball's coordinate on
    that axis is the lower limit if the step aimed below it and the upper
    limit otherwise, so that with the stick centred the ball jumps from
    one limit to the other on every tick. *)
Theorem ball_in_window_too_narrow
    state dt w h margin lx ly edges any override :
  let br := EngineState.ball_radius state in
  let lo := IZR (margin + br) in
  let hi := IZR (w - margin - br) in
  (w - margin - br < margin + br)%Z ->
  let x' :=
    Vector2.x (EngineState.pos
                 (engine_step state dt w h margin lx ly edges any override))
  in
  (x' = lo \/ x' = hi) /\
  (override = None -> lx = 0 ->
   (Vector2.x (EngineState.pos state) = lo -> x' = hi) /\
   (Vector2.x (EngineState.pos state) = hi -> x' = lo)).
Proof.
  intros br lo hi Hnarrow x'. apply IZR_lt in Hnarrow. fold lo hi in Hnarrow.
  subst x'. rewrite engine_step_pos. cbv zeta. cbn [Vector2.x]. fold br lo hi.
  split.
  - unfold util.clamp. cases_R.
  - intros -> ->. cbn [Vector2.x].
    replace (0 * EngineState.ball_speed state * dt) with 0 by ring.
    split; intros ->; unfold util.clamp; cases_R.
Qed.

Lemma ball_in_window_too_narrow_witness :
  let step s := engine_step s (1 / 60) 30 720 12 0 0 [] false None in
  Vector2.x (EngineState.pos (step (demo_state false))) = 4 /\
  Vector2.x (EngineState.pos (step (step (demo_state false)))) = 26.
Proof.
  intros step.
  assert (Hn : (30 - 12 - 14 < 12 + 14)%Z) by lia.
  assert (H1 : Vector2.x (EngineState.pos (step (demo_state false))) = 4).
  { unfold step. rewrite engine_step_pos. cbn. unfold_config.
    unfold util.clamp. cases_R. }
  split; [exact H1|].
  refine (proj2 (proj2 (ball_in_window_too_narrow (step (demo_state false))
                  (1 / 60) 30 720 12 0 0 [] false None Hn) eq_refl eq_refl)
            _).
  rewrite H1. cbn. unfold_config. lra.
Defined.

(* ================================================================= *)
(** ** Further properties: main.py *)

(** *** The setters of main.py *)

(** The velocity [set_params] and [reset] compute from one that is not
    (near-)zero: the same direction, the new speed. *)
Lemma rescale_vel_direction (v : Vector2.t) (speed : Z) :
  ~ Vector2.length_squared v < 1e-9 ->
  TargetState.rescale_vel v speed =
  Some (Vector2.scale v (IZR speed / Vector2.length v)) /\
  0 < Vector2.length v.
Proof.
  intros Hbig.
  assert (Hpos : 0 < Vector2.length_squared v) by lra.
  assert (Hl : 0 < Vector2.length v) by now apply sqrt_lt_R0.
  destruct (rescale_vel_spec v speed) as (n & Hr & _ & _ & Hn).
  destruct (normalize_unit v Hpos) as (n' & Hn' & _ & En').
  rewrite (Hn Hbig) in Hn'. injection Hn' as <-.
  split; [|exact Hl]. rewrite Hr, En'. unfold Vector2.scale.
  cbn [Vector2.x Vector2.y]. do 2 f_equal; field; lra.
Qed.

(** X16. [set_target_size] never raises. It stores the size clamped to
    [TARGET_SIZE_PCT_MIN, TARGET_SIZE_PCT_MAX] and the radius that goes
    with it, and keeps the target's position when the target is
    disabled; an enabled target is moved back inside the play area of
    its new radius, in a window with room for it, so that a target
    grown next to a wall does not overlap the wall. *)
Theorem set_target_size_spec
    (st : EngineState.t) (target_speed w h v : Z) :
  exists size st',
    Main.set_target_size st target_speed w h v = Some (size, st') /\
    let tg := EngineState.target st in
    let tg' := EngineState.target st' in
    let br := EngineState.ball_radius st in
    size = util.clamp_int v config.TARGET_SIZE_PCT_MIN
             config.TARGET_SIZE_PCT_MAX /\
    TargetState.size_pct tg' = size /\
    TargetState.radius_px tg' = Py.round_div (br * size) 100 /\
    TargetState.enabled tg' = TargetState.enabled tg /\
    EngineState.ball_radius st' = br /\
    (TargetState.enabled tg = false ->
     TargetState.pos tg' = TargetState.pos tg /\
     EngineState.pos st' = EngineState.pos st /\
     EngineState.prev_pos st' = EngineState.prev_pos st) /\
    (TargetState.enabled tg = true ->
     room_for (TargetState.radius_px tg') w h config.CANVAS_MARGIN ->
     in_bounds (TargetState.pos tg') (TargetState.radius_px tg') w h
       config.CANVAS_MARGIN).
Proof.
  unfold Main.set_target_size.
  set (size := util.clamp_int v _ _).
  destruct (set_params_spec (EngineState.target st)
              (EngineState.ball_radius st) size target_speed)
    as (tg1 & Hs & He & Hp & _ & Hsz & _ & (_ & _ & Hrad & _)).
  rewrite Hs. exists size. eexists. split; [reflexivity|]. cbv zeta.
  assert (Hsz' : TargetState.size_pct tg1 = size).
  { rewrite Hsz. unfold size. apply clamp_int_id.
    apply clamp_int_within. cbv. discriminate. }
  unfold TargetState._compute_radius in Hrad. rewrite Hsz' in Hrad.
  split; [reflexivity|].
  destruct (TargetState.enabled tg1) eqn:Hon; rewrite <- He.
  - unfold clamp_state_to_bounds.
    cbn [with_target EngineState.target EngineState.ball_radius
         EngineState.pos EngineState.prev_pos].
    rewrite Hon.
    cbn [TargetState.size_pct TargetState.radius_px TargetState.enabled
         TargetState.pos].
    split; [exact Hsz'|]. split; [exact Hrad|].
    split; [reflexivity|]. split; [reflexivity|].
    split; [discriminate|]. intros _ Hroom.
    destruct (room_for_R _ _ _ _ Hroom) as [Hx Hy].
    split; cbn [Vector2.x Vector2.y]; now apply clamp_within.
  - cbn [with_target EngineState.target EngineState.ball_radius
         EngineState.pos EngineState.prev_pos].
    split; [exact Hsz'|]. split; [exact Hrad|].
    split; [exact Hon|]. split; [reflexivity|].
    split; [|discriminate]. intros _. now rewrite Hp.
Qed.

(** X17. [set_target_speed] never raises. It stores the speed clamped
    to [TARGET_SPEED_PX_S_MIN, TARGET_SPEED_PX_S_MAX] and leaves the
    ball and the target's position alone; the new velocity has that
    speed as its length and, unless the old one was (near-)zero, the old
    one's direction: it is the old velocity times [speed / length]. *)
Theorem set_target_speed_spec
    (st : EngineState.t) (target_size_pct v : Z) :
  exists speed st',
    Main.set_target_speed st target_size_pct v = Some (speed, st') /\
    let tg := EngineState.target st in
    let tg' := EngineState.target st' in
    speed = util.clamp_int v config.TARGET_SPEED_PX_S_MIN
              config.TARGET_SPEED_PX_S_MAX /\
    TargetState.speed_px_s tg' = speed /\
    Vector2.length (TargetState.vel tg') = IZR speed /\
    TargetState.pos tg' = TargetState.pos tg /\
    TargetState.enabled tg' = TargetState.enabled tg /\
    EngineState.pos st' = EngineState.pos st /\
    EngineState.prev_pos st' = EngineState.prev_pos st /\
    (~ Vector2.length_squared (TargetState.vel tg) < 1e-9 ->
     TargetState.vel tg' =
     Vector2.scale (TargetState.vel tg)
       (IZR speed / Vector2.length (TargetState.vel tg)) /\
     0 < IZR speed / Vector2.length (TargetState.vel tg)) /\
    (Vector2.length_squared (TargetState.vel tg) < 1e-9 ->
     TargetState.vel tg' = Vector2.mk (IZR speed) 0).
Proof.
  unfold Main.set_target_speed.
  set (speed := util.clamp_int v _ _).
  assert (Hrange : (config.TARGET_SPEED_PX_S_MIN <= speed
                    <= config.TARGET_SPEED_PX_S_MAX)%Z)
    by (apply clamp_int_within; cbv; discriminate).
  assert (Hid : util.clamp_int speed config.TARGET_SPEED_PX_S_MIN
                  config.TARGET_SPEED_PX_S_MAX = speed)
    by now apply clamp_int_id.
  assert (Hpos : 0 < IZR speed).
  { apply IZR_lt. unfold config.TARGET_SPEED_PX_S_MIN in Hrange. lia. }
  destruct (set_params_spec (EngineState.target st)
              (EngineState.ball_radius st) target_size_pct speed)
    as (tg1 & Hs & He & Hp & _ & _ & Hsp & (_ & _ & _ & Hlen)).
  rewrite Hid in Hsp. rewrite Hsp in Hlen.
  rewrite Hs. exists speed. eexists. split; [reflexivity|]. cbv zeta.
  cbn [with_target EngineState.target EngineState.pos EngineState.prev_pos].
  split; [reflexivity|]. split; [exact Hsp|]. split; [exact Hlen|].
  split; [exact Hp|]. split; [exact He|].
  split; [reflexivity|]. split; [reflexivity|].
  unfold TargetState.set_params in Hs. rewrite Hid in Hs.
  split.
  - intros Hbig.
    destruct (rescale_vel_direction _ speed Hbig) as [Hr Hl].
    rewrite Hr in Hs. injection Hs as <-. cbn [TargetState.vel].
    split; [reflexivity|]. now apply Rdiv_lt_0_compat.
  - intros Hsmall.
    destruct (rescale_vel_spec (TargetState.vel (EngineState.target st))
                speed) as (n & Hr & _ & Hn & _).
    rewrite Hr, (Hn Hsmall) in Hs. injection Hs as <-.
    cbn [TargetState.vel]. unfold Vector2.scale. cbn [Vector2.x Vector2.y].
    f_equal; ring.
Qed.

(** *** The ball and the cursor across frames *)

(** What the drain loop keeps, it keeps tick by tick. *)
Lemma drain_inv (P : Main.Loop -> Prop) devices engine_dt :
  (forall d L, P L -> P (Main.tick d engine_dt L)) ->
  forall fuel k L L',
    P L -> Main.drain fuel devices k engine_dt L = Some L' -> P L'.
Proof.
  intros Htick. induction fuel as [|fuel IH]; intros k L L' HP Hrun;
    cbn [Main.drain] in Hrun;
    destruct (Rge_dec _ _); try discriminate;
    try (injection Hrun as <-; exact HP).
  eapply IH; [|exact Hrun]. now apply Htick.
Qed.

Lemma tick_inside w h d engine_dt L :
  loop_inside_window w h L ->
  loop_inside_window w h (Main.tick d engine_dt L).
Proof.
  intros [(Hroom & Hpos & _ & Hcur) [Hw Hh]].
  destruct (tick_state d engine_dt L)
    as (lx & ly & edges & any & override & Hst & Hw' & Hh').
  destruct (tick_frame d engine_dt L) as (_ & _ & Hc & _).
  unfold loop_inside_window, loop_inside. cbv zeta.
  rewrite Hst, Hw', Hh', Hc.
  rewrite engine_step_ball_radius, engine_step_prev_pos, engine_step_pos.
  destruct (room_for_R _ _ _ _ Hroom) as [Hx Hy].
  split; [|now split].
  split; [exact Hroom|]. split; [|now split].
  split; cbn [Vector2.x Vector2.y]; now apply clamp_within.
Qed.

Lemma integrate_cursor_inside L frame_dt lx ly :
  loop_inside L ->
  in_bounds (Main.integrate_cursor L frame_dt lx ly)
    (EngineState.ball_radius (Main.state L)) (Main.win_w L) (Main.win_h L)
    config.CANVAS_MARGIN.
Proof.
  intros (Hroom & Hpos & _ & Hcur). unfold Main.integrate_cursor.
  destruct (Main.mouse_mode L); [exact Hcur|].
  destruct (_ && _); [exact Hpos|].
  destruct (room_for_R _ _ _ _ Hroom) as [Hx Hy].
  split; cbn [Vector2.x Vector2.y]; now apply clamp_within.
Qed.

Lemma frame_inside fuel now peek devices L L' :
  loop_inside L ->
  Main.frame fuel now peek devices L = Some L' ->
  loop_inside L' /\
  Main.win_w L' = Main.win_w L /\ Main.win_h L' = Main.win_h L.
Proof.
  intros Hin Hrun. unfold Main.frame in Hrun.
  cbn [Main.begin_frame] in Hrun.
  destruct (ControllerManager.peek_axes peek _) as [lx ly].
  refine (drain_inv (loop_inside_window (Main.win_w L) (Main.win_h L))
            devices _ (fun d L0 => tick_inside _ _ d _ L0) _ _ _ _ _ Hrun).
  pose proof (integrate_cursor_inside L
                (Rmin (now - Main.last_time L) 0.25) lx ly Hin) as Hc.
  destruct Hin as (Hroom & Hpos & Hprev & _).
  split; [|now split].
  unfold loop_inside. cbn. repeat split; try apply Hroom; try apply Hpos;
    try apply Hprev; apply Hc.
Qed.

(** X18. The ball and the controller's cursor never leave the play
    area. A resize to a window with room for the ball puts the ball,
    its previous position and the cursor inside, the cursor on the ball,
    whatever they were; switching the mouse mode keeps them inside, and
    leaving it puts the cursor on the ball; and every frame that starts
    with them inside runs to its end and leaves them inside, in the same
    window, whatever the clock, the stick, the mouse and the number of
    ticks are. *)
Theorem ball_and_cursor_stay_inside :
  (forall L w h,
     room_for (EngineState.ball_radius (Main.state L)) w h
       config.CANVAS_MARGIN ->
     let L' := Main.on_resize L w h in
     loop_inside_window w h L' /\
     Main.controller_cursor L' = EngineState.pos (Main.state L')) /\
  (forall L v,
     loop_inside L ->
     let L' := Main.set_mouse_mode L v in
     loop_inside L' /\
     Main.mouse_mode L' = v /\
     Main.prev_mouse_buttons L' = (false, false, false) /\
     Main.state L' = Main.state L /\
     (v = false ->
      Main.controller_cursor L' = EngineState.pos (Main.state L))) /\
  (forall now peek devices L,
     loop_inside L ->
     exists fuel L',
       (forall extra,
          Main.frame (fuel + extra) now peek devices L = Some L') /\
       loop_inside_window (Main.win_w L) (Main.win_h L) L').
Proof.
  split; [|split].
  - intros L w h Hroom L'.
    destruct (room_for_R _ _ _ _ Hroom) as [Hx Hy].
    assert (Hin : forall p,
              in_bounds
                (Vector2.mk
                   (util.clamp (Vector2.x p)
                      (IZR (config.CANVAS_MARGIN
                            + EngineState.ball_radius (Main.state L)))
                      (IZR (w - config.CANVAS_MARGIN
                            - EngineState.ball_radius (Main.state L))))
                   (util.clamp (Vector2.y p)
                      (IZR (config.CANVAS_MARGIN
                            + EngineState.ball_radius (Main.state L)))
                      (IZR (h - config.CANVAS_MARGIN
                            - EngineState.ball_radius (Main.state L)))))
                (EngineState.ball_radius (Main.state L)) w h
                config.CANVAS_MARGIN).
    { intros p. split; cbn [Vector2.x Vector2.y]; now apply clamp_within. }
    unfold loop_inside_window, loop_inside, L', Main.on_resize,
      clamp_state_to_bounds.
    cbn [Main.state Main.win_w Main.win_h Main.controller_cursor
         EngineState.pos EngineState.prev_pos EngineState.ball_radius].
    split; [|reflexivity]. split; [|now split].
    split; [exact Hroom|]. split; [apply Hin|]. split; apply Hin.
  - intros L v (Hroom & Hpos & Hprev & Hcur) L'.
    unfold L', Main.set_mouse_mode, loop_inside.
    cbn [Main.state Main.win_w Main.win_h Main.controller_cursor
         Main.mouse_mode Main.prev_mouse_buttons].
    split.
    + split; [exact Hroom|]. split; [exact Hpos|]. split; [exact Hprev|].
      now destruct v.
    + split; [reflexivity|]. split; [reflexivity|].
      split; [reflexivity|]. now intros ->.
  - intros now peek devices L Hin.
    destruct (frame_spec now peek devices L)
      as (fuel & L' & n & Hrun & _).
    exists fuel, L'. split; [exact Hrun|].
    destruct (frame_inside _ _ _ _ _ _ Hin (Hrun 0%nat)) as (H1 & H2 & H3).
    split; [exact H1|]. now split.
Qed.

Lemma demo_loop_inside (acc : R) (interp : bool) :
  loop_inside (demo_loop acc interp).
Proof.
  unfold loop_inside, demo_loop, demo_loop_at, in_bounds, room_for.
  cbn. unfold_config. repeat split; try lia; lra.
Qed.

Lemma ball_and_cursor_stay_inside_witness :
  loop_inside (Main.set_mouse_mode (demo_loop 0 true) true).
Proof.
  exact (proj1 (proj1 (proj2 ball_and_cursor_stay_inside)
                  (demo_loop 0 true) true (demo_loop_inside 0 true))).
Defined.

(** *** The length of a frame *)

(** A frame is the drain loop run on the loop's variables as lines
    464-493 leave them. *)
Lemma frame_unfold now peek devices L :
  exists L2,
    (forall fuel,
       Main.frame fuel now peek devices L =
       Main.drain fuel devices 0 (Main.engine_dt_of (Main.engine_fps L))
         L2) /\
    Main.accumulator L2 =
      Main.accumulator L + Rmin (now - Main.last_time L) 0.25 /\
    Main.engine_ticks L2 = Main.engine_ticks L.
Proof.
  unfold Main.frame. cbn [Main.begin_frame].
  destruct (ControllerManager.peek_axes peek _) as [lx ly].
  eexists. split; [intros fuel; reflexivity|]. split; reflexivity.
Qed.

(** The engine rate a slider can store leaves a time step between one
    two-thousandth of a second and a second. *)
Lemma set_engine_fps_dt (v : Z) :
  (1 <= Main.set_engine_fps v <= 2000)%Z /\
  Main.engine_dt_of (Main.set_engine_fps v) =
    1 / IZR (Main.set_engine_fps v) /\
  1 / 2000 <= Main.engine_dt_of (Main.set_engine_fps v) <= 1.
Proof.
  assert (Hr : (1 <= Main.set_engine_fps v <= 2000)%Z)
    by (apply clamp_int_within; lia).
  split; [exact Hr|].
  rewrite engine_dt_of_rate by apply Hr. split; [reflexivity|].
  destruct Hr as [Hlo Hhi]. apply IZR_le in Hlo, Hhi.
  set (f := IZR (Main.set_engine_fps v)) in *.
  assert (Hf : 0 < f) by lra.
  split.
  - apply (Rmult_le_reg_r f); [exact Hf|].
    replace (1 / f * f) with 1 by (field; lra). lra.
  - apply (Rmult_le_reg_r f); [exact Hf|].
    replace (1 / f * f) with 1 by (field; lra). lra.
Qed.

(** X19. However long the program was stalled, a frame runs at most
    [1 + engine_fps / 4] engine ticks, at most 500 at the highest rate a
    slider can store: the frame's delta-time is capped at a quarter of a
    second before it is added to the accumulator, and the accumulator
    starts below one time step. *)
Theorem frame_ticks_capped now peek devices L (v : Z) :
  Main.engine_fps L = Main.set_engine_fps v ->
  Main.last_time L <= now ->
  0 <= Main.accumulator L < Main.engine_dt_of (Main.engine_fps L) ->
  exists (L' : Main.Loop) (n : nat),
    (forall extra,
       Main.frame (501 + extra) now peek devices L = Some L') /\
    Main.engine_ticks L' = (Main.engine_ticks L + n)%nat /\
    INR n < 1 + IZR (Main.engine_fps L) / 4 /\
    (n <= 500)%nat /\
    0 <= Main.accumulator L' < Main.engine_dt_of (Main.engine_fps L).
Proof.
  intros Hfps Hclock [Hacc0 Hacc1].
  destruct (set_engine_fps_dt v) as ([Hlo Hhi] & Edt & Hdt1 & Hdt2).
  rewrite <- Hfps in Hlo, Hhi, Edt, Hdt1, Hdt2.
  set (fps := Main.engine_fps L) in *.
  set (dt := Main.engine_dt_of fps) in *.
  apply IZR_le in Hlo, Hhi.
  assert (Hdt : 0 < dt) by lra.
  assert (Hfd : IZR fps * dt = 1) by (rewrite Edt; field; lra).
  set (frame_dt := Rmin (now - Main.last_time L) 0.25).
  assert (Hfr : 0 <= frame_dt <= 0.25).
  { unfold frame_dt, Rmin. destruct (Rle_dec _ _); lra. }
  destruct (frame_unfold now peek devices L) as (L2 & E & Hacc2 & Ht2).
  fold fps dt frame_dt in E, Hacc2.
  assert (Hfuel : Main.accumulator L2 < INR 501 * dt).
  { rewrite Hacc2. replace (INR 501) with 501 by (cbn; lra). nra. }
  destruct (drain_terminates devices dt 501 0 L2 Hdt Hfuel) as [L' Hrun].
  destruct (drain_spec devices dt 501 0 L2 L' Hdt Hrun)
    as (n & Hn & Hacc & Hlt & Hpos & _).
  assert (Hacc' : 0 <= Main.accumulator L') by (apply Hpos; lra).
  assert (Hnb : INR n < 1 + IZR fps / 4).
  { apply (Rmult_lt_reg_r dt); [exact Hdt|].
    replace ((1 + IZR fps / 4) * dt) with (dt + IZR fps * dt / 4) by field.
    rewrite Hfd. lra. }
  exists L', n. split; [|split; [|split; [|split]]].
  - intros extra. rewrite E. now apply drain_more_fuel.
  - rewrite Hn, Ht2. reflexivity.
  - exact Hnb.
  - assert (Hn501 : (n < 501)%nat); [|lia].
    apply INR_lt. replace (INR 501) with 501 by (cbn; lra). lra.
  - split; [exact Hacc'|exact Hlt].
Qed.

Lemma frame_ticks_capped_witness :
  exists (L' : Main.Loop) (n : nat),
    (forall extra,
       Main.frame (501 + extra) 10 None idle_devices (demo_loop 0 true)
       = Some L') /\
    Main.engine_ticks L' = (0 + n)%nat /\
    INR n < 1 + 60 / 4 /\
    (n <= 500)%nat /\
    0 <= Main.accumulator L' < Main.engine_dt_of 60.
Proof.
  refine (frame_ticks_capped 10 None idle_devices (demo_loop 0 true) 60
            eq_refl _ _).
  - cbn. lra.
  - cbn. unfold Main.engine_dt_of. cbn. lra.
Defined.

(** *** Button edges across ticks *)

Lemma edges_from_same (l : list bool) : forall i,
  ControllerManager.edges_from i l l = [].
Proof.
  induction l as [|b l IH]; intros i; [reflexivity|].
  cbn [ControllerManager.edges_from]. rewrite IH. now destruct b.
Qed.

Lemma mouse_edges_same (pressed : bool * bool * bool) :
  Main.mouse_edges pressed pressed = [].
Proof. destruct pressed as [[[] []] []]; reflexivity. Qed.

(** What a tick leaves of the variables the next tick reads. *)
Lemma tick_fields d engine_dt L :
  let L1 := Main.tick d engine_dt L in
  Main.mouse_mode L1 = Main.mouse_mode L /\
  Main.win_w L1 = Main.win_w L /\
  Main.win_h L1 = Main.win_h L /\
  Main.current_deadzone L1 = Main.current_deadzone L /\
  (Main.mouse_mode L = true ->
   Main.prev_mouse_buttons L1 = Main.mouse_get_pressed d) /\
  (Main.mouse_mode L = false ->
   Main.ctrl L1 =
   snd (ControllerManager.sample (Main.ctrl L) (Main.joystick d)
          (Main.current_deadzone L))).
Proof.
  unfold Main.tick. destruct (Main.mouse_mode L) eqn:Hm.
  - destruct (Main.mouse_get_pos d) as [mx my]. cbn.
    repeat split; try assumption; discriminate.
  - destruct (ControllerManager.sample _ _ _) as [s c]. cbn.
    repeat split; try assumption; discriminate.
Qed.

(** The controller manager after a sample remembers the buttons it
    saw. *)
Lemma sample_prev_buttons self j deadzone :
  ControllerManager._prev_buttons
    (snd (ControllerManager.sample self (Some j) deadzone)) =
  ControllerManager.get_buttons j.
Proof.
  unfold ControllerManager.sample.
  now destruct (ControllerManager._read_axes _ _).
Qed.

(** X20. A press fires once. When a tick finds the buttons as the tick
    before found them (the mouse buttons in mouse mode, the active
    controller's otherwise), it steps the engine with no button edge at
    all, however many buttons are held: with the mouse position as the
    override and the stick at rest in mouse mode, with the
    deadzone-shaped stick and no override otherwise. *)
Theorem held_buttons_fire_once d1 d2 engine_dt L :
  same_buttons (Main.mouse_mode L) d1 d2 ->
  let L1 := Main.tick d1 engine_dt L in
  let L2 := Main.tick d2 engine_dt L1 in
  let axes :=
    ControllerManager.peek_axes (Main.joystick d2) (Main.current_deadzone L)
  in
  Main.state L2 =
  engine_step (Main.state L1) engine_dt (Main.win_w L) (Main.win_h L)
    config.CANVAS_MARGIN
    (if Main.mouse_mode L then 0 else fst axes)
    (if Main.mouse_mode L then 0 else snd axes)
    [] false
    (if Main.mouse_mode L
     then Some (IZR (fst (Main.mouse_get_pos d2)),
                IZR (snd (Main.mouse_get_pos d2)))
     else None).
Proof.
  intros Hsame L1 L2 axes. unfold same_buttons in Hsame.
  destruct (tick_fields d1 engine_dt L)
    as (Hmode & Hw & Hh & Hdz & Hprev & Hctrl).
  fold L1 in Hmode, Hw, Hh, Hdz, Hprev, Hctrl.
  subst L2 axes. clearbody L1. unfold Main.tick.
  rewrite Hmode, Hw, Hh, Hdz.
  destruct (Main.mouse_mode L) eqn:Hm.
  - destruct (Main.mouse_get_pos d2) as [mx2 my2].
    cbn [Main.state fst snd].
    rewrite (Hprev eq_refl), Hsame, mouse_edges_same. reflexivity.
  - rewrite (Hctrl eq_refl). unfold ControllerManager.peek_axes.
    destruct (Main.joystick d1) as [j1|], (Main.joystick d2) as [j2|];
      try contradiction.
    + unfold ControllerManager.sample at 1.
      rewrite sample_prev_buttons, Hsame, Nat.eqb_refl, edges_from_same.
      destruct (ControllerManager._read_axes (Some j2) _) as [lx2 ly2].
      reflexivity.
    + reflexivity.
Qed.

Lemma held_buttons_fire_once_witness :
  let d := Main.mkDevices (640, 360)%Z (true, false, false) None in
  let L := Main.set_mouse_mode (demo_loop 0 true) true in
  Main.state (Main.tick d (1 / 60) (Main.tick d (1 / 60) L)) =
  engine_step (Main.state (Main.tick d (1 / 60) L)) (1 / 60) 1280 720 12
    0 0 [] false (Some (640, 360)).
Proof.
  intros d L. exact (held_buttons_fire_once d d (1 / 60) L eq_refl).
Defined.

(** *** Pacing *)

(** X21. When the drain loop has left the accumulator below one time
    step, a sleeping frame asks for more than 1.5 ms and for no more
    than three quarters of the time to the next engine tick, nor, under
    a frame cap with the next render still ahead, of the time to that
    render; it does not sleep at all when the next tick is within 2 ms;
    and without a frame cap it sleeps three quarters of the time to the
    next tick whenever that is more than 2 ms away. *)
Theorem sleep_never_overshoots
    (engine_dt accumulator : R) (visual_fps : Z) (last_render clock : R) :
  accumulator < engine_dt ->
  let next_engine_in := engine_dt - accumulator in
  let next_render_in :=
    last_render + 1 / IZR (Z.max 1 visual_fps) - clock in
  let slept :=
    Main.sleep_time engine_dt accumulator visual_fps last_render clock in
  (forall t, slept = Some t ->
     0.0015 < t <= 0.75 * next_engine_in /\
     ((0 < visual_fps)%Z -> 0 < next_render_in ->
      t <= 0.75 * next_render_in)) /\
  (next_engine_in <= 0.002 -> slept = None) /\
  ((visual_fps <= 0)%Z -> 0.002 < next_engine_in ->
   slept = Some (0.75 * next_engine_in)).
Proof.
  intros Hacc next_engine_in next_render_in slept.
  subst slept. unfold Main.sleep_time.
  fold next_engine_in.
  rewrite (Rmax_right 0 next_engine_in) by (unfold next_engine_in; lra).
  assert (Hne : 0 < next_engine_in) by (unfold next_engine_in; lra).
  destruct (Rgt_dec next_engine_in 0) as [_|Hn]; [|lra].
  destruct (visual_fps <=? 0)%Z eqn:Hv.
  - apply Z.leb_le in Hv.
    destruct (Rgt_dec 0 0) as [H0|_]; [lra|].
    split; [|split].
    + intros t Ht. destruct (Rgt_dec next_engine_in 0.002); [|discriminate].
      injection Ht as <-. split; [lra|]. intros Hpos. lia.
    + intros Hsmall. destruct (Rgt_dec next_engine_in 0.002); [lra|].
      reflexivity.
    + intros _ Hbig. destruct (Rgt_dec next_engine_in 0.002); [|lra].
      f_equal. ring.
  - apply Z.leb_gt in Hv. fold next_render_in.
    split; [|split].
    + intros t Ht.
      destruct (Rgt_dec (Rmax 0 next_render_in) 0) as [Hr|Hr].
      * assert (Hrp : 0 < next_render_in).
        { unfold Rmax in Hr. destruct (Rle_dec 0 next_render_in); lra. }
        rewrite (Rmax_right 0 next_render_in) in Ht by lra.
        destruct (Rgt_dec (Rmin next_engine_in next_render_in) 0.002)
          as [Hs|]; [|discriminate].
        injection Ht as <-.
        pose proof (Rmin_l next_engine_in next_render_in).
        pose proof (Rmin_r next_engine_in next_render_in).
        split; [lra|]. intros _ _. lra.
      * assert (Hrn : next_render_in <= 0).
        { unfold Rmax in Hr. destruct (Rle_dec 0 next_render_in); lra. }
        destruct (Rgt_dec next_engine_in 0.002); [|discriminate].
        injection Ht as <-. split; [lra|]. intros _ Hpos. lra.
    + intros Hsmall.
      pose proof (Rmin_l next_engine_in (Rmax 0 next_render_in)).
      destruct (Rgt_dec (Rmax 0 next_render_in) 0).
      * destruct (Rgt_dec _ 0.002); [lra|reflexivity].
      * destruct (Rgt_dec next_engine_in 0.002); [lra|reflexivity].
    + intros Hle. lia.
Qed.

Lemma sleep_never_overshoots_witness :
  Main.sleep_time (1 / 60) (1 / 120) 0 0 5 = Some (0.75 * (1 / 60 - 1 / 120)).
Proof.
  refine (proj2 (proj2 (sleep_never_overshoots (1 / 60) (1 / 120) 0 0 5 _))
            _ _); [lra|lia|lra].
Defined.

(** X22. Under a frame cap, rendered frames are at least [1 /
    visual_fps] apart, the first one that long after the initial
    [last_render], whatever the clock reads of the frames are; and a
    frame is skipped only when fewer than [1 / visual_fps] seconds have
    passed since the last render. With the cap off ([visual_fps <= 0])
    every frame renders. *)
Theorem render_cap_respected (visual_fps : Z) (nows : list R) :
  forall last_render : R,
  let visual_dt := 1 / IZR (Z.max 1 visual_fps) in
  let rendered := render_times visual_fps last_render nows in
  ((0 < visual_fps)%Z ->
   visual_dt = 1 / IZR visual_fps /\
   spaced visual_dt last_render rendered /\
   Forall
     (fun now =>
        In now rendered \/
        exists r,
          (r = last_render \/ In r rendered) /\ now - r < visual_dt)
     nows) /\
  ((visual_fps <= 0)%Z -> rendered = nows).
Proof.
  induction nows as [|now rest IH]; intros last_render visual_dt rendered.
  - split; [intros Hpos|intros _; reflexivity].
    split; [unfold visual_dt; now rewrite Z.max_r by lia|].
    split; [exact I|constructor].
  - subst rendered. cbn [render_times]. unfold Main.render_gate.
    fold visual_dt.
    destruct (visual_fps <=? 0)%Z eqn:Hv.
    + apply Z.leb_le in Hv. split; [intros Hpos; lia|]. intros _.
      cbn [app]. f_equal. now apply (IH now).
    + apply Z.leb_gt in Hv. split; [intros _|intros Hle; lia].
      split; [unfold visual_dt; now rewrite Z.max_r by lia|].
      destruct (Rge_dec (now - last_render) visual_dt) as [Hdue|Hearly].
      * destruct (proj1 (IH now) Hv) as (_ & Hsp & Hall).
        fold visual_dt in Hsp, Hall. cbn [app spaced].
        split; [split; [lra|exact Hsp]|].
        constructor; [left; now left|].
        eapply Forall_impl; [|exact Hall]. cbv beta.
        intros t [Hin|(r & [->|Hin] & Hlt)].
        -- left. now right.
        -- right. exists now. split; [right; now left|exact Hlt].
        -- right. exists r. split; [right; now right|exact Hlt].
      * destruct (proj1 (IH last_render) Hv) as (_ & Hsp & Hall).
        fold visual_dt in Hsp, Hall. cbn [app].
        split; [exact Hsp|].
        constructor.
        -- right. exists last_render. split; [now left|lra].
        -- exact Hall.
Qed.

(* ================================================================= *)
(** ** Further properties: input_devices.py *)

(** *** The controller *)

Lemma apply_deadzone_range (v dz : R) : -1 <= util.apply_deadzone v dz <= 1.
Proof.
  unfold util.apply_deadzone.
  destruct (Rle_dec (Rabs v) dz); [lra|].
  set (v' := if Rlt_dec dz 1 then _ else _).
  pose proof (clamp_within v' 0 1 ltac:(lra)) as Hc.
  destruct (Rgt_dec v 0); lra.
Qed.

(** The edges of the loop of [sample]: the buttons down now that were
    up at the sample before. *)
Lemma edges_from_In (cur : list bool) : forall prev i e,
  length prev = length cur ->
  (In e (ControllerManager.edges_from i cur prev) <->
   exists k : nat,
     e = (i + Z.of_nat k)%Z /\
     nth_error cur k = Some true /\ nth_error prev k = Some false).
Proof.
  induction cur as [|c cs IH]; intros prev i e Hlen.
  - cbn. split; [contradiction|]. intros (k & _ & Hk & _).
    now destruct k.
  - destruct prev as [|p ps]; [discriminate|].
    injection Hlen as Hlen. cbn [ControllerManager.edges_from].
    rewrite in_app_iff, (IH ps (i + 1)%Z e Hlen). split.
    + intros [Hhead|(k & -> & Hc & Hp)].
      * exists 0%nat. destruct c, p; cbn in Hhead; try contradiction.
        destruct Hhead as [<-|[]]. split; [lia|]. now split.
      * exists (S k). split; [lia|]. now split.
    + intros (k & -> & Hc & Hp). destruct k as [|k].
      * left. cbn in Hc, Hp. injection Hc as ->. injection Hp as ->.
        cbn. left. lia.
      * right. exists k. split; [lia|]. now split.
Qed.

Lemma nth_error_repeat_false (n k : nat) :
  (k < n)%nat -> nth_error (repeat false n) k = Some false.
Proof.
  revert k. induction n as [|n IH]; intros k Hk; [lia|].
  destruct k; [reflexivity|]. cbn. apply IH. lia.
Qed.

(** X23. A sample of the active controller: both axes are within
    [-1, 1] whatever the device reports and are the ones [peek_axes]
    returns; [any_button_edge] is set exactly when there is an edge; an
    edge is a button that is down now and was up at the sample before,
    or, when the number of buttons has changed since, any button that is
    down; every edge is a valid button index; and the manager remembers
    the buttons it saw. Without an active controller the sample is the
    default one, with both axes 0 and no edge, and the remembered
    buttons are kept. *)
Theorem sample_spec (self : ControllerManager.t) (deadzone : R) :
  (forall j,
     let r := ControllerManager.sample self (Some j) deadzone in
     let s := fst r in
     let cur := ControllerManager.get_buttons j in
     let prev := ControllerManager._prev_buttons self in
     let edges := ControllerSample.button_down_edges s in
     -1 <= ControllerSample.lx s <= 1 /\
     -1 <= ControllerSample.ly s <= 1 /\
     (ControllerSample.lx s, ControllerSample.ly s) =
       ControllerManager.peek_axes (Some j) deadzone /\
     (ControllerSample.any_button_edge s = true <-> edges <> []) /\
     ControllerManager._prev_buttons (snd r) = cur /\
     (length prev = length cur ->
      forall k : nat,
        In (Z.of_nat k) edges <->
        nth_error cur k = Some true /\ nth_error prev k = Some false) /\
     (length prev <> length cur ->
      forall k : nat,
        In (Z.of_nat k) edges <-> nth_error cur k = Some true) /\
     Forall (fun e => (0 <= e < Z.of_nat (length cur))%Z) edges) /\
  fst (ControllerManager.sample self None deadzone) =
    ControllerSample.mk 0 0 [] false /\
  ControllerManager._prev_buttons
    (snd (ControllerManager.sample self None deadzone)) =
    ControllerManager._prev_buttons self.
Proof.
  split; [|split; reflexivity].
  intros j r s cur prev edges.
  subst edges s r. unfold ControllerManager.sample.
  unfold ControllerManager.peek_axes.
  assert (Haxes : -1 <= fst (ControllerManager._read_axes (Some j) deadzone)
                  <= 1 /\
                  -1 <= snd (ControllerManager._read_axes (Some j) deadzone)
                  <= 1).
  { unfold ControllerManager._read_axes.
    destruct (ControllerManager.get_axes j) as [|a0 [|a1 rest]];
      cbn [fst snd]; try (split; lra).
    split; apply apply_deadzone_range. }
  destruct (ControllerManager._read_axes (Some j) deadzone) as [lx ly].
  cbn [fst snd] in Haxes. fold cur prev.
  set (prev' := if Nat.eqb (length prev) (length cur) then prev
                else repeat false (length cur)).
  assert (Hlen' : length prev' = length cur).
  { unfold prev'. destruct (Nat.eqb_spec (length prev) (length cur));
      [assumption|apply repeat_length]. }
  pose proof (fun e => edges_from_In cur prev' 0 e Hlen') as Hin.
  assert (Hedges : forall k : nat,
            In (Z.of_nat k) (ControllerManager.edges_from 0 cur prev') <->
            nth_error cur k = Some true /\ nth_error prev' k = Some false).
  { intros k. rewrite Hin. split.
    - intros (k' & E & H). assert (k' = k) by lia. now subst.
    - intros H. exists k. split; [lia|exact H]. }
  assert (Hvalid : Forall (fun e => (0 <= e < Z.of_nat (length cur))%Z)
                     (ControllerManager.edges_from 0 cur prev')).
  { apply Forall_forall. intros e He. apply Hin in He.
    destruct He as (k & -> & Hc & _).
    assert (k < length cur)%nat by (apply nth_error_Some; congruence).
    lia. }
  assert (Hshape :
            ControllerSample.button_down_edges
              (match ControllerManager.edges_from 0 cur prev' with
               | [] => ControllerSample.mk lx ly [] false
               | _ :: _ =>
                   ControllerSample.mk lx ly
                     (ControllerManager.edges_from 0 cur prev') true
               end) = ControllerManager.edges_from 0 cur prev')
    by now destruct (ControllerManager.edges_from 0 cur prev').
  cbn [fst snd]. rewrite Hshape.
  split; [destruct (ControllerManager.edges_from 0 cur prev'); apply Haxes|].
  split; [destruct (ControllerManager.edges_from 0 cur prev'); apply Haxes|].
  split; [now destruct (ControllerManager.edges_from 0 cur prev')|].
  split.
  { destruct (ControllerManager.edges_from 0 cur prev'); cbn;
      split; congruence. }
  split; [reflexivity|].
  split; [|split; [|exact Hvalid]].
  - intros Hsame k. rewrite Hedges. unfold prev'.
    apply Nat.eqb_eq in Hsame. now rewrite Hsame.
  - intros Hdiff k. rewrite Hedges. unfold prev'.
    apply Nat.eqb_neq in Hdiff. rewrite Hdiff. split; [tauto|].
    intros Hc. split; [exact Hc|]. apply nth_error_repeat_false.
    apply nth_error_Some. congruence.
Qed.

(* ================================================================= *)
(** ** Further properties: render.py *)

(** *** The rate meters *)

(** The meter of a steady stream after [n] ticks, [c] of them in the
    open window. *)
Lemma steady_meter_inv (start period : R) :
  0 < period ->
  forall n : nat,
  exists c : nat,
    (c <= n)%nat /\
    RateMeter._count (steady_meter start period n) = Z.of_nat c /\
    RateMeter._window_start (steady_meter start period n) =
      start + (INR n - INR c) * period /\
    INR c * period < 1 /\
    ((c = n /\ RateMeter.value (steady_meter start period n) = 0) \/
     ((c < n)%nat /\
      RateMeter.value (steady_meter start period n) = 1 / period /\
      1 <= (INR n - INR c) * period)).
Proof.
  intros Hp. induction n as [|n IH].
  - exists 0%nat. cbn. repeat split; try lia; try lra. left. now split.
  - destruct IH as (c & Hcn & Hcount & Hstart & Hopen & Hval).
    cbn [steady_meter]. unfold RateMeter.tick.
    rewrite Hcount, Hstart.
    assert (Hdt : start + INR (S n) * period
                  - (start + (INR n - INR c) * period)
                  = INR (S c) * period)
      by (rewrite !S_INR; ring).
    rewrite Hdt.
    assert (Hc0 : 0 <= INR c) by apply pos_INR.
    assert (Hcn' : INR c <= INR n) by now apply le_INR.
    destruct (Rge_dec (INR (S c) * period) 1) as [Hfull|Hnot].
    + exists 0%nat. cbn [RateMeter._count RateMeter._window_start
                        RateMeter.value].
      change (INR 0) with 0.
      split; [lia|]. split; [reflexivity|]. split; [ring|].
      split; [lra|]. right. split; [lia|]. split.
      * replace (IZR (Z.of_nat c + 1)) with (INR (S c))
          by (rewrite S_INR, plus_IZR, <- INR_IZR_INZ; ring).
        rewrite S_INR. field. split; lra.
      * rewrite S_INR in Hfull |- *. nra.
    + exists (S c). cbn [RateMeter._count RateMeter._window_start
                        RateMeter.value].
      split; [lia|]. split; [lia|].
      split; [rewrite !S_INR; ring|]. split; [lra|].
      destruct Hval as [[-> Hv]|(Hlt & Hv & Hone)].
      * left. now split.
      * right. split; [lia|]. split; [exact Hv|].
        rewrite !S_INR. lra.
Qed.

(** X24. A rate meter fed a steady stream of ticks, one every [period]
    seconds from its creation, shows 0 until its first window of at
    least one second closes, and the rate of the stream, [1 / period],
    from then on; the ticks it holds for the open window span less than
    a second. *)
Theorem rate_meter_steady (start period : R) (n : nat) :
  0 < period ->
  let m := steady_meter start period n in
  (INR n * period < 1 -> RateMeter.value m = 0) /\
  (1 <= INR n * period -> RateMeter.value m = 1 / period) /\
  (0 <= RateMeter._count m)%Z /\
  IZR (RateMeter._count m) * period < 1.
Proof.
  intros Hp m. subst m.
  destruct (steady_meter_inv start period Hp n)
    as (c & Hcn & Hcount & _ & Hopen & Hval).
  assert (Hc0 : 0 <= INR c) by apply pos_INR.
  split; [|split; [|split]].
  - intros Hearly. destruct Hval as [[_ Hv]|(_ & _ & Hone)]; [exact Hv|].
    nra.
  - intros Hlate. destruct Hval as [[-> _]|(_ & Hv & _)]; [lra|exact Hv].
  - rewrite Hcount. lia.
  - rewrite Hcount, <- INR_IZR_INZ. exact Hopen.
Qed.

Lemma rate_meter_steady_witness :
  RateMeter.value (steady_meter 0 (1 / 60) 60) = 1 / (1 / 60).
Proof.
  refine (proj1 (proj2 (rate_meter_steady 0 (1 / 60) 60 _)) _).
  - lra.
  - replace (INR 60) with 60 by (cbn; lra). lra.
Defined.

(** *** What the ball and the target look like *)

Section Eased.

Variable duration : R.
Hypothesis duration_pos : 0 < duration.

Lemma eased_range (elapsed : R) : 0 <= Render.eased elapsed duration <= 1.
Proof.
  unfold Render.eased, util.ease_out_cubic.
  set (t := if Rgt_dec duration 0 then _ else _).
  set (c := util.clamp (util.clamp t 0 1) 0 1).
  assert (Hc : 0 <= c <= 1) by (apply clamp_within; lra).
  assert (0 <= (1 - c) * (1 - c) <= 1) by nra.
  split; nra.
Qed.

Lemma eased_progress (elapsed : R) :
  Render.eased elapsed duration =
  util.ease_out_cubic (util.clamp (elapsed / duration) 0 1).
Proof.
  unfold Render.eased. destruct (Rgt_dec duration 0); [reflexivity|lra].
Qed.

Lemma eased_start (elapsed : R) :
  elapsed <= 0 -> Render.eased elapsed duration = 0.
Proof.
  intros He. rewrite eased_progress.
  assert (Hq : elapsed / duration <= 0).
  { apply (Rmult_le_reg_r duration); [exact duration_pos|].
    unfold Rdiv. rewrite Rmult_assoc, Rinv_l, Rmult_1_r; lra. }
  unfold util.ease_out_cubic.
  replace (util.clamp (elapsed / duration) 0 1) with 0
    by (unfold util.clamp; cases_R).
  replace (util.clamp 0 0 1) with 0 by (unfold util.clamp; cases_R).
  ring.
Qed.

Lemma eased_done (elapsed : R) :
  duration <= elapsed -> Render.eased elapsed duration = 1.
Proof.
  intros He. rewrite eased_progress.
  assert (Hq : 1 <= elapsed / duration).
  { apply (Rmult_le_reg_r duration); [exact duration_pos|].
    unfold Rdiv. rewrite Rmult_assoc, Rinv_l, Rmult_1_r; lra. }
  unfold util.ease_out_cubic.
  replace (util.clamp (elapsed / duration) 0 1) with 1
    by (unfold util.clamp; cases_R).
  replace (util.clamp 1 0 1) with 1 by (unfold util.clamp; cases_R).
  ring.
Qed.

Lemma eased_mono (e1 e2 : R) :
  e1 <= e2 -> Render.eased e1 duration <= Render.eased e2 duration.
Proof.
  intros Hle. rewrite !eased_progress.
  assert (Hq : e1 / duration <= e2 / duration).
  { apply Rmult_le_compat_r; [|exact Hle].
    left. now apply Rinv_0_lt_compat. }
  pose proof (clamp_01_mono _ _ Hq) as Hm.
  pose proof (clamp_01_mono _ _ Hm) as Hm2.
  unfold util.ease_out_cubic.
  set (c1 := util.clamp (util.clamp (e1 / duration) 0 1) 0 1) in *.
  set (c2 := util.clamp (util.clamp (e2 / duration) 0 1) 0 1) in *.
  assert (H1 : 0 <= c1 <= 1) by (apply clamp_within; lra).
  assert (H2 : 0 <= c2 <= 1) by (apply clamp_within; lra).
  set (a := 1 - c1). set (b := 1 - c2).
  assert (Hab : 0 <= b <= a) by (unfold a, b; lra).
  assert (b * b <= a * a) by nra.
  assert (b * b * b <= a * a * a) by nra.
  lra.
Qed.

End Eased.

Lemma lerp_color_ends (c0 c1 : config.Color) :
  util.lerp_color c0 c1 0 = c0 /\ util.lerp_color c0 c1 1 = c1.
Proof.
  destruct c0 as [[r0 g0] b0], c1 as [[r1 g1] b1].
  unfold util.lerp_color, util.lerp.
  replace (util.clamp 0 0 1) with 0 by (unfold util.clamp; cases_R).
  replace (util.clamp 1 0 1) with 1 by (unfold util.clamp; cases_R).
  split; repeat f_equal;
    match goal with
    | |- Py.round ?x = ?z =>
        replace x with (IZR z) by ring; apply round_IZR
    end.
Qed.

(** [int] of a float that is not negative rounds down. *)
Lemma int_nonneg (x : R) : 0 <= x -> (0 <= Py.int x)%Z /\ IZR (Py.int x) <= x.
Proof.
  intros Hx. unfold Py.int. destruct (Rle_dec 0 x) as [_|]; [|lra].
  split.
  - rewrite <- (ZfloorZ 0). now apply Zfloor_le.
  - apply Zfloor_bound.
Qed.

(** The alpha of a ring of nominal alpha [a0] at strength [s]. *)
Lemma ring_alpha (s : R) (rr a0 : Z) :
  0 <= s <= 1 -> (0 <= a0)%Z ->
  (0 <= Py.round (IZR a0 * s) <= a0)%Z /\
  (forall r, In r (Render.ring s (rr, a0)) ->
     r = (rr, Py.round (IZR a0 * s)) /\ (1 <= snd r <= a0)%Z).
Proof.
  intros Hs Ha. apply IZR_le in Ha.
  assert (Hr : (0 <= Py.round (IZR a0 * s) <= a0)%Z).
  { rewrite <- (round_IZR 0) at 1. rewrite <- (round_IZR a0) at 3.
    split; apply round_mono; nra. }
  split; [exact Hr|].
  intros r Hin. unfold Render.ring in Hin. cbn [fst snd] in Hin.
  destruct (_ <=? 0)%Z eqn:E; [contradiction|].
  apply Z.leb_gt in E. destruct Hin as [<-|[]]. cbn [snd].
  split; [reflexivity|lia].
Qed.

Lemma ring_off (r : Z * Z) : Render.ring 0 r = [].
Proof.
  unfold Render.ring. rewrite Rmult_0_r.
  change 0 with (IZR 0). now rewrite round_IZR.
Qed.

Lemma ring_full (rr a0 : Z) :
  (0 < a0)%Z -> Render.ring 1 (rr, a0) = [(rr, a0)].
Proof.
  intros Ha. unfold Render.ring. cbn [fst snd].
  rewrite Rmult_1_r, round_IZR.
  destruct (a0 <=? 0)%Z eqn:E; [apply Z.leb_le in E; lia|reflexivity].
Qed.

(** A ring drawn at some strength is drawn at every higher one, at
    least as opaque. *)
Lemma ring_mono (s1 s2 : R) (entry r : Z * Z) :
  0 <= s2 <= s1 -> s1 <= 1 -> (0 <= snd entry)%Z ->
  In r (Render.ring s2 entry) ->
  exists a1, In (fst r, a1) (Render.ring s1 entry) /\ (snd r <= a1)%Z.
Proof.
  intros Hs H1 Ha Hin. destruct entry as [rr a0]. cbn [snd] in Ha.
  destruct (ring_alpha s2 rr a0 ltac:(lra) Ha) as [_ H2].
  destruct (H2 r Hin) as [-> [Hpos _]]. cbn [fst snd] in *.
  assert (Hm : (Py.round (IZR a0 * s2) <= Py.round (IZR a0 * s1))%Z).
  { apply round_mono. apply IZR_le in Ha. nra. }
  exists (Py.round (IZR a0 * s1)). split; [|exact Hm].
  unfold Render.ring. cbn [fst snd].
  destruct (_ <=? 0)%Z eqn:E; [apply Z.leb_le in E; lia|now left].
Qed.

Lemma glow_duration_pos : 0 < config.GLOW_DURATION_S.
Proof. unfold config.GLOW_DURATION_S. lra. Qed.

Lemma flash_duration_pos : 0 < config.TARGET_FLASH_DURATION_S.
Proof. unfold config.TARGET_FLASH_DURATION_S. lra. Qed.

(** A ring radius [int(radius * k)] fits a glow surface of half-width
    [radius * m] when [k <= m]. *)
Lemma ring_radius_fits (radius m : Z) (k : R) :
  (0 <= radius)%Z -> 0 <= k <= IZR m ->
  (0 <= Py.int (IZR radius * k) <= radius * m)%Z.
Proof.
  intros Hr Hk. apply IZR_le in Hr.
  destruct (int_nonneg (IZR radius * k)) as [H0 H1]; [nra|].
  split; [exact H0|]. apply le_IZR. rewrite mult_IZR. nra.
Qed.

(** X25. The glow of the ball. Once [GLOW_DURATION_S] has passed since
    the last button edge the ball is drawn in its base colour and no
    glow circle is drawn; right at the edge it is drawn in the button's
    colour inside all five circles at their full alphas. In between,
    every circle drawn has an alpha within [1, 84] and fits the glow
    surface, and the glow only fades: a circle drawn at some time was
    drawn at every earlier time, at least as opaque. *)
Theorem glowing_ball_fades (radius : Z) (base blink : config.Color) :
  (0 <= radius)%Z ->
  let draw := Render.draw_glowing_ball radius base blink in
  (forall ge,
     config.GLOW_DURATION_S <= ge ->
     draw ge = Render.mkBall base (radius * 7) []) /\
  (forall ge,
     ge <= 0 ->
     draw ge =
     Render.mkBall blink (radius * 7) (Render.ball_ring_table radius)) /\
  (forall ge r,
     In r (Render.ball_rings (draw ge)) ->
     (0 <= fst r <= radius * 7)%Z /\ (1 <= snd r <= 84)%Z) /\
  (forall ge1 ge2 r,
     ge1 <= ge2 ->
     In r (Render.ball_rings (draw ge2)) ->
     exists a1,
       In (fst r, a1) (Render.ball_rings (draw ge1)) /\ (snd r <= a1)%Z).
Proof.
  intros Hr draw. subst draw. unfold Render.draw_glowing_ball.
  pose proof glow_duration_pos as Hd.
  split; [|split; [|split]].
  - intros ge Hge. rewrite (eased_done _ Hd ge Hge).
    rewrite (proj2 (lerp_color_ends blink base)).
    replace (1 - 1) with 0 by ring. cbn [flat_map Render.ball_ring_table].
    now rewrite !ring_off.
  - intros ge Hge. rewrite (eased_start _ Hd ge Hge).
    rewrite (proj1 (lerp_color_ends blink base)).
    replace (1 - 0) with 1 by ring. cbn [flat_map Render.ball_ring_table].
    rewrite !ring_full by lia. reflexivity.
  - intros ge r Hin. cbn [Render.ball_rings] in Hin.
    pose proof (eased_range _ ge : 0 <= Render.eased ge config.GLOW_DURATION_S <= 1)
      as He.
    apply in_flat_map in Hin. destruct Hin as (entry & Hentry & Hin).
    cbn [Render.ball_ring_table In] in Hentry.
    assert (Hspec : forall rr a0,
              (0 <= a0)%Z ->
              In r (Render.ring
                      (1 - Render.eased ge config.GLOW_DURATION_S) (rr, a0)) ->
              fst r = rr /\ (1 <= snd r <= a0)%Z).
    { intros rr a0 Ha Hr0.
      destruct (ring_alpha (1 - Render.eased ge config.GLOW_DURATION_S)
                  rr a0 ltac:(lra) Ha) as [_ Hspec].
      destruct (Hspec r Hr0) as [-> Hb]. now split. }
    destruct Hentry as [<-|[<-|[<-|[<-|[<-|[]]]]]];
      (apply Hspec in Hin; [|lia]; destruct Hin as [-> [Hlo Hhi]];
       split; [apply ring_radius_fits; [exact Hr|lra]|lia]).
  - intros ge1 ge2 r Hle Hin. cbn [Render.ball_rings] in Hin |- *.
    pose proof (eased_range _ ge1 : 0 <= Render.eased ge1 config.GLOW_DURATION_S <= 1)
      as He1.
    pose proof (eased_range _ ge2 : 0 <= Render.eased ge2 config.GLOW_DURATION_S <= 1)
      as He2.
    pose proof (eased_mono _ Hd ge1 ge2 Hle) as Hm.
    apply in_flat_map in Hin. destruct Hin as (entry & Hentry & Hin).
    assert (Ha : (0 <= snd entry)%Z).
    { cbn [Render.ball_ring_table In] in Hentry.
      destruct Hentry as [<-|[<-|[<-|[<-|[<-|[]]]]]]; cbn; lia. }
    destruct (ring_mono (1 - Render.eased ge1 config.GLOW_DURATION_S)
                (1 - Render.eased ge2 config.GLOW_DURATION_S) entry r
                ltac:(lra) ltac:(lra) Ha Hin) as (a1 & Hin1 & Hle1).
    exists a1. split; [|exact Hle1].
    apply in_flat_map. exists entry. now split.
Qed.

Lemma glowing_ball_fades_witness :
  Render.draw_glowing_ball 14 config.BALL_BASE_COLOR (80, 160, 255)%Z 0.5 =
  Render.mkBall config.BALL_BASE_COLOR (14 * 7) [].
Proof.
  refine (proj1 (glowing_ball_fades 14 config.BALL_BASE_COLOR
                   (80, 160, 255)%Z _) 0.5 _).
  - lia.
  - unfold config.GLOW_DURATION_S. lra.
Defined.

(** X26. The flash of the target. Once [TARGET_FLASH_DURATION_S] has
    passed since the last hit the outline alone is drawn; right at the
    hit the four glow circles are drawn at their full alphas and the hit
    ring is 7 px wide. Whenever the flash is drawn the timer is short of
    its end, the hit ring is between 2 and 7 px wide, and every glow
    circle has an alpha within [1, 52] and fits the glow surface. *)
Theorem target_flash_spec (radius : Z) :
  (0 <= radius)%Z ->
  (forall fe,
     config.TARGET_FLASH_DURATION_S <= fe ->
     Render.draw_target radius fe = None) /\
  (forall fe,
     fe <= 0 ->
     Render.draw_target radius fe =
     Some (Render.mkFlash (radius * 5) (Render.target_ring_table radius) 7)) /\
  (forall fe f,
     Render.draw_target radius fe = Some f ->
     fe < config.TARGET_FLASH_DURATION_S /\
     Render.flash_glow_max f = (radius * 5)%Z /\
     (2 <= Render.flash_width f <= 7)%Z /\
     forall r,
       In r (Render.flash_rings f) ->
       (0 <= fst r <= radius * 5)%Z /\ (1 <= snd r <= 52)%Z).
Proof.
  intros Hr. pose proof flash_duration_pos as Hd.
  unfold Render.draw_target. split; [|split].
  - intros fe Hfe. rewrite (eased_done _ Hd fe Hfe).
    destruct (Rgt_dec (1 - 1) 0.001); [lra|reflexivity].
  - intros fe Hfe. rewrite (eased_start _ Hd fe Hfe).
    replace (1 - 0) with 1 by ring.
    destruct (Rgt_dec 1 0.001); [|lra].
    cbn [flat_map Render.target_ring_table].
    rewrite !ring_full by lia. rewrite Rmult_1_r.
    change 5 with (IZR 5). rewrite round_IZR. reflexivity.
  - intros fe f Hdraw.
    pose proof (eased_range config.TARGET_FLASH_DURATION_S fe) as He.
    set (s := 1 - Render.eased fe config.TARGET_FLASH_DURATION_S) in *.
    destruct (Rgt_dec s 0.001) as [Hon|]; [|discriminate].
    assert (Ef : f = Render.mkFlash (radius * 5)
                       (flat_map (Render.ring s)
                          (Render.target_ring_table radius))
                       (2 + Py.round (5 * s))) by congruence.
    subst f. clear Hdraw.
    cbn [Render.flash_glow_max Render.flash_width Render.flash_rings].
    split.
    { destruct (Rlt_le_dec fe config.TARGET_FLASH_DURATION_S) as [|Hge];
        [assumption|].
      unfold s in Hon. rewrite (eased_done _ Hd fe Hge) in Hon. lra. }
    split; [reflexivity|]. split.
    { assert (H0 : (Py.round (IZR 0) <= Py.round (5 * s))%Z)
        by (apply round_mono; unfold s; lra).
      assert (H5 : (Py.round (5 * s) <= Py.round (IZR 5))%Z)
        by (apply round_mono; unfold s; lra).
      rewrite round_IZR in H0, H5. lia. }
    intros r Hin. apply in_flat_map in Hin.
    destruct Hin as (entry & Hentry & Hin).
    assert (Hspec : forall rr a0,
              (0 <= a0)%Z -> In r (Render.ring s (rr, a0)) ->
              fst r = rr /\ (1 <= snd r <= a0)%Z).
    { intros rr a0 Ha Hr0.
      destruct (ring_alpha s rr a0 ltac:(unfold s; lra) Ha) as [_ Hspec].
      destruct (Hspec r Hr0) as [-> Hb]. now split. }
    cbn [Render.target_ring_table In] in Hentry.
    destruct Hentry as [<-|[<-|[<-|[<-|[]]]]];
      (apply Hspec in Hin; [|lia]; destruct Hin as [-> [Hlo Hhi]];
       split; [apply ring_radius_fits; [exact Hr|lra]|lia]).
Qed.

Lemma target_flash_spec_witness :
  Render.draw_target 23 0 =
  Some (Render.mkFlash (23 * 5) (Render.target_ring_table 23) 7).
Proof.
  refine (proj1 (proj2 (target_flash_spec 23 _)) 0 _); [lia|lra].
Defined.

(* ================================================================= *)
(** ** Further properties: main.py, frame after frame *)

(** *** Many frames *)

Lemma stepped_app dt w h n m s s1 s2 :
  stepped dt w h n s s1 -> stepped dt w h m s1 s2 ->
  stepped dt w h (n + m) s s2.
Proof.
  intros H1 H2. induction H2 as [s1|m s1 s2 lx ly edges any override _ IH].
  - now rewrite Nat.add_0_r.
  - rewrite Nat.add_succ_r. apply stepped_S. now apply IH.
Qed.

(** A frame leaves the window as it is. *)
Lemma frame_window fuel now peek devices L L' :
  Main.frame fuel now peek devices L = Some L' ->
  Main.win_w L' = Main.win_w L /\ Main.win_h L' = Main.win_h L.
Proof.
  unfold Main.frame. cbn [Main.begin_frame].
  destruct (ControllerManager.peek_axes peek _) as [lx ly]. intros Hrun.
  refine (drain_inv
            (fun L0 => Main.win_w L0 = Main.win_w L /\
                       Main.win_h L0 = Main.win_h L)
            devices _ _ _ _ _ _ _ Hrun).
  - intros d L0 [Hw Hh].
    destruct (tick_state d (Main.engine_dt_of (Main.engine_fps L)) L0)
      as (_ & _ & _ & _ & _ & _ & Hw' & Hh').
    cbn [Main.with_cursor Main.engine_fps] in *.
    now rewrite Hw', Hh'.
  - now split.
Qed.

(** What a run of frames at one engine rate leaves. *)
Lemma run_frames_spec (inputs : list FrameInput) : forall L,
  0 <= Main.accumulator L ->
  monotone_clock (Main.last_time L) inputs ->
  let engine_dt := Main.engine_dt_of (Main.engine_fps L) in
  exists (fuel : nat) (L' : Main.Loop) (n : nat),
    (forall extra, run_frames (fuel + extra) inputs L = Some L') /\
    Main.engine_ticks L' = (Main.engine_ticks L + n)%nat /\
    stepped engine_dt (Main.win_w L) (Main.win_h L) n
      (Main.state L) (Main.state L') /\
    Main.accumulator L + simulated_time (Main.last_time L) inputs =
      Main.accumulator L' + INR n * engine_dt /\
    0 <= Main.accumulator L' /\
    (inputs <> [] -> Main.accumulator L' < engine_dt) /\
    (inputs = [] -> L' = L) /\
    Main.engine_fps L' = Main.engine_fps L.
Proof.
  induction inputs as [|[[now peek] devices] rest IH]; intros L Hacc Hclock
    engine_dt.
  - exists 0%nat, L, 0%nat. cbn [run_frames simulated_time INR].
    rewrite Nat.add_0_r.
    repeat split; try lra; try reflexivity; try apply stepped_O. congruence.
  - destruct Hclock as [Hnow Hrest]. cbn [simulated_time].
    set (frame_dt := Rmin (now - Main.last_time L) 0.25).
    assert (Hfd : 0 <= frame_dt)
      by (unfold frame_dt, Rmin; destruct (Rle_dec _ _); lra).
    destruct (frame_spec now peek devices L)
      as (f1 & L1 & n1 & Hrun1 & Ht1 & Ha1 & Hlt1 & Hpos1 & _ & Hlast1
          & Hfps1).
    fold frame_dt engine_dt in Ha1, Hlt1, Hpos1.
    assert (Hacc1 : 0 <= Main.accumulator L1) by (apply Hpos1; lra).
    assert (Hs1 : stepped engine_dt (Main.win_w L) (Main.win_h L) n1
                    (Main.state L) (Main.state L1)).
    { destruct (frame_stepped _ _ _ _ _ _ (Hrun1 0%nat)) as (n' & Hn' & Hs).
      assert (n' = n1) by lia. now subst n'. }
    destruct (frame_window _ _ _ _ _ _ (Hrun1 0%nat)) as [Hw1 Hh1].
    rewrite <- Hlast1 in Hrest.
    destruct (IH L1 Hacc1 Hrest)
      as (f2 & L' & n2 & Hrun2 & Ht2 & Hs2 & Ha2 & Hpos2 & Hlt2 & Hnil
          & Hfps2).
    rewrite Hfps1 in Ha2, Hlt2, Hs2. fold engine_dt in Ha2, Hlt2, Hs2.
    rewrite Hlast1 in Ha2. rewrite Hw1, Hh1 in Hs2.
    exists (f1 + f2)%nat, L', (n1 + n2)%nat.
    split; [|split; [|split; [|split; [|split; [|split; [|split]]]]]].
    + intros extra. cbn [run_frames].
      replace (f1 + f2 + extra)%nat with (f1 + (f2 + extra))%nat by lia.
      rewrite Hrun1.
      replace (f1 + (f2 + extra))%nat with (f2 + (f1 + extra))%nat by lia.
      apply Hrun2.
    + rewrite Ht2, Ht1. lia.
    + exact (stepped_app _ _ _ _ _ _ _ _ Hs1 Hs2).
    + rewrite plus_INR. lra.
    + exact Hpos2.
    + intros _. destruct rest as [|x rest'].
      * rewrite (Hnil eq_refl). exact Hlt1.
      * apply Hlt2. discriminate.
    + discriminate.
    + now rewrite Hfps2.
Qed.

(** X27. What a frame leaves in the accumulator is carried into the
    next one. Over any run of frames at one engine rate, on a clock that
    never goes back, from an accumulator in [0, engine_dt): every frame
    comes to its end; the ticks of the whole run are as many calls of
    [engine_step] over [engine_dt] on the state; and the accumulator
    ends, within [0, engine_dt), with what it held plus the frames'
    capped delta-times less [engine_dt] for each tick of the run. No
    time is dropped between frames. *)
Theorem simulation_keeps_pace (inputs : list FrameInput) (L : Main.Loop) :
  let engine_dt := Main.engine_dt_of (Main.engine_fps L) in
  let time := simulated_time (Main.last_time L) inputs in
  0 <= Main.accumulator L < engine_dt ->
  monotone_clock (Main.last_time L) inputs ->
  exists (fuel : nat) (L' : Main.Loop) (n : nat),
    (forall extra, run_frames (fuel + extra) inputs L = Some L') /\
    Main.engine_ticks L' = (Main.engine_ticks L + n)%nat /\
    stepped engine_dt (Main.win_w L) (Main.win_h L) n
      (Main.state L) (Main.state L') /\
    Main.accumulator L + time = Main.accumulator L' + INR n * engine_dt /\
    0 <= Main.accumulator L' < engine_dt.
Proof.
  intros engine_dt time [Hacc0 Hacc1] Hclock.
  destruct (run_frames_spec inputs L Hacc0 Hclock)
    as (fuel & L' & n & Hrun & Ht & Hs & Ha & Hpos & Hlt & Hnil & _).
  fold engine_dt time in Ha, Hlt, Hs.
  assert (Hlt' : Main.accumulator L' < engine_dt).
  { destruct inputs as [|x rest].
    - now rewrite (Hnil eq_refl).
    - apply Hlt. discriminate. }
  exists fuel, L', n.
  split; [exact Hrun|]. split; [exact Ht|]. split; [exact Hs|].
  split; [exact Ha|]. split; assumption.
Qed.

Lemma simulation_keeps_pace_witness :
  exists (fuel : nat) (L' : Main.Loop) (n : nat),
    (forall extra,
       run_frames (fuel + extra)
         [(0.01, None, idle_devices); (0.02, None, idle_devices);
          (0.04, None, idle_devices)]
         (demo_loop 0 true) = Some L') /\
    Main.engine_ticks L' = (0 + n)%nat /\
    stepped (Main.engine_dt_of 60) 1280 720 n
      (Main.state (demo_loop 0 true)) (Main.state L') /\
    0 + (Rmin (0.01 - 0) 0.25
         + (Rmin (0.02 - 0.01) 0.25 + (Rmin (0.04 - 0.02) 0.25 + 0))) =
      Main.accumulator L' + INR n * Main.engine_dt_of 60 /\
    0 <= Main.accumulator L' < Main.engine_dt_of 60.
Proof.
  refine (simulation_keeps_pace
            [(0.01, None, idle_devices); (0.02, None, idle_devices);
             (0.04, None, idle_devices)]
            (demo_loop 0 true) _ _).
  - cbn. unfold Main.engine_dt_of. cbn. lra.
  - cbn. lra.
Defined.

(* ================================================================= *)
(** ** Further properties: config.py *)

(** *** The colours of the buttons *)

Lemma dict_get_In {V : Type} (d : list (Z * V)) (k : Z) (v : V) :
  Py.dict_get d k = Some v -> In (k, v) d.
Proof.
  induction d as [|[k' v'] d IH]; cbn [Py.dict_get]; [discriminate|].
  destruct (Z.eqb_spec k' k) as [->|_].
  - intros [= ->]. now left.
  - intros H. right. now apply IH.
Qed.

(** X28. [get_button_color] answers for every index, negative ones
    included: the colour [BUTTON_COLORS] gives the index when it has
    one, as it has for 0 to 17, and otherwise the palette colour at the
    index modulo the palette's length, which is always a valid position.
    The answer is a colour with every channel within [0, 255] and is
    never the ball's base colour, so a button edge always shows. *)
Theorem get_button_color_total (i : Z) :
  let c := config.get_button_color i in
  button_color_ok c = true /\
  c <> config.BALL_BASE_COLOR /\
  ((0 <= i <= 17)%Z -> In (i, c) config.BUTTON_COLORS) /\
  (~ (0 <= i <= 17)%Z ->
   (0 <= i mod 16 < 16)%Z /\
   nth_error config.BUTTON_COLOR_PALETTE (Z.to_nat (i mod 16)) = Some c).
Proof.
  intros c.
  assert (Htable : forallb (fun kv => button_color_ok (snd kv))
                     config.BUTTON_COLORS = true) by reflexivity.
  assert (Hpal : forallb button_color_ok config.BUTTON_COLOR_PALETTE = true)
    by reflexivity.
  assert (Hkeys : forall k v,
            In (k, v) config.BUTTON_COLORS -> (0 <= k <= 17)%Z).
  { intros k v Hin. cbn in Hin.
    repeat (destruct Hin as [[= <- _]|Hin]; [lia|]). contradiction. }
  assert (Hhas : forall n : nat,
            (n < 18)%nat ->
            Py.dict_get config.BUTTON_COLORS (Z.of_nat n) <> None).
  { intros n Hn. do 18 (destruct n as [|n]; [discriminate|]). lia. }
  assert (Hmod : (0 <= i mod 16 < 16)%Z) by (apply Z.mod_pos_bound; lia).
  assert (Hok : button_color_ok c = true /\
                ((0 <= i <= 17)%Z -> In (i, c) config.BUTTON_COLORS) /\
                (~ (0 <= i <= 17)%Z ->
                 nth_error config.BUTTON_COLOR_PALETTE
                   (Z.to_nat (i mod 16)) = Some c)).
  { subst c. unfold config.get_button_color.
    destruct (Py.dict_get config.BUTTON_COLORS i) as [c|] eqn:E.
    - apply dict_get_In in E.
      split; [|split; [intros _; exact E|]].
      + rewrite forallb_forall in Htable. exact (Htable _ E).
      + intros Hout. now apply Hkeys in E.
    - cbn [config.BUTTON_COLOR_PALETTE length Z.of_nat].
      change (Z.pos (Pos.of_succ_nat 15)) with 16%Z.
      assert (Hlt : (Z.to_nat (i mod 16) < 16)%nat) by lia.
      pose proof (nth_error_nth' config.BUTTON_COLOR_PALETTE
                    (235, 235, 235)%Z Hlt) as Hnth.
      split; [|split].
      + rewrite forallb_forall in Hpal. apply Hpal.
        apply nth_In. exact Hlt.
      + intros Hin. exfalso.
        apply (Hhas (Z.to_nat i)); [lia|].
        now rewrite Z2Nat.id by lia.
      + intros _. exact Hnth. }
  destruct Hok as (Hc & Hin & Hout).
  split; [exact Hc|]. split; [|split; [exact Hin|]].
  - intros E. rewrite E in Hc. discriminate.
  - intros H. split; [exact Hmod|now apply Hout].
Qed.

(* ================================================================= *)
(** ** Further properties: main.py, the render position *)

(** X29. [render_pos] never raises. For every accumulator and every
    time step, with interpolation on or off, the factor handed to
    [lerp] is within [0, 1] and the render position has a value. It is
    [pos] when interpolation is off or the time step is not positive.
    With interpolation on it is [prev_pos] for an accumulator that is
    not positive and [pos] for one of a full time step or more; for the
    accumulator a drained frame leaves, in [0, engine_dt), the factor is
    [accumulator / engine_dt] itself, below 1. *)
Theorem render_pos_total (L : Main.Loop) (engine_dt : R) :
  let prev := EngineState.prev_pos (Main.state L) in
  let cur := EngineState.pos (Main.state L) in
  let alpha := util.clamp (Main.accumulator L / engine_dt) 0 1 in
  0 <= alpha <= 1 /\
  (exists p, Main.render_pos L engine_dt = Some p) /\
  (Main.interp_enabled L = false \/ engine_dt <= 0 ->
   Main.render_pos L engine_dt = Some cur) /\
  (Main.interp_enabled L = true -> 0 < engine_dt ->
   (Main.accumulator L <= 0 -> Main.render_pos L engine_dt = Some prev) /\
   (engine_dt <= Main.accumulator L ->
    Main.render_pos L engine_dt = Some cur) /\
   (0 <= Main.accumulator L < engine_dt ->
    alpha = Main.accumulator L / engine_dt /\ 0 <= alpha < 1)).
Proof.
  intros prev cur alpha.
  assert (Ha : 0 <= alpha <= 1) by (apply clamp_within; lra).
  assert (Hlerp : Main.interp_enabled L = true -> 0 < engine_dt ->
                  Main.render_pos L engine_dt =
                  Some (Vector2.mk
                          (util.lerp (Vector2.x prev) (Vector2.x cur) alpha)
                          (util.lerp (Vector2.y prev) (Vector2.y cur) alpha))).
  { intros Hon Hdt. unfold Main.render_pos, Py.float_gt. rewrite Hon.
    destruct (Rgt_dec engine_dt 0); [|lra]. cbn [andb].
    fold prev cur alpha. now apply vector2_lerp_in_range. }
  assert (Hoff : Main.interp_enabled L = false \/ engine_dt <= 0 ->
                 Main.render_pos L engine_dt = Some cur).
  { intros [Hi|Hdt]; unfold Main.render_pos, Py.float_gt.
    - now rewrite Hi.
    - destruct (Rgt_dec engine_dt 0); [lra|].
      now rewrite andb_false_r. }
  split; [exact Ha|]. split; [|split; [exact Hoff|]].
  - destruct (Main.interp_enabled L) eqn:Hi.
    + destruct (Rlt_le_dec 0 engine_dt) as [Hdt|Hdt].
      * eexists. now apply Hlerp.
      * exists cur. apply Hoff. now right.
    + exists cur. apply Hoff. now left.
  - intros Hon Hdt. rewrite (Hlerp Hon Hdt).
    assert (Hinv : 0 < / engine_dt) by now apply Rinv_0_lt_compat.
    split; [|split].
    + intros Hacc.
      assert (E : alpha = 0).
      { unfold alpha, util.clamp, Rdiv.
        destruct (Rlt_dec _ 0); [reflexivity|].
        destruct (Rgt_dec _ 1); nra. }
      rewrite E. unfold util.lerp. destruct prev as [px py].
      cbn [Vector2.x Vector2.y]. do 2 f_equal; ring.
    + intros Hacc.
      assert (Hq : 1 <= Main.accumulator L / engine_dt).
      { apply (Rmult_le_reg_r engine_dt); [exact Hdt|].
        unfold Rdiv. rewrite Rmult_assoc, Rinv_l, Rmult_1_r; lra. }
      assert (E : alpha = 1) by (unfold alpha, util.clamp; cases_R).
      rewrite E. unfold util.lerp. destruct cur as [cx cy].
      cbn [Vector2.x Vector2.y]. do 2 f_equal; ring.
    + intros [H0 H1].
      assert (Hq0 : 0 <= Main.accumulator L / engine_dt)
        by (unfold Rdiv; nra).
      assert (Hq1 : Main.accumulator L / engine_dt < 1).
      { apply (Rmult_lt_reg_r engine_dt); [exact Hdt|].
        unfold Rdiv. rewrite Rmult_assoc, Rinv_l, Rmult_1_r; lra. }
      assert (E : alpha = Main.accumulator L / engine_dt)
        by (unfold alpha; apply clamp_id; lra).
      rewrite E. split; [reflexivity|lra].
Qed.

(* ================================================================= *)
(** ** Further properties: simulation.py, the timers *)

(** *** Timers and the engine rate *)

(** Two advances of a timer are one advance by the sum. *)
Lemma advance_timer_add (elapsed duration dt1 dt2 : R) :
  0 <= dt1 -> 0 <= dt2 ->
  advance_timer (advance_timer elapsed duration dt1) duration dt2 =
  advance_timer elapsed duration (dt1 + dt2).
Proof.
  intros H1 H2. unfold advance_timer.
  destruct (Rlt_dec elapsed duration) as [Hlt|Hge].
  - destruct (Rgt_dec (elapsed + dt1) duration) as [Hover|Hin].
    + destruct (Rlt_dec duration duration); [lra|].
      destruct (Rgt_dec (elapsed + (dt1 + dt2)) duration); [reflexivity|lra].
    + destruct (Rlt_dec (elapsed + dt1) duration) as [Hlt1|Hfull].
      * destruct (Rgt_dec (elapsed + dt1 + dt2) duration);
          destruct (Rgt_dec (elapsed + (dt1 + dt2)) duration); lra.
      * destruct (Rgt_dec (elapsed + (dt1 + dt2)) duration); lra.
  - destruct (Rlt_dec elapsed duration); [lra|reflexivity].
Qed.

Lemma advance_timer_0 (elapsed duration : R) :
  advance_timer elapsed duration 0 = elapsed.
Proof.
  unfold advance_timer. destruct (Rlt_dec elapsed duration); [|reflexivity].
  destruct (Rgt_dec (elapsed + 0) duration); lra.
Qed.

(** The timers after a step with no button edge. *)
Lemma idle_step_timers state dt w h margin :
  let state' := engine_step state dt w h margin 0 0 [] false None in
  EngineState.visual state' =
    BallVisual.mk
      (BallVisual.active_blink_color (EngineState.visual state))
      (advance_timer (BallVisual.glow_elapsed (EngineState.visual state))
         config.GLOW_DURATION_S dt) /\
  TargetState.enabled (EngineState.target state') =
    TargetState.enabled (EngineState.target state) /\
  TargetState.hit_flash_elapsed (EngineState.target state') =
    if TargetState.enabled (EngineState.target state)
    then advance_timer
           (TargetState.hit_flash_elapsed (EngineState.target state))
           config.TARGET_FLASH_DURATION_S dt
    else TargetState.hit_flash_elapsed (EngineState.target state).
Proof.
  cbv zeta. split; [reflexivity|].
  unfold engine_step. cbn [EngineState.target].
  destruct (TargetState.enabled (EngineState.target state)) eqn:Hon.
  - destruct (reflect_axis (Vector2.x _) _ _ _) as [tx tvx].
    destruct (reflect_axis (Vector2.y _) _ _ _) as [ty tvy].
    cbn. now split.
  - now split.
Qed.

(** X30. The effect timers count simulated time, not ticks. Over any
    run of steps without a button edge, whatever the time steps are as
    long as none is negative, the glow timer ends where one single step
    over their sum would leave it, and so does the flash timer of an
    enabled target; the blink colour is kept, and the flash timer of a
    disabled target stands still. The glow therefore lasts
    [GLOW_DURATION_S] of simulated time at every engine rate. *)
Theorem timers_count_simulated_time (w h margin : Z) (dts : list R) :
  Forall (fun dt => 0 <= dt) dts ->
  forall state,
  let state' := idle_steps w h margin dts state in
  let total := fold_right Rplus 0 dts in
  EngineState.visual state' =
    BallVisual.mk
      (BallVisual.active_blink_color (EngineState.visual state))
      (advance_timer (BallVisual.glow_elapsed (EngineState.visual state))
         config.GLOW_DURATION_S total) /\
  TargetState.hit_flash_elapsed (EngineState.target state') =
    (if TargetState.enabled (EngineState.target state)
     then advance_timer
            (TargetState.hit_flash_elapsed (EngineState.target state))
            config.TARGET_FLASH_DURATION_S total
     else TargetState.hit_flash_elapsed (EngineState.target state)).
Proof.
  induction 1 as [|dt rest Hdt Hrest IH]; intros state state' total.
  - subst state' total. cbn [idle_steps fold_left fold_right].
    rewrite !advance_timer_0. split; [now destruct (EngineState.visual state)|].
    now destruct (TargetState.enabled _).
  - subst state' total. unfold idle_steps in *. cbn [fold_left fold_right].
    assert (Htot : 0 <= fold_right Rplus 0 rest).
    { clear IH. induction Hrest as [|d l Hd _ IHl]; cbn [fold_right]; lra. }
    destruct (idle_step_timers state dt w h margin) as (Hv & He & Hf).
    destruct (IH (engine_step state dt w h margin 0 0 [] false None))
      as [IHv IHf].
    rewrite IHv, IHf, Hv, He, Hf. cbn [BallVisual.active_blink_color
      BallVisual.glow_elapsed].
    rewrite advance_timer_add by assumption.
    split; [reflexivity|].
    destruct (TargetState.enabled (EngineState.target state));
      [now rewrite advance_timer_add by assumption|reflexivity].
Qed.

Lemma timers_count_simulated_time_witness :
  let state' :=
    idle_steps 1280 720 12 [1 / 60; 1 / 120; 1 / 30] aimed_state in
  TargetState.hit_flash_elapsed (EngineState.target state') =
  advance_timer 0.2 config.TARGET_FLASH_DURATION_S
    (1 / 60 + (1 / 120 + (1 / 30 + 0))).
Proof.
  refine (proj2 (timers_count_simulated_time 1280 720 12
                   [1 / 60; 1 / 120; 1 / 30] _ aimed_state)).
  repeat constructor; lra.
Defined.
